(** * Reinette II: the 6502 core and the Apple II bus of reinette-II.c

    A shallow embedding of the emulator's machine state (the C globals
    [rom], [ram], [ope], [reg], [key], [videoNeedsRefresh]) and of every
    routine of the interpreter, followed by the properties established
    about them.

    Conventions of the embedding.
    - A [uint8_t] is a [Z] in [0, 256), a [uint16_t] a [Z] in [0, 65536);
      every store into such an object and every argument passed to such a
      parameter is written with its wrap-around ([u8], [u16]).
    - The two arrays are lists of bytes, read with [!!!] and updated with
      [<[ _ := _ ]>]; the source guards every access with a range test, so a
      machine whose lists have the declared sizes never leaves them.
    - The globals are threaded explicitly: a routine that reads the bus
      returns the byte together with the machine it leaves behind. *)

From Stdlib Require Import ZArith Lia Bool List.
From stdpp Require Import base list.
Import ListNotations.
Open Scope Z_scope.

(** ** Integer conversions *)

Definition u8 (x : Z) : Z := x mod 256.
Definition u16 (x : Z) : Z := x mod 65536.

(** C truth of an integer used as a condition. *)
Definition nonzero (x : Z) : bool := negb (x =? 0).

(** ** Constants (the [#define]s) *)

Definition ROMSTART : Z := 0xD000.
Definition ROMSIZE : Z := 0x3000.
Definition RAMSIZE : Z := 0xC000.

Definition CARRY : Z := 0x01.
Definition ZERO : Z := 0x02.
Definition INTERRUPT : Z := 0x04.
Definition DECIMAL : Z := 0x08.
Definition BREAK : Z := 0x10.
Definition UNDEFINED : Z := 0x20.
Definition OVERFLOW : Z := 0x40.
Definition SIGN : Z := 0x80.

(** ** Machine state *)

Record Operand : Type := mkOperand {
  setAcc : bool;
  value : Z;
  address : Z
}.

Record Register : Type := mkRegister {
  A : Z; X : Z; Y : Z; SR : Z; SP : Z;
  PC : Z
}.

Record machine : Type := mkMachine {
  rom : list Z;
  ram : list Z;
  ope : Operand;
  reg : Register;
  key : Z;
  videoNeedsRefresh : bool
}.

(** Assignments to one global or one field. *)

Definition set_rom (s : machine) (m : list Z) : machine :=
  mkMachine m (ram s) (ope s) (reg s) (key s) (videoNeedsRefresh s).
Definition set_ram (s : machine) (m : list Z) : machine :=
  mkMachine (rom s) m (ope s) (reg s) (key s) (videoNeedsRefresh s).
Definition set_ope (s : machine) (o : Operand) : machine :=
  mkMachine (rom s) (ram s) o (reg s) (key s) (videoNeedsRefresh s).
Definition set_reg (s : machine) (r : Register) : machine :=
  mkMachine (rom s) (ram s) (ope s) r (key s) (videoNeedsRefresh s).
Definition set_key (s : machine) (k : Z) : machine :=
  mkMachine (rom s) (ram s) (ope s) (reg s) k (videoNeedsRefresh s).
Definition set_videoNeedsRefresh (s : machine) (b : bool) : machine :=
  mkMachine (rom s) (ram s) (ope s) (reg s) (key s) b.

Definition set_setAcc (s : machine) (b : bool) : machine :=
  set_ope s (mkOperand b (value (ope s)) (address (ope s))).
Definition set_value (s : machine) (v : Z) : machine :=
  set_ope s (mkOperand (setAcc (ope s)) (u16 v) (address (ope s))).
Definition set_address (s : machine) (a : Z) : machine :=
  set_ope s (mkOperand (setAcc (ope s)) (value (ope s)) (u16 a)).

Definition set_A (s : machine) (v : Z) : machine :=
  let r := reg s in set_reg s (mkRegister (u8 v) (X r) (Y r) (SR r) (SP r) (PC r)).
Definition set_X (s : machine) (v : Z) : machine :=
  let r := reg s in set_reg s (mkRegister (A r) (u8 v) (Y r) (SR r) (SP r) (PC r)).
Definition set_Y (s : machine) (v : Z) : machine :=
  let r := reg s in set_reg s (mkRegister (A r) (X r) (u8 v) (SR r) (SP r) (PC r)).
Definition set_SR (s : machine) (v : Z) : machine :=
  let r := reg s in set_reg s (mkRegister (A r) (X r) (Y r) (u8 v) (SP r) (PC r)).
Definition set_SP (s : machine) (v : Z) : machine :=
  let r := reg s in set_reg s (mkRegister (A r) (X r) (Y r) (SR r) (u8 v) (PC r)).
Definition set_PC (s : machine) (v : Z) : machine :=
  let r := reg s in set_reg s (mkRegister (A r) (X r) (Y r) (SR r) (SP r) (u16 v)).

(** [reg.SR |= m] and [reg.SR &= ~m]. *)
Definition SR_or (s : machine) (m : Z) : machine :=
  set_SR s (Z.lor (SR (reg s)) m).
Definition SR_andnot (s : machine) (m : Z) : machine :=
  set_SR s (Z.land (SR (reg s)) (Z.lnot m)).

(** The idiom [if (c) reg.SR |= m; else reg.SR &= ~m;]. *)
Definition SR_assign (s : machine) (m : Z) (c : bool) : machine :=
  if c then SR_or s m else SR_andnot s m.

(** ** Memory and I/O *)

Definition readMem (s : machine) (address : Z) : Z * machine :=
  let address := u16 address in
  if address <? RAMSIZE then (ram s !!! Z.to_nat address, s)
  else if address >=? ROMSTART then (rom s !!! Z.to_nat (address - ROMSTART), s)
  else if address =? 0xC000 then (key s, s)
  else if address =? 0xC010 then
    let s := set_key s (u8 (Z.land (key s) 0x7F)) in
    (key s, s)
  else (0, s).

Definition writeMem (s : machine) (address value : Z) : machine :=
  let address := u16 address in
  let value := u8 value in
  let s := if nonzero (Z.land address 0x400)
           then set_videoNeedsRefresh s true else s in
  if address <? RAMSIZE then set_ram s (<[Z.to_nat address := value]> (ram s))
  else if address =? 0xC010 then set_key s (u8 (Z.land (key s) 0x7F))
  else s.

(** ** Reset *)

Definition reset (s : machine) : machine :=
  let '(lo, s) := readMem s 0xFFFC in
  let '(hi, s) := readMem s 0xFFFD in
  let s := set_PC s (Z.lor lo (Z.shiftl hi 8)) in
  let s := set_SP s 0xFF in
  let s := SR_or s UNDEFINED in
  let s := set_setAcc s false in
  let s := set_value s 0 in
  set_address s 0.

(** ** Stack, sign and zero flags routines *)

Definition push (s : machine) (value : Z) : machine :=
  let sp := SP (reg s) in
  let s := set_SP s (sp - 1) in
  writeMem s (0x100 + sp) value.

Definition pull (s : machine) : Z * machine :=
  let s := set_SP s (SP (reg s) + 1) in
  readMem s (0x100 + SP (reg s)).

Definition setSZ (s : machine) (value : Z) : machine :=
  let value := u8 value in
  let s := if nonzero value then SR_andnot s ZERO else SR_or s ZERO in
  if nonzero (Z.land value 0x80) then SR_or s SIGN else SR_andnot s SIGN.

(** ** Addressing modes

    Where one C expression calls [readMem] twice, the calls are taken from
    left to right.  The order is immaterial ([readMem_commute] below): a read
    has a side effect only at [0xC010], only a read of [0xC000] can tell, and
    the two addresses read by one expression of the source are neighbours
    within a page, never sixteen apart. *)

Definition IMP (s : machine) : machine := s.

Definition ACC (s : machine) : machine :=
  let s := set_value s (A (reg s)) in
  set_setAcc s true.

Definition IMM (s : machine) : machine :=
  let pc := PC (reg s) in
  let s := set_PC s (pc + 1) in
  let s := set_address s pc in
  let '(v, s) := readMem s (address (ope s)) in
  set_value s v.

Definition ZPG (s : machine) : machine :=
  let pc := PC (reg s) in
  let s := set_PC s (pc + 1) in
  let '(b, s) := readMem s pc in
  let s := set_address s b in
  let '(v, s) := readMem s (address (ope s)) in
  set_value s v.

Definition ZPX (s : machine) : machine :=
  let pc := PC (reg s) in
  let s := set_PC s (pc + 1) in
  let '(b, s) := readMem s pc in
  let s := set_address s (Z.land (b + X (reg s)) 0xFF) in
  let '(v, s) := readMem s (address (ope s)) in
  set_value s v.

Definition ZPY (s : machine) : machine :=
  let pc := PC (reg s) in
  let s := set_PC s (pc + 1) in
  let '(b, s) := readMem s pc in
  let s := set_address s (Z.land (b + Y (reg s)) 0xFF) in
  let '(v, s) := readMem s (address (ope s)) in
  set_value s v.

Definition REL (s : machine) : machine :=
  let pc := PC (reg s) in
  let s := set_PC s (pc + 1) in
  let '(b, s) := readMem s pc in
  let s := set_address s b in
  if nonzero (Z.land (address (ope s)) 0x80)
  then set_address s (Z.lor (address (ope s)) 0xFF00)
  else s.

Definition ABS (s : machine) : machine :=
  let '(lo, s) := readMem s (PC (reg s)) in
  let '(hi, s) := readMem s (PC (reg s) + 1) in
  let s := set_address s (Z.lor lo (Z.shiftl hi 8)) in
  let '(v, s) := readMem s (address (ope s)) in
  let s := set_value s v in
  set_PC s (PC (reg s) + 2).

Definition ABX (s : machine) : machine :=
  let '(lo, s) := readMem s (PC (reg s)) in
  let '(hi, s) := readMem s (PC (reg s) + 1) in
  let s := set_address s (Z.lor lo (Z.shiftl hi 8) + X (reg s)) in
  let '(v, s) := readMem s (address (ope s)) in
  let s := set_value s v in
  set_PC s (PC (reg s) + 2).

Definition ABY (s : machine) : machine :=
  let '(lo, s) := readMem s (PC (reg s)) in
  let '(hi, s) := readMem s (PC (reg s) + 1) in
  let s := set_address s (Z.lor lo (Z.shiftl hi 8) + Y (reg s)) in
  let '(v, s) := readMem s (address (ope s)) in
  let s := set_value s v in
  set_PC s (PC (reg s) + 2).

Definition IND (s : machine) : machine :=
  let '(lo, s) := readMem s (PC (reg s)) in
  let '(hi, s) := readMem s (PC (reg s) + 1) in
  let vector1 := u16 (Z.lor lo (Z.shiftl hi 8)) in
  let vector2 := u16 (Z.lor (Z.land vector1 0xFF00) (Z.land (vector1 + 1) 0x00FF)) in
  let '(lo, s) := readMem s vector1 in
  let '(hi, s) := readMem s vector2 in
  let s := set_address s (Z.lor lo (Z.shiftl hi 8)) in
  let '(v, s) := readMem s (address (ope s)) in
  let s := set_value s v in
  set_PC s (PC (reg s) + 2).

Definition IDX (s : machine) : machine :=
  let pc := PC (reg s) in
  let s := set_PC s (pc + 1) in
  let '(b, s) := readMem s pc in
  let vector1 := u16 (Z.land (b + X (reg s)) 0xFF) in
  let '(lo, s) := readMem s (Z.land vector1 0x00FF) in
  let '(hi, s) := readMem s (Z.land (vector1 + 1) 0x00FF) in
  let s := set_address s (Z.lor lo (Z.shiftl hi 8)) in
  let '(v, s) := readMem s (address (ope s)) in
  set_value s v.

Definition IDY (s : machine) : machine :=
  let pc := PC (reg s) in
  let s := set_PC s (pc + 1) in
  let '(b, s) := readMem s pc in
  let vector1 := u16 b in
  let vector2 := u16 (Z.lor (Z.land vector1 0xFF00) (Z.land (vector1 + 1) 0x00FF)) in
  let '(lo, s) := readMem s vector1 in
  let '(hi, s) := readMem s vector2 in
  let s := set_address s (Z.lor lo (Z.shiftl hi 8) + Y (reg s)) in
  let '(v, s) := readMem s (address (ope s)) in
  set_value s v.

(** ** Instructions

    [RTS] and [RTI] call [pull] twice inside one expression,
    [pull() | (pull() << 8)], and C leaves it to the compiler which of the
    two calls is made first.  [RTS] and [RTI] make the left call first, so
    that the first byte pulled is the low one; [RTS_right_first] and
    [RTI_right_first], further down, make the right call first.  No other
    routine depends on such an order. *)

Definition NOP (s : machine) : machine := s.

Definition BRK (s : machine) : machine :=
  let s := set_PC s (PC (reg s) + 1) in
  let s := push s (Z.land (Z.shiftr (PC (reg s)) 8) 0xFF) in
  let s := push s (Z.land (PC (reg s)) 0xFF) in
  let s := push s (Z.lor (SR (reg s)) BREAK) in
  let s := SR_or s INTERRUPT in
  let '(lo, s) := readMem s 0xFFFE in
  let '(hi, s) := readMem s 0xFFFF in
  set_PC s (Z.lor lo (Z.shiftl hi 8)).

Definition CLD (s : machine) : machine := SR_andnot s DECIMAL.
Definition SED (s : machine) : machine := SR_or s DECIMAL.
Definition CLC (s : machine) : machine := SR_andnot s CARRY.
Definition SEC (s : machine) : machine := SR_or s CARRY.
Definition CLI (s : machine) : machine := SR_andnot s INTERRUPT.
Definition SEI (s : machine) : machine := SR_or s INTERRUPT.
Definition CLV (s : machine) : machine := SR_andnot s OVERFLOW.

Definition LDA (s : machine) : machine :=
  let s := set_A s (value (ope s)) in setSZ s (A (reg s)).
Definition LDX (s : machine) : machine :=
  let s := set_X s (value (ope s)) in setSZ s (X (reg s)).
Definition LDY (s : machine) : machine :=
  let s := set_Y s (value (ope s)) in setSZ s (Y (reg s)).

Definition STA (s : machine) : machine := writeMem s (address (ope s)) (A (reg s)).
Definition STX (s : machine) : machine := writeMem s (address (ope s)) (X (reg s)).
Definition STY (s : machine) : machine := writeMem s (address (ope s)) (Y (reg s)).

Definition DEC (s : machine) : machine :=
  let s := set_value s (value (ope s) - 1) in
  let s := writeMem s (address (ope s)) (value (ope s)) in
  setSZ s (value (ope s)).
Definition DEX (s : machine) : machine :=
  let s := set_X s (X (reg s) - 1) in setSZ s (X (reg s)).
Definition DEY (s : machine) : machine :=
  let s := set_Y s (Y (reg s) - 1) in setSZ s (Y (reg s)).

Definition INC (s : machine) : machine :=
  let s := set_value s (value (ope s) + 1) in
  let s := writeMem s (address (ope s)) (value (ope s)) in
  setSZ s (value (ope s)).
Definition INX (s : machine) : machine :=
  let s := set_X s (X (reg s) + 1) in setSZ s (X (reg s)).
Definition INY (s : machine) : machine :=
  let s := set_Y s (Y (reg s) + 1) in setSZ s (Y (reg s)).

Definition TAX (s : machine) : machine :=
  let s := set_X s (A (reg s)) in setSZ s (X (reg s)).
Definition TAY (s : machine) : machine :=
  let s := set_Y s (A (reg s)) in setSZ s (Y (reg s)).
Definition TXA (s : machine) : machine :=
  let s := set_A s (X (reg s)) in setSZ s (A (reg s)).
Definition TYA (s : machine) : machine :=
  let s := set_A s (Y (reg s)) in setSZ s (A (reg s)).
Definition TSX (s : machine) : machine :=
  let s := set_X s (SP (reg s)) in setSZ s (X (reg s)).
Definition TXS (s : machine) : machine := set_SP s (X (reg s)).

Definition BEQ (s : machine) : machine :=
  if nonzero (Z.land (SR (reg s)) ZERO)
  then set_PC s (PC (reg s) + address (ope s)) else s.
Definition BNE (s : machine) : machine :=
  if negb (nonzero (Z.land (SR (reg s)) ZERO))
  then set_PC s (PC (reg s) + address (ope s)) else s.
Definition BMI (s : machine) : machine :=
  if nonzero (Z.land (SR (reg s)) SIGN)
  then set_PC s (PC (reg s) + address (ope s)) else s.
Definition BPL (s : machine) : machine :=
  if negb (nonzero (Z.land (SR (reg s)) SIGN))
  then set_PC s (PC (reg s) + address (ope s)) else s.
Definition BVS (s : machine) : machine :=
  if nonzero (Z.land (SR (reg s)) OVERFLOW)
  then set_PC s (PC (reg s) + address (ope s)) else s.
Definition BVC (s : machine) : machine :=
  if negb (nonzero (Z.land (SR (reg s)) OVERFLOW))
  then set_PC s (PC (reg s) + address (ope s)) else s.
Definition BCS (s : machine) : machine :=
  if nonzero (Z.land (SR (reg s)) CARRY)
  then set_PC s (PC (reg s) + address (ope s)) else s.
Definition BCC (s : machine) : machine :=
  if negb (nonzero (Z.land (SR (reg s)) CARRY))
  then set_PC s (PC (reg s) + address (ope s)) else s.

Definition PHA (s : machine) : machine := push s (A (reg s)).

Definition PLA (s : machine) : machine :=
  let '(v, s) := pull s in
  let s := set_A s v in
  setSZ s (A (reg s)).

Definition PHP (s : machine) : machine := push s (Z.lor (SR (reg s)) BREAK).

Definition PLP (s : machine) : machine :=
  let '(v, s) := pull s in
  set_SR s (Z.lor v UNDEFINED).

Definition JMP (s : machine) : machine := set_PC s (address (ope s)).

Definition JSR (s : machine) : machine :=
  let s := set_PC s (PC (reg s) - 1) in
  let s := push s (Z.land (Z.shiftr (PC (reg s)) 8) 0xFF) in
  let s := push s (Z.land (PC (reg s)) 0xFF) in
  set_PC s (address (ope s)).

Definition RTS (s : machine) : machine :=
  let '(lo, s) := pull s in
  let '(hi, s) := pull s in
  set_PC s (Z.lor lo (Z.shiftl hi 8) + 1).

Definition RTI (s : machine) : machine :=
  let '(v, s) := pull s in
  let s := set_SR s v in
  let '(lo, s) := pull s in
  let '(hi, s) := pull s in
  set_PC s (Z.lor lo (Z.shiftl hi 8)).

Definition CMP (s : machine) : machine :=
  let s := setSZ s (A (reg s) - value (ope s)) in
  SR_assign s CARRY (A (reg s) >=? value (ope s)).
Definition CPX (s : machine) : machine :=
  let s := setSZ s (X (reg s) - value (ope s)) in
  SR_assign s CARRY (X (reg s) >=? value (ope s)).
Definition CPY (s : machine) : machine :=
  let s := setSZ s (Y (reg s) - value (ope s)) in
  SR_assign s CARRY (Y (reg s) >=? value (ope s)).

Definition AND (s : machine) : machine :=
  let s := set_A s (Z.land (A (reg s)) (value (ope s))) in setSZ s (A (reg s)).
Definition ORA (s : machine) : machine :=
  let s := set_A s (Z.lor (A (reg s)) (value (ope s))) in setSZ s (A (reg s)).
Definition EOR (s : machine) : machine :=
  let s := set_A s (Z.lxor (A (reg s)) (value (ope s))) in setSZ s (A (reg s)).

Definition BIT (s : machine) : machine :=
  let s := if nonzero (Z.land (A (reg s)) (value (ope s)))
           then SR_andnot s ZERO else SR_or s ZERO in
  set_SR s (Z.lor (Z.land (SR (reg s)) 0x3F) (Z.land (value (ope s)) 0xC0)).

Definition makeUpdates (s : machine) (val : Z) : machine :=
  let val := u8 val in
  let s := if setAcc (ope s)
           then set_setAcc (set_A s val) false
           else writeMem s (address (ope s)) val in
  setSZ s val.

Definition ASL (s : machine) : machine :=
  let result := u16 (Z.shiftl (value (ope s)) 1) in
  let s := SR_assign s CARRY (nonzero (Z.land result 0xFF00)) in
  makeUpdates s (Z.land result 0xFF).

Definition LSR (s : machine) : machine :=
  let s := SR_assign s CARRY (nonzero (Z.land (value (ope s)) 1)) in
  makeUpdates s (Z.land (Z.shiftr (value (ope s)) 1) 0xFF).

Definition ROL (s : machine) : machine :=
  let result := u16 (Z.lor (Z.shiftl (value (ope s)) 1)
                           (Z.land (SR (reg s)) CARRY)) in
  let s := SR_assign s CARRY (nonzero (Z.land result 0x100)) in
  makeUpdates s (Z.land result 0xFF).

Definition ROR (s : machine) : machine :=
  let result := u16 (Z.lor (Z.shiftr (value (ope s)) 1)
                           (Z.shiftl (Z.land (SR (reg s)) CARRY) 7)) in
  let s := SR_assign s CARRY (nonzero (Z.land (value (ope s)) 0x1)) in
  makeUpdates s (Z.land result 0xFF).

Definition ADC (s : machine) : machine :=
  let result := u16 (A (reg s) + value (ope s) + Z.land (SR (reg s)) CARRY) in
  let s := setSZ s result in
  let s := SR_assign s OVERFLOW
             (nonzero (Z.land (Z.land (Z.lxor result (A (reg s)))
                                      (Z.lxor result (value (ope s)))) 0x0080)) in
  let result :=
    if nonzero (Z.land (SR (reg s)) DECIMAL)
    then u16 (result +
              Z.land (Z.shiftr (Z.lxor (Z.lxor (result + 0x66) (A (reg s)))
                                       (value (ope s))) 3) 0x22 * 3)
    else result in
  let s := SR_assign s CARRY (nonzero (Z.land result 0xFF00)) in
  set_A s (Z.land result 0xFF).

Definition SBC (s : machine) : machine :=
  let s := set_value s (Z.lxor (value (ope s)) 0xFF) in
  let s := if nonzero (Z.land (SR (reg s)) DECIMAL)
           then set_value s (value (ope s) - 0x0066) else s in
  let result := u16 (A (reg s) + value (ope s) + Z.land (SR (reg s)) CARRY) in
  let s := setSZ s result in
  let s := SR_assign s OVERFLOW
             (nonzero (Z.land (Z.land (Z.lxor result (A (reg s)))
                                      (Z.lxor result (value (ope s)))) 0x0080)) in
  let result :=
    if nonzero (Z.land (SR (reg s)) DECIMAL)
    then u16 (result +
              Z.land (Z.shiftr (Z.lxor (Z.lxor (result + 0x66) (A (reg s)))
                                       (value (ope s))) 3) 0x22 * 3)
    else result in
  let s := SR_assign s CARRY (nonzero (Z.land result 0xFF00)) in
  set_A s (Z.land result 0xFF).

Definition UND (s : machine) : machine := s.

(** ** Jump tables

    The C tables hold function pointers; here they hold the names of the
    routines, and [resolve] and [execute] call the routine a name stands
    for. *)

Inductive Mode : Type :=
  | m_IMP | m_ACC | m_IMM | m_ZPG | m_ZPX | m_ZPY | m_REL | m_ABS | m_ABX | m_ABY | m_IND | m_IDX | m_IDY.

Inductive Instr : Type :=
  | i_NOP | i_BRK | i_CLD | i_SED | i_CLC | i_SEC | i_CLI | i_SEI
  | i_CLV | i_LDA | i_LDX | i_LDY | i_STA | i_STX | i_STY | i_DEC
  | i_DEX | i_DEY | i_INC | i_INX | i_INY | i_TAX | i_TAY | i_TXA
  | i_TYA | i_TSX | i_TXS | i_BEQ | i_BNE | i_BMI | i_BPL | i_BVS
  | i_BVC | i_BCS | i_BCC | i_PHA | i_PLA | i_PHP | i_PLP | i_JMP
  | i_JSR | i_RTS | i_RTI | i_CMP | i_CPX | i_CPY | i_AND | i_ORA
  | i_EOR | i_BIT | i_ASL | i_LSR | i_ROL | i_ROR | i_ADC | i_SBC
  | i_UND.

Definition resolve (m : Mode) : machine -> machine :=
  match m with
  | m_IMP => IMP | m_ACC => ACC | m_IMM => IMM | m_ZPG => ZPG
  | m_ZPX => ZPX | m_ZPY => ZPY | m_REL => REL | m_ABS => ABS
  | m_ABX => ABX | m_ABY => ABY | m_IND => IND | m_IDX => IDX
  | m_IDY => IDY
  end.

Definition execute (i : Instr) : machine -> machine :=
  match i with
  | i_NOP => NOP | i_BRK => BRK | i_CLD => CLD | i_SED => SED
  | i_CLC => CLC | i_SEC => SEC | i_CLI => CLI | i_SEI => SEI
  | i_CLV => CLV | i_LDA => LDA | i_LDX => LDX | i_LDY => LDY
  | i_STA => STA | i_STX => STX | i_STY => STY | i_DEC => DEC
  | i_DEX => DEX | i_DEY => DEY | i_INC => INC | i_INX => INX
  | i_INY => INY | i_TAX => TAX | i_TAY => TAY | i_TXA => TXA
  | i_TYA => TYA | i_TSX => TSX | i_TXS => TXS | i_BEQ => BEQ
  | i_BNE => BNE | i_BMI => BMI | i_BPL => BPL | i_BVS => BVS
  | i_BVC => BVC | i_BCS => BCS | i_BCC => BCC | i_PHA => PHA
  | i_PLA => PLA | i_PHP => PHP | i_PLP => PLP | i_JMP => JMP
  | i_JSR => JSR | i_RTS => RTS | i_RTI => RTI | i_CMP => CMP
  | i_CPX => CPX | i_CPY => CPY | i_AND => AND | i_ORA => ORA
  | i_EOR => EOR | i_BIT => BIT | i_ASL => ASL | i_LSR => LSR
  | i_ROL => ROL | i_ROR => ROR | i_ADC => ADC | i_SBC => SBC
  | i_UND => UND
  end.

Definition instruction : list Instr := [
 i_BRK; i_ORA; i_UND; i_UND; i_UND; i_ORA; i_ASL; i_UND; i_PHP; i_ORA; i_ASL; i_UND; i_UND; i_ORA; i_ASL; i_UND;
 i_BPL; i_ORA; i_UND; i_UND; i_UND; i_ORA; i_ASL; i_UND; i_CLC; i_ORA; i_UND; i_UND; i_UND; i_ORA; i_ASL; i_UND;
 i_JSR; i_AND; i_UND; i_UND; i_BIT; i_AND; i_ROL; i_UND; i_PLP; i_AND; i_ROL; i_UND; i_BIT; i_AND; i_ROL; i_UND;
 i_BMI; i_AND; i_UND; i_UND; i_UND; i_AND; i_ROL; i_UND; i_SEC; i_AND; i_UND; i_UND; i_UND; i_AND; i_ROL; i_UND;
 i_RTI; i_EOR; i_UND; i_UND; i_UND; i_EOR; i_LSR; i_UND; i_PHA; i_EOR; i_LSR; i_UND; i_JMP; i_EOR; i_LSR; i_UND;
 i_BVC; i_EOR; i_UND; i_UND; i_UND; i_EOR; i_LSR; i_UND; i_CLI; i_EOR; i_UND; i_UND; i_UND; i_EOR; i_LSR; i_UND;
 i_RTS; i_ADC; i_UND; i_UND; i_UND; i_ADC; i_ROR; i_UND; i_PLA; i_ADC; i_ROR; i_UND; i_JMP; i_ADC; i_ROR; i_UND;
 i_BVS; i_ADC; i_UND; i_UND; i_UND; i_ADC; i_ROR; i_UND; i_SEI; i_ADC; i_UND; i_UND; i_UND; i_ADC; i_ROR; i_UND;
 i_UND; i_STA; i_UND; i_UND; i_STY; i_STA; i_STX; i_UND; i_DEY; i_UND; i_TXA; i_UND; i_STY; i_STA; i_STX; i_UND;
 i_BCC; i_STA; i_UND; i_UND; i_STY; i_STA; i_STX; i_UND; i_TYA; i_STA; i_TXS; i_UND; i_UND; i_STA; i_UND; i_UND;
 i_LDY; i_LDA; i_LDX; i_UND; i_LDY; i_LDA; i_LDX; i_UND; i_TAY; i_LDA; i_TAX; i_UND; i_LDY; i_LDA; i_LDX; i_UND;
 i_BCS; i_LDA; i_UND; i_UND; i_LDY; i_LDA; i_LDX; i_UND; i_CLV; i_LDA; i_TSX; i_UND; i_LDY; i_LDA; i_LDX; i_UND;
 i_CPY; i_CMP; i_UND; i_UND; i_CPY; i_CMP; i_DEC; i_UND; i_INY; i_CMP; i_DEX; i_UND; i_CPY; i_CMP; i_DEC; i_UND;
 i_BNE; i_CMP; i_UND; i_UND; i_UND; i_CMP; i_DEC; i_UND; i_CLD; i_CMP; i_UND; i_UND; i_UND; i_CMP; i_DEC; i_UND;
 i_CPX; i_SBC; i_UND; i_UND; i_CPX; i_SBC; i_INC; i_UND; i_INX; i_SBC; i_NOP; i_UND; i_CPX; i_SBC; i_INC; i_UND;
 i_BEQ; i_SBC; i_UND; i_UND; i_UND; i_SBC; i_INC; i_UND; i_SED; i_SBC; i_UND; i_UND; i_UND; i_SBC; i_INC; i_UND
].

Definition addressing : list Mode := [
 m_IMP; m_IDX; m_IMP; m_IMP; m_IMP; m_ZPG; m_ZPG; m_IMP; m_IMP; m_IMM; m_ACC; m_IMP; m_IMP; m_ABS; m_ABS; m_IMP;
 m_REL; m_IDY; m_IMP; m_IMP; m_IMP; m_ZPX; m_ZPX; m_IMP; m_IMP; m_ABY; m_IMP; m_IMP; m_IMP; m_ABX; m_ABX; m_IMP;
 m_ABS; m_IDX; m_IMP; m_IMP; m_ZPG; m_ZPG; m_ZPG; m_IMP; m_IMP; m_IMM; m_ACC; m_IMP; m_ABS; m_ABS; m_ABS; m_IMP;
 m_REL; m_IDY; m_IMP; m_IMP; m_IMP; m_ZPX; m_ZPX; m_IMP; m_IMP; m_ABY; m_IMP; m_IMP; m_IMP; m_ABX; m_ABX; m_IMP;
 m_IMP; m_IDX; m_IMP; m_IMP; m_IMP; m_ZPG; m_ZPG; m_IMP; m_IMP; m_IMM; m_ACC; m_IMP; m_ABS; m_ABS; m_ABS; m_IMP;
 m_REL; m_IDY; m_IMP; m_IMP; m_IMP; m_ZPX; m_ZPX; m_IMP; m_IMP; m_ABY; m_IMP; m_IMP; m_IMP; m_ABX; m_ABX; m_IMP;
 m_IMP; m_IDX; m_IMP; m_IMP; m_IMP; m_ZPG; m_ZPG; m_IMP; m_IMP; m_IMM; m_ACC; m_IMP; m_IND; m_ABS; m_ABS; m_IMP;
 m_REL; m_IDY; m_IMP; m_IMP; m_IMP; m_ZPX; m_ZPX; m_IMP; m_IMP; m_ABY; m_IMP; m_IMP; m_IMP; m_ABX; m_ABX; m_IMP;
 m_IMP; m_IDX; m_IMP; m_IMP; m_ZPG; m_ZPG; m_ZPG; m_IMP; m_IMP; m_IMP; m_IMP; m_IMP; m_ABS; m_ABS; m_ABS; m_IMP;
 m_REL; m_IDY; m_IMP; m_IMP; m_ZPX; m_ZPX; m_ZPY; m_IMP; m_IMP; m_ABY; m_IMP; m_IMP; m_IMP; m_ABX; m_IMP; m_IMP;
 m_IMM; m_IDX; m_IMM; m_IMP; m_ZPG; m_ZPG; m_ZPG; m_IMP; m_IMP; m_IMM; m_IMP; m_IMP; m_ABS; m_ABS; m_ABS; m_IMP;
 m_REL; m_IDY; m_IMP; m_IMP; m_ZPX; m_ZPX; m_ZPY; m_IMP; m_IMP; m_ABY; m_IMP; m_IMP; m_ABX; m_ABX; m_ABY; m_IMP;
 m_IMM; m_IDX; m_IMP; m_IMP; m_ZPG; m_ZPG; m_ZPG; m_IMP; m_IMP; m_IMM; m_IMP; m_IMP; m_ABS; m_ABS; m_ABS; m_IMP;
 m_REL; m_IDY; m_IMP; m_IMP; m_IMP; m_ZPX; m_ZPX; m_IMP; m_IMP; m_ABY; m_IMP; m_IMP; m_IMP; m_ABX; m_ABX; m_IMP;
 m_IMM; m_IDX; m_IMP; m_IMP; m_ZPG; m_ZPG; m_ZPG; m_IMP; m_IMP; m_IMM; m_IMP; m_IMP; m_ABS; m_ABS; m_ABS; m_IMP;
 m_REL; m_IDY; m_IMP; m_IMP; m_IMP; m_ZPX; m_ZPX; m_IMP; m_IMP; m_ABY; m_IMP; m_IMP; m_IMP; m_ABX; m_ABX; m_IMP
].

(** ** The interpreter loop of [main]

    One turn of the inner [for] loop: fetch, decode, execute.  [opcode] is a
    [uint8_t], so both table lookups are in range. *)

Definition step (s : machine) : machine :=
  let pc := PC (reg s) in
  let s := set_PC s (pc + 1) in
  let '(b, s) := readMem s pc in
  let opcode := u8 b in
  let s := resolve (nth (Z.to_nat opcode) addressing m_IMP) s in
  execute (nth (Z.to_nat opcode) instruction i_UND) s.

(** The end of the keyboard controller of [main], from the [switch] on: the
    translations, then bit 7.  It is reached when [getch()] returned neither
    [ERR] nor [KEY_F(12)]; the tests that come before it are in
    [controller], further down. *)

Definition keyboard (s : machine) (ch : Z) : machine :=
  let s := set_key s (u8 ch) in
  let s := if key s =? 0x0A then set_key s 0x0D
           else if key s =? 0x04 then set_key s 0x08
           else if key s =? 0x05 then set_key s 0x15
           else if key s =? 0x07 then set_key s 0x08
           else s in
  let s := if (key s >? 0x60) && (key s <? 0x7B)
           then set_key s (u8 (Z.land (key s) 0xDF)) else s in
  set_key s (u8 (Z.lor (key s) 0x80)).

(** The end of the video controller of [main]. *)
Definition refreshed (s : machine) : machine := set_videoNeedsRefresh s false.

(** * Specification *)

(** ** Well-formed machines

    What the C types and array declarations guarantee of every state the
    program can be in: the sizes of the two arrays and the ranges of the
    integer objects. *)

Definition byteb (x : Z) : bool := (0 <=? x) && (x <? 256).
Definition wordb (x : Z) : bool := (0 <=? x) && (x <? 65536).

Definition wfb (s : machine) : bool :=
  (Z.of_nat (length (rom s)) =? ROMSIZE) && (Z.of_nat (length (ram s)) =? RAMSIZE)
  && forallb byteb (rom s) && forallb byteb (ram s)
  && wordb (value (ope s)) && wordb (address (ope s))
  && byteb (A (reg s)) && byteb (X (reg s)) && byteb (Y (reg s))
  && byteb (SR (reg s)) && byteb (SP (reg s)) && wordb (PC (reg s))
  && byteb (key s).

Definition wf (s : machine) : Prop := wfb s = true.

(** ** Observations *)

(** A status flag, as the branch instructions test it. *)
Definition flag (m : Z) (s : machine) : bool := nonzero (Z.land (SR (reg s)) m).

(** The byte a read of the bus returns. *)
Definition peek (s : machine) (a : Z) : Z := fst (readMem s a).

(** The machine a read of the bus leaves behind: the keyboard strobe is
    cleared by a read of [0xC010], and nothing else changes. *)
Definition strobe (s : machine) (a : Z) : machine :=
  if u16 a =? 0xC010 then set_key s (u8 (Z.land (key s) 0x7F)) else s.

(** ** The documented instruction set

    The 151 opcodes of the documented MOS 6502 instruction set, mnemonic by
    mnemonic.  The list is written from the processor's programming manual
    and not from the tables above, which are compared with it below. *)
Definition documented : list Z := [
  (* ADC *) 0x69; 0x65; 0x75; 0x6D; 0x7D; 0x79; 0x61; 0x71;
  (* AND *) 0x29; 0x25; 0x35; 0x2D; 0x3D; 0x39; 0x21; 0x31;
  (* ASL *) 0x0A; 0x06; 0x16; 0x0E; 0x1E;
  (* BCC BCS BEQ *) 0x90; 0xB0; 0xF0;
  (* BIT *) 0x24; 0x2C;
  (* BMI BNE BPL BRK BVC BVS *) 0x30; 0xD0; 0x10; 0x00; 0x50; 0x70;
  (* CLC CLD CLI CLV *) 0x18; 0xD8; 0x58; 0xB8;
  (* CMP *) 0xC9; 0xC5; 0xD5; 0xCD; 0xDD; 0xD9; 0xC1; 0xD1;
  (* CPX *) 0xE0; 0xE4; 0xEC;
  (* CPY *) 0xC0; 0xC4; 0xCC;
  (* DEC *) 0xC6; 0xD6; 0xCE; 0xDE;
  (* DEX DEY *) 0xCA; 0x88;
  (* EOR *) 0x49; 0x45; 0x55; 0x4D; 0x5D; 0x59; 0x41; 0x51;
  (* INC *) 0xE6; 0xF6; 0xEE; 0xFE;
  (* INX INY *) 0xE8; 0xC8;
  (* JMP JSR *) 0x4C; 0x6C; 0x20;
  (* LDA *) 0xA9; 0xA5; 0xB5; 0xAD; 0xBD; 0xB9; 0xA1; 0xB1;
  (* LDX *) 0xA2; 0xA6; 0xB6; 0xAE; 0xBE;
  (* LDY *) 0xA0; 0xA4; 0xB4; 0xAC; 0xBC;
  (* LSR *) 0x4A; 0x46; 0x56; 0x4E; 0x5E;
  (* NOP *) 0xEA;
  (* ORA *) 0x09; 0x05; 0x15; 0x0D; 0x1D; 0x19; 0x01; 0x11;
  (* PHA PHP PLA PLP *) 0x48; 0x08; 0x68; 0x28;
  (* ROL *) 0x2A; 0x26; 0x36; 0x2E; 0x3E;
  (* ROR *) 0x6A; 0x66; 0x76; 0x6E; 0x7E;
  (* RTI RTS *) 0x40; 0x60;
  (* SBC *) 0xE9; 0xE5; 0xF5; 0xED; 0xFD; 0xF9; 0xE1; 0xF1;
  (* SEC SED SEI *) 0x38; 0xF8; 0x78;
  (* STA *) 0x85; 0x95; 0x8D; 0x9D; 0x99; 0x81; 0x91;
  (* STX *) 0x86; 0x96; 0x8E;
  (* STY *) 0x84; 0x94; 0x8C;
  (* TAX TAY TSX TXA TXS TYA *) 0xAA; 0xA8; 0xBA; 0x8A; 0x9A; 0x98
].

Definition is_documented (op : Z) : bool := existsb (Z.eqb op) documented.

(** Tests on the entries of the two tables. *)
Definition is_IMP (m : Mode) : bool :=
  match m with m_IMP => true | _ => false end.
Definition is_UND (i : Instr) : bool :=
  match i with i_UND => true | _ => false end.
Definition is_ACC (m : Mode) : bool :=
  match m with m_ACC => true | _ => false end.

(** The shift and rotate instructions. *)
Definition is_shift (i : Instr) : bool :=
  match i with i_ASL | i_LSR | i_ROL | i_ROR => true | _ => false end.

(** The opcodes of the shifts and rotates with a memory operand. *)
Definition memory_shifts : list Z := [
  (* ASL *) 0x06; 0x16; 0x0E; 0x1E;
  (* ROL *) 0x26; 0x36; 0x2E; 0x3E;
  (* LSR *) 0x46; 0x56; 0x4E; 0x5E;
  (* ROR *) 0x66; 0x76; 0x6E; 0x7E
].

(** ** Machines reachable from a reset

    The machines at which a turn of the interpreter loop can start: [main]
    resets the processor (at start-up and on F7, from whatever machine it is
    in), and from then on runs the interpreter, the keyboard controller and
    the video controller. *)
Inductive reachable : machine -> Prop :=
  | reach_reset (s : machine) : reachable (reset s)
  | reach_step (s : machine) : reachable s -> reachable (step s)
  | reach_keyboard (s : machine) (ch : Z) : reachable s -> reachable (keyboard s ch)
  | reach_refreshed (s : machine) : reachable s -> reachable (refreshed s).

(** ** Statements refuted below *)

(** The reading of the keyboard data port under which a read of [0xC000]
    also clears bit 7 of the latch once the byte has been returned. *)
Definition C000_read_clears_bit7 (s : machine) : Prop :=
  let '(b, s1) := readMem s 0xC000 in
  b = key s /\
  key s1 = Z.land (key s) 0x7F /\
  fst (readMem s1 0xC000) = Z.land (key s) 0x7F.

(** The step from [s] moves PC one byte on and leaves the registers, the
    arrays, the latch and the video-dirty flag alone. *)
Definition step_only_advances_PC (s : machine) : Prop :=
  PC (reg (step s)) = u16 (PC (reg s) + 1) /\
  A (reg (step s)) = A (reg s) /\ X (reg (step s)) = X (reg s) /\
  Y (reg (step s)) = Y (reg s) /\ SP (reg (step s)) = SP (reg s) /\
  SR (reg (step s)) = SR (reg s) /\
  ram (step s) = ram s /\ rom (step s) = rom s /\
  key (step s) = key s /\
  videoNeedsRefresh (step s) = videoNeedsRefresh s.

(** ** Example machines *)

(** The machine as the C runtime sets it up: zeroed arrays and registers,
    [videoNeedsRefresh] initialised to [true]. *)
Definition power_on : machine :=
  mkMachine (replicate (Z.to_nat ROMSIZE) 0) (replicate (Z.to_nat RAMSIZE) 0)
            (mkOperand false 0 0) (mkRegister 0 0 0 0 0 0) 0 true.

(** [ram[a] = b], for setting up an example. *)
Definition poke (s : machine) (a b : Z) : machine :=
  set_ram s (<[Z.to_nat a := b]> (ram s)).

(** The two [ADC] scenarios: [A = 0x50], operand [0x50], binary mode; and
    [A = 0x15], operand [0x27], decimal mode.  Carry is clear in both. *)
Definition adc_binary : machine := set_value (set_A power_on 0x50) 0x50.
Definition adc_decimal : machine := SED (set_value (set_A power_on 0x15) 0x27).

(** A machine just reset, with an [RTI] opcode ([0x40]) or a [PLP] opcode
    ([0x28]) at the reset target.  The ROM is zeroed, so the reset vector is
    [0x0000]; the stack page holds zeroes. *)
Definition at_RTI : machine := reset (poke power_on 0 0x40).
Definition at_PLP : machine := reset (poke power_on 0 0x28).

(** A key press delivered by the host: the latch holds [0xC1]. *)
Definition key_pressed : machine := set_key power_on 0xC1.

(** The latch holds [0xC1]; at [0x0300] the program
    [LDA $C000; LDA $C010; LDA $C000]. *)
Definition kbd_state : machine :=
  let s := poke key_pressed 0x0300 0xAD in
  let s := poke s 0x0301 0x00 in
  let s := poke s 0x0302 0xC0 in
  let s := poke s 0x0303 0xAD in
  let s := poke s 0x0304 0x10 in
  let s := poke s 0x0305 0xC0 in
  let s := poke s 0x0306 0xAD in
  let s := poke s 0x0307 0x00 in
  let s := poke s 0x0308 0xC0 in
  set_PC s 0x0300.

(** [JMP ($30FF)] at [0x0200], with [0x80] at [0x30FF], [0x50] at [0x3000] and,
    on the next page, [0x40] at [0x3100]. *)
Definition jmp_state : machine :=
  let s := poke power_on 0x0200 0x6C in
  let s := poke s 0x0201 0xFF in
  let s := poke s 0x0202 0x30 in
  let s := poke s 0x30FF 0x80 in
  let s := poke s 0x3000 0x50 in
  let s := poke s 0x3100 0x40 in
  set_PC s 0x0200.

(** A ROM image whose interrupt vector at [0xFFFE/0xFFFF] is [0xFA62], and a
    machine about to execute the body of [BRK] with [PC = 0x12FF] (the
    opcode already fetched), [SP = 0x01] and [SR = 0x20]. *)
Definition with_vector (s : machine) (a lo hi : Z) : machine :=
  set_rom s (<[Z.to_nat (a + 1 - ROMSTART) := hi]>
             (<[Z.to_nat (a - ROMSTART) := lo]> (rom s))).

Definition brk_state : machine :=
  set_SR (set_SP (set_PC (with_vector power_on 0xFFFE 0x62 0xFA) 0x12FF) 0x01) 0x20.

(** [JSR $0310] at [0x0300] and an [RTS] at [0x0310], with [SP = 0x00] so that
    the two pushes wrap around the stack page. *)
Definition jsr_state : machine :=
  let s := poke power_on 0x0300 0x20 in
  let s := poke s 0x0301 0x10 in
  let s := poke s 0x0302 0x03 in
  let s := poke s 0x0310 0x60 in
  set_SP (set_PC s 0x0300) 0x00.

(** PC points at [0x0300], where the undocumented opcode [0x02] lies. *)
Definition at_undocumented : machine :=
  set_PC (poke power_on 0x0300 0x02) 0x0300.

(** PC points at the keyboard strobe port while the latch holds [0x82], so
    that the opcode fetched is [0x02]. *)
Definition at_strobe : machine := set_PC (set_key power_on 0x82) 0xC010.

(** [ASL A] ([0x0A]) at the reset target, then [ASL $10] ([0x06 0x10]); the
    accumulator holds [0x81] and the machine has been reset. *)
Definition asl_state : machine :=
  let s := poke power_on 0x0000 0x0A in
  let s := poke s 0x0001 0x06 in
  let s := poke s 0x0002 0x10 in
  reset (set_A s 0x81).

(** ** Auxiliary definitions for the proofs *)

(** The eight flag masks. *)
Definition masks : list Z :=
  [CARRY; ZERO; INTERRUPT; DECIMAL; BREAK; UNDEFINED; OVERFLOW; SIGN].

Definition is_mask (m : Z) : bool := existsb (Z.eqb m) masks.

(** The value that [SR_assign] computes before it is stored. *)
Definition sr_upd (sr m : Z) (c : bool) : Z :=
  if c then Z.lor sr m else Z.land sr (Z.lnot m).

(** The bytes, for checking a property of a byte on all of them. *)
Definition all_bytes : list Z := map Z.of_nat (seq 0 256).


(** * The rest of [main]

    The parts of [main] around the interpreter: loading the ROM image, the
    batch of one hundred instructions, and the video controller.  The
    terminal is driven through ncurses; the calls made are collected, in
    order, in a list. *)

(** [fread(rom, sizeof(uint8_t), ROMSIZE, f)] on an open file holding
    [file]: at most [ROMSIZE] bytes are copied to the start of [rom], and
    the bytes behind them stay as they are. *)
Definition load_rom (s : machine) (file : list Z) : machine :=
  let image := take (Z.to_nat ROMSIZE) file in
  set_rom s (image ++ drop (length image) (rom s)).

(** [for (int i=0; i<100; i++)] around the fetch, decode and execute. *)
Definition batch (s : machine) : machine := Nat.iter 100 step s.

(** The three attributes and the three ncurses calls the video controller
    makes. *)
Inductive Attr : Type := A_REVERSE | A_NORMAL | A_BLINK.

Inductive Curses : Type :=
  | move (y x : Z)
  | attrset (a : Attr)
  | addch (c : Z).

Definition offsetsForRows : list Z := [
  0x400; 0x480; 0x500; 0x580; 0x600; 0x680; 0x700; 0x780;
  0x428; 0x4A8; 0x528; 0x5A8; 0x628; 0x6A8; 0x728; 0x7A8;
  0x450; 0x4D0; 0x550; 0x5D0; 0x650; 0x6D0; 0x750; 0x7D0
].

(** The body of the inner loop of the video controller, from the test for
    the cursor glyph (a backquote, [0x60], shown as an underscore, [0x5F]) to
    [addch(glyph)]; [glyph] is a [uint8_t]. *)
Definition draw_glyph (glyph : Z) : list Curses :=
  let glyph := u8 glyph in
  let glyph := if glyph =? 0x60 then 0x5F else glyph in
  let a := if glyph <? 0x40 then A_REVERSE
           else if glyph >? 0x7F then A_NORMAL
           else A_BLINK in
  let glyph := u8 (Z.land glyph 0x7F) in
  let glyph := if glyph >? 0x5F then u8 (Z.land glyph 0x3F) else glyph in
  let glyph := if glyph <? 0x20 then u8 (Z.lor glyph 0x40) else glyph in
  [attrset a; addch glyph].

(** One row: forty glyphs read from [ram], then a line feed. *)
Definition draw_row (s : machine) (row : nat) : list Curses :=
  flat_map (fun col : nat =>
              draw_glyph (ram s !!! Z.to_nat (nth row offsetsForRows 0 + Z.of_nat col)))
           (seq 0 40)
  ++ [addch 0x0A].

(** The calls of one refresh. *)
Definition draw (s : machine) : list Curses :=
  move 0 0 :: flat_map (draw_row s) (seq 0 24).

(** The video controller: nothing when the flag is clear; otherwise the
    refresh, after which the flag is clear. *)
Definition video (s : machine) : list Curses * machine :=
  if videoNeedsRefresh s
  then (draw s, set_videoNeedsRefresh s false)
  else ([], s).

(** * Specification, continued *)

(** A byte read as a two's complement number. *)
Definition signed8 (x : Z) : Z := if x <? 0x80 then x else x - 0x100.

(** Packed binary-coded decimal: two digits to a byte. *)
Definition bcd_valid (x : Z) : bool := (Z.land x 0x0F <? 10) && (Z.shiftr x 4 <? 10).
Definition bcd_value (x : Z) : Z := Z.shiftr x 4 * 10 + Z.land x 0x0F.
Definition bcd_encode (n : Z) : Z := Z.lor (Z.shiftl (n / 10) 4) (n mod 10).

(** The number of operand bytes of an addressing mode. *)
Definition operand_bytes (m : Mode) : Z :=
  match m with
  | m_IMP | m_ACC => 0
  | m_IMM | m_ZPG | m_ZPX | m_ZPY | m_REL | m_IDX | m_IDY => 1
  | m_ABS | m_ABX | m_ABY | m_IND => 2
  end.

(** An address of the text page window, as [writeMem] tests it. *)
Definition dirties (a : Z) : bool := nonzero (Z.land a 0x400).

(** The addresses the video controller reads, row by row. *)
Definition cells : list Z :=
  flat_map (fun row : nat =>
              map (fun col : nat => nth row offsetsForRows 0 + Z.of_nat col) (seq 0 40))
           (seq 0 24).

(** [t] can be reached from [s] without a refresh becoming due: if the
    video-dirty flag is clear in [t], it was clear in [s] and the bytes of
    [ram] at the addresses that raise it are the same in both. *)
Definition quiet (s t : machine) : Prop :=
  videoNeedsRefresh t = false ->
  videoNeedsRefresh s = false /\
  forall a, 0 <= a < 65536 -> dirties a = true ->
            ram t !!! Z.to_nat a = ram s !!! Z.to_nat a.

(** One turn of the [while(1)] loop of [main], on the value [ch] that
    [getch()] returns: the batch, the keyboard controller, the video
    controller.  The ncurses constants [ERR], [KEY_F(7)] and [KEY_F(12)] are
    parameters.  The result is [None] when [main] returns (F12), and otherwise
    the calls made to the terminal and the machine at the end of the turn. *)
Definition turn (ERR KEY_F7 KEY_F12 : Z) (s : machine) (ch : Z)
  : option (list Curses * machine) :=
  let s := batch s in
  if ch =? ERR then Some (video s)
  else
    let s := if ch =? KEY_F7 then reset s else s in
    if ch =? KEY_F12 then None
    else Some (video (keyboard s ch)).

(** What the terminal shows after the calls [out] of a turn, when it showed
    [shown] before: a refresh replaces it, no call leaves it. *)
Definition show (shown out : list Curses) : list Curses :=
  match out with [] => shown | _ => out end.

(** A machine in the middle of a program, for the examples below: the
    program of [kbd_state] and a stack pointer of [0xFF]. *)
Definition running : machine := set_SP kbd_state 0xFF.

(** [t] differs from [s], as far as the bus outside [ram] goes, at most by
    a cleared keyboard strobe: same ROM, same size of [ram], and a latch
    that is the one of [s] or the one of [s] without its bit 7. *)
Definition bus_kept (s t : machine) : Prop :=
  rom t = rom s /\
  length (ram t) = length (ram s) /\
  (key t = key s \/ key t = u8 (Z.land (key s) 0x7F)).

(** No element of the list occurs twice. *)
Fixpoint distinct (l : list Z) : bool :=
  match l with
  | [] => true
  | x :: l => negb (existsb (Z.eqb x) l) && distinct l
  end.

(** The instructions that assign to PC. *)
Definition is_jump (i : Instr) : bool :=
  match i with
  | i_BRK | i_JMP | i_JSR | i_RTS | i_RTI
  | i_BEQ | i_BNE | i_BMI | i_BPL | i_BVS | i_BVC | i_BCS | i_BCC => true
  | _ => false
  end.

(** The addressing modes that resolve to a byte of the bus. *)
Definition reads_operand (m : Mode) : bool :=
  match m with m_IMP | m_ACC | m_REL => false | _ => true end.

(** The eight conditional branches, as the processor encodes them: bits 7
    and 6 of the opcode select the flag, bit 5 the value of the flag on
    which the branch is taken. *)
Definition branches : list Z := [0x10; 0x30; 0x50; 0x70; 0x90; 0xB0; 0xD0; 0xF0].

Definition branch_flag (op : Z) : Z :=
  nth (Z.to_nat (Z.shiftr op 6)) [SIGN; OVERFLOW; CARRY; ZERO] 0.

Definition branch_taken (op : Z) (s : machine) : bool :=
  eqb (flag (branch_flag op) s) (Z.testbit op 5).

(** A byte of page zero. *)
Definition zero_page (s : machine) (i : Z) : Z := ram s !!! Z.to_nat (i mod 256).

(** Operand byte [0xFF] at PC, [X = 1], [Y = 2], and the pointer bytes
    [0x12] at [0x00FF] and [0x34] at [0x0000]. *)
Definition zp_state : machine :=
  let s := poke power_on 0x0300 0xFF in
  let s := poke s 0x00FF 0x12 in
  let s := poke s 0x0000 0x34 in
  set_Y (set_X (set_PC s 0x0300) 1) 2.

(** [BNE] with offset [0x80] at [0x0300], the Z flag being clear. *)
Definition bne_state : machine :=
  let s := poke power_on 0x0300 0xD0 in
  let s := poke s 0x0301 0x80 in
  set_PC s 0x0300.

(** The carry flag as a number, and the borrow it stands for in a
    subtraction. *)
Definition carry (s : machine) : Z := if flag CARRY s then 1 else 0.
Definition borrow (s : machine) : Z := 1 - carry s.

(** A signed result that fits in a byte. *)
Definition signed_fits (x : Z) : bool := (-128 <=? x) && (x <=? 127).

(** The register an instruction compares with its operand. *)
Definition compared (i : Instr) : option (Register -> Z) :=
  match i with
  | i_CMP => Some A
  | i_CPX => Some X
  | i_CPY => Some Y
  | _ => None
  end.

(** The register an instruction leaves its result in, for the instructions
    that end with [setSZ] of a register. *)
Definition result_reg (i : Instr) : option (Register -> Z) :=
  match i with
  | i_LDA | i_TXA | i_TYA | i_PLA | i_AND | i_ORA | i_EOR => Some A
  | i_LDX | i_TAX | i_TSX | i_INX | i_DEX => Some X
  | i_LDY | i_TAY | i_INY | i_DEY => Some Y
  | _ => None
  end.

(** The flag an instruction assigns and the value it gives it, for the
    instructions that do nothing else. *)
Definition flag_set (i : Instr) : option (Z * bool) :=
  match i with
  | i_CLC => Some (CARRY, false)
  | i_SEC => Some (CARRY, true)
  | i_CLI => Some (INTERRUPT, false)
  | i_SEI => Some (INTERRUPT, true)
  | i_CLD => Some (DECIMAL, false)
  | i_SED => Some (DECIMAL, true)
  | i_CLV => Some (OVERFLOW, false)
  | _ => None
  end.

(** Two machines that differ at most in the status register. *)
Definition same_but_SR (s t : machine) : Prop :=
  A (reg t) = A (reg s) /\ X (reg t) = X (reg s) /\ Y (reg t) = Y (reg s) /\
  SP (reg t) = SP (reg s) /\ PC (reg t) = PC (reg s) /\
  ope t = ope s /\ ram t = ram s /\ rom t = rom s /\ key t = key s /\
  videoNeedsRefresh t = videoNeedsRefresh s.

(** What a shift or rotate makes of the byte [v] and the carry [c]: the byte
    it leaves and the carry it gives. *)
Definition shifted (i : Instr) (v c : Z) : Z * bool :=
  match i with
  | i_ASL => ((2 * v) mod 256, 128 <=? v)
  | i_LSR => (v / 2, Z.odd v)
  | i_ROL => ((2 * v + c) mod 256, 128 <=? v)
  | i_ROR => (v / 2 + 128 * c, Z.odd v)
  | _ => (v, false)
  end.

(** What INC and DEC add to their operand. *)
Definition delta (i : Instr) : option Z :=
  match i with
  | i_INC => Some 1
  | i_DEC => Some (-1)
  | _ => None
  end.

(** ** The other order of the two pulls

    [RTS] and [RTI] with the right call of [pull() | (pull() << 8)] made
    first: the first byte pulled is the one shifted.  Both orders are
    allowed to a C compiler. *)

Definition RTS_right_first (s : machine) : machine :=
  let '(hi, s) := pull s in
  let '(lo, s) := pull s in
  set_PC s (Z.lor lo (Z.shiftl hi 8) + 1).

Definition RTI_right_first (s : machine) : machine :=
  let '(v, s) := pull s in
  let s := set_SR s v in
  let '(hi, s) := pull s in
  let '(lo, s) := pull s in
  set_PC s (Z.lor lo (Z.shiftl hi 8)).

(** The interpreter of a program compiled that way: [execute] but for the
    two routines, and [step] with it. *)
Definition execute_right_first (i : Instr) (s : machine) : machine :=
  match i with
  | i_RTS => RTS_right_first s
  | i_RTI => RTI_right_first s
  | _ => execute i s
  end.

Definition step_right_first (s : machine) : machine :=
  let pc := PC (reg s) in
  let s := set_PC s (pc + 1) in
  let '(b, s) := readMem s pc in
  let opcode := u8 b in
  let s := resolve (nth (Z.to_nat opcode) addressing m_IMP) s in
  execute_right_first (nth (Z.to_nat opcode) instruction i_UND) s.

(** A 16-bit word with its two bytes exchanged. *)
Definition swap_bytes (w : Z) : Z :=
  Z.lor (Z.shiftr w 8) (Z.shiftl (Z.land w 0xFF) 8).

(** ** The whole keyboard controller

    The keyboard controller of [main] on the value [ch] that [getch()]
    returned: nothing on [ERR]; a reset first on F7; the end of the program
    ([None]) on F12; otherwise the translations of [keyboard]. *)
Definition controller (ERR KEY_F7 KEY_F12 : Z) (s : machine) (ch : Z)
  : option machine :=
  if ch =? ERR then Some s
  else
    let s := if ch =? KEY_F7 then reset s else s in
    if ch =? KEY_F12 then None
    else Some (keyboard s ch).

(** The instructions that call [pull] twice in one expression. *)
Definition pulls_twice (i : Instr) : bool :=
  match i with
  | i_RTS | i_RTI => true
  | _ => false
  end.
(** * Lemmas and theorems *)

(** ** Tactics *)

Ltac zbool :=
  repeat match goal with
         | |- context [?a >=? ?b] => rewrite (Z.geb_leb a b)
         | |- context [?a <? ?b] => destruct (Z.ltb_spec a b)
         | |- context [?a <=? ?b] => destruct (Z.leb_spec a b)
         | |- context [?a =? ?b] => destruct (Z.eqb_spec a b)
         end.

Ltac project :=
  cbn [set_rom set_ram set_ope set_reg set_key set_videoNeedsRefresh
       set_setAcc set_value set_address
       set_A set_X set_Y set_SR set_SP set_PC
       rom ram ope reg key videoNeedsRefresh
       setAcc value address A X Y SR SP PC fst snd].

(** Linear arithmetic with the wrap-arounds written out. *)
Ltac wrap_lia := unfold u8, u16 in *; Z.div_mod_to_equations; lia.

Ltac split_ifs :=
  repeat match goal with
         | |- context [if ?c then _ else _] => destruct c
         end.

(** ** Integer conversions and bytes *)

Lemma u8_range (x : Z) : 0 <= u8 x < 256.
Proof. unfold u8. apply Z.mod_pos_bound. lia. Qed.

Lemma u16_range (x : Z) : 0 <= u16 x < 65536.
Proof. unfold u16. apply Z.mod_pos_bound. lia. Qed.

Lemma u8_small (x : Z) : 0 <= x < 256 -> u8 x = x.
Proof. intros H. unfold u8. apply Z.mod_small. exact H. Qed.

Lemma u16_small (x : Z) : 0 <= x < 65536 -> u16 x = x.
Proof. intros H. unfold u16. apply Z.mod_small. exact H. Qed.

Lemma land_u8_low (x m : Z) :
  0 <= m < 256 -> Z.land (u8 x) m = Z.land x m.
Proof.
  intros Hm. unfold u8. change 256 with (2 ^ 8).
  rewrite <- Z.land_ones by lia. rewrite <- Z.land_assoc.
  f_equal. rewrite Z.land_comm, Z.land_ones by lia.
  apply Z.mod_small. lia.
Qed.

Lemma land_u16_low (x m : Z) :
  0 <= m < 65536 -> Z.land (u16 x) m = Z.land x m.
Proof.
  intros Hm. unfold u16. change 65536 with (2 ^ 16).
  rewrite <- Z.land_ones by lia. rewrite <- Z.land_assoc.
  f_equal. rewrite Z.land_comm, Z.land_ones by lia.
  apply Z.mod_small. lia.
Qed.

Lemma u8_land_FF (x : Z) : u8 x = Z.land x 0xFF.
Proof. unfold u8. change 0xFF with (Z.ones 8). rewrite Z.land_ones by lia. reflexivity. Qed.

Lemma land_bound (x m n : Z) :
  0 <= n -> 0 <= m < 2 ^ n -> 0 <= Z.land x m < 2 ^ n.
Proof.
  intros Hn Hm.
  assert (E : m = Z.land m (Z.ones n)).
  { rewrite Z.land_ones by lia. symmetry. apply Z.mod_small. exact Hm. }
  rewrite E, Z.land_assoc, Z.land_ones by lia.
  apply Z.mod_pos_bound. lia.
Qed.

Lemma land_byte (x m : Z) : 0 <= m < 256 -> 0 <= Z.land x m < 256.
Proof. intros Hm. apply (land_bound x m 8); lia. Qed.

Lemma lor_bound (a b n : Z) :
  0 <= n -> 0 <= a < 2 ^ n -> 0 <= b < 2 ^ n -> 0 <= Z.lor a b < 2 ^ n.
Proof.
  intros Hn Ha Hb.
  assert (H0 : 0 <= Z.lor a b) by (apply Z.lor_nonneg; lia).
  split; [exact H0|].
  destruct (Z.eq_dec (Z.lor a b) 0) as [->|Hne]; [lia|].
  apply Z.log2_lt_pow2; [lia|].
  rewrite Z.log2_lor by lia.
  destruct (Z.eq_dec a 0) as [->|Ha0]; destruct (Z.eq_dec b 0) as [->|Hb0].
  - rewrite Z.lor_0_l in Hne. congruence.
  - rewrite Z.max_r by (change (Z.log2 0) with 0; apply Z.log2_nonneg).
    apply Z.log2_lt_pow2; lia.
  - rewrite Z.max_l by (change (Z.log2 0) with 0; apply Z.log2_nonneg).
    apply Z.log2_lt_pow2; lia.
  - apply Z.max_lub_lt; apply Z.log2_lt_pow2; lia.
Qed.

(** A little-endian pair of bytes is a 16-bit word. *)
Lemma word_of_bytes (lo hi : Z) :
  0 <= lo < 256 -> 0 <= hi < 256 -> 0 <= Z.lor lo (Z.shiftl hi 8) < 65536.
Proof.
  intros Hlo Hhi. apply (lor_bound _ _ 16); [lia|lia|].
  rewrite Z.shiftl_mul_pow2 by lia. lia.
Qed.

(** A word is its low byte and its high byte. *)
Lemma bytes_of_word (x : Z) :
  Z.lor (Z.land x 0xFF) (Z.shiftl (Z.shiftr x 8) 8) = x.
Proof.
  apply Z.bits_inj'. intros n Hn.
  rewrite Z.lor_spec, Z.land_spec, Z.shiftl_spec by lia.
  change 0xFF with (Z.ones 8). rewrite Z.testbit_ones_nonneg by lia.
  destruct (Z.ltb_spec n 8).
  - rewrite (Z.testbit_neg_r _ (n - 8)) by lia.
    rewrite andb_true_r, orb_false_r. reflexivity.
  - rewrite Z.shiftr_spec by lia. rewrite andb_false_r, orb_false_l.
    f_equal. lia.
Qed.

Lemma high_byte (x : Z) :
  0 <= x < 65536 -> Z.land (Z.shiftr x 8) 0xFF = Z.shiftr x 8.
Proof.
  intros H. change 0xFF with (Z.ones 8).
  rewrite Z.land_ones, Z.shiftr_div_pow2 by lia.
  change (2 ^ 8) with 256. apply Z.mod_small. Z.div_mod_to_equations. lia.
Qed.

Lemma forall_byte (P : Z -> bool) :
  forallb P all_bytes = true -> forall x, 0 <= x < 256 -> P x = true.
Proof.
  intros H x Hx. rewrite forallb_forall in H. apply H.
  unfold all_bytes. apply in_map_iff. exists (Z.to_nat x).
  split; [lia|]. apply in_seq. lia.
Qed.

(** ** Flags *)

Lemma is_mask_cases (m : Z) :
  is_mask m = true ->
  m = CARRY \/ m = ZERO \/ m = INTERRUPT \/ m = DECIMAL \/
  m = BREAK \/ m = UNDEFINED \/ m = OVERFLOW \/ m = SIGN.
Proof.
  unfold is_mask. rewrite existsb_exists. intros (k & Hin & Hk).
  apply Z.eqb_eq in Hk. subst k. simpl in Hin. intuition auto.
Qed.

(** Storing [sr_upd sr m' c] assigns [c] to the flag [m'] and keeps the
    others. *)
Lemma sr_upd_flag (sr m m' : Z) (c : bool) :
  0 <= sr < 256 -> is_mask m = true -> is_mask m' = true ->
  nonzero (Z.land (u8 (sr_upd sr m' c)) m) =
  if m =? m' then c else nonzero (Z.land sr m).
Proof.
  intros Hsr Hm Hm'. apply eqb_prop. revert sr Hsr.
  apply is_mask_cases in Hm, Hm'.
  destruct c;
    (destruct Hm as [->|[->|[->|[->|[->|[->|[->| ->]]]]]]];
     destruct Hm' as [->|[->|[->|[->|[->|[->|[->| ->]]]]]]];
     apply forall_byte; vm_compute; reflexivity).
Qed.

Ltac flag_side := first [ reflexivity | apply u8_range | assumption ].

Lemma SR_assign_set (s : machine) (m : Z) (c : bool) :
  SR_assign s m c = set_SR s (sr_upd (SR (reg s)) m c).
Proof. destruct c; reflexivity. Qed.

Lemma setSZ_assign (s : machine) (v : Z) :
  setSZ s v =
  SR_assign (SR_assign s ZERO (negb (nonzero (u8 v))))
            SIGN (nonzero (Z.land (u8 v) 0x80)).
Proof.
  unfold setSZ.
  destruct (nonzero (u8 v)); destruct (nonzero (Z.land (u8 v) 0x80)); reflexivity.
Qed.

Lemma nonzero_bit7 (x : Z) : nonzero (Z.land x 0x80) = Z.testbit x 7.
Proof.
  unfold nonzero. change 0x80 with (2 ^ 7).
  destruct (Z.testbit x 7) eqn:E.
  - apply negb_true_iff, Z.eqb_neq. intros H.
    assert (T : Z.testbit (Z.land x (2 ^ 7)) 7 = true).
    { rewrite Z.land_spec, E, Z.pow2_bits_true by lia. reflexivity. }
    rewrite H in T. rewrite Z.bits_0 in T. discriminate T.
  - apply negb_false_iff, Z.eqb_eq. apply Z.bits_inj'. intros n Hn.
    rewrite Z.land_spec, Z.bits_0, Z.pow2_bits_eqb by lia.
    destruct (Z.eqb_spec 7 n) as [<-|_]; [rewrite E; reflexivity|].
    apply andb_false_r.
Qed.

Lemma nonzero_false (x : Z) : nonzero x = false -> x = 0.
Proof. unfold nonzero. intros H. apply negb_false_iff, Z.eqb_eq in H. exact H. Qed.

Lemma SR_or_byte (sr m : Z) :
  0 <= sr < 256 -> is_mask m = true -> u8 (Z.lor sr m) = Z.lor sr m.
Proof.
  intros Hsr Hm. apply Z.eqb_eq. revert sr Hsr.
  apply is_mask_cases in Hm.
  destruct Hm as [->|[->|[->|[->|[->|[->|[->| ->]]]]]]];
    apply forall_byte; vm_compute; reflexivity.
Qed.

(** ** Well-formed machines *)

Lemma wf_ranges (s : machine) :
  wf s ->
  Z.of_nat (length (rom s)) = ROMSIZE /\
  Z.of_nat (length (ram s)) = RAMSIZE /\
  forallb byteb (rom s) = true /\
  forallb byteb (ram s) = true /\
  0 <= value (ope s) < 65536 /\
  0 <= address (ope s) < 65536 /\
  0 <= A (reg s) < 256 /\
  0 <= X (reg s) < 256 /\
  0 <= Y (reg s) < 256 /\
  0 <= SR (reg s) < 256 /\
  0 <= SP (reg s) < 256 /\
  0 <= PC (reg s) < 65536 /\
  0 <= key s < 256.
Proof.
  unfold wf, wfb, byteb, wordb. intros H.
  repeat (apply andb_true_iff in H; destruct H as [H ?]).
  repeat match goal with
         | E : (_ && _) = true |- _ => apply andb_true_iff in E; destruct E
         end.
  repeat split; try assumption; lia.
Qed.

Lemma power_on_wf : wf power_on.
Proof. vm_compute. reflexivity. Qed.

Lemma lookup_byte (l : list Z) (n : nat) :
  forallb byteb l = true -> (n < length l)%nat -> 0 <= l !!! n < 256.
Proof.
  intros Hall Hn.
  destruct (list_lookup_lookup_total_lt l n Hn).
  rewrite forallb_forall in Hall.
  assert (Hin : In (l !!! n) l).
  { apply list_elem_of_In, list_elem_of_lookup. exists n.
    apply list_lookup_lookup_total_lt. exact Hn. }
  apply Hall in Hin. unfold byteb in Hin.
  apply andb_true_iff in Hin. lia.
Qed.

(** ** Reads *)

(** A read changes nothing but the latch, and the latch only at [0xC010]. *)
Lemma readMem_eq (s : machine) (a : Z) :
  readMem s a = (peek s a, strobe s a).
Proof.
  unfold peek, strobe, readMem, RAMSIZE, ROMSTART. zbool; try reflexivity; lia.
Qed.

(** The byte read, by region. *)
Lemma peek_ram (s : machine) (a : Z) :
  0 <= a < RAMSIZE -> peek s a = ram s !!! Z.to_nat a.
Proof.
  unfold RAMSIZE. intros H. unfold peek, readMem, RAMSIZE.
  rewrite u16_small by lia. zbool; try lia. reflexivity.
Qed.

Lemma peek_rom (s : machine) (a : Z) :
  ROMSTART <= a < 65536 -> peek s a = rom s !!! Z.to_nat (a - ROMSTART).
Proof.
  unfold ROMSTART. intros H. unfold peek, readMem, RAMSIZE, ROMSTART.
  rewrite u16_small by lia. zbool; try lia. reflexivity.
Qed.

Lemma peek_byte (s : machine) (a : Z) : wf s -> 0 <= peek s a < 256.
Proof.
  intros Hwf. apply wf_ranges in Hwf.
  destruct Hwf as (Hrom & Hram & Brom & Bram & _ & _ & _ & _ & _ & _ & _ & _ & Hk).
  pose proof (u16_range a) as Ha.
  unfold peek, readMem. unfold RAMSIZE, ROMSTART, ROMSIZE in *.
  zbool; cbn [fst set_key key].
  - apply lookup_byte; [assumption|lia].
  - apply lookup_byte; [assumption|lia].
  - exact Hk.
  - apply u8_range.
  - lia.
Qed.

Lemma peek_frame (s t : machine) (a : Z) :
  ram s = ram t -> rom s = rom t -> key s = key t -> peek s a = peek t a.
Proof.
  intros Hram Hrom Hkey. unfold peek, readMem. project.
  rewrite Hram, Hrom, Hkey. zbool; reflexivity.
Qed.

Lemma peek_set_A (s : machine) (v : Z) (a : Z) :
  peek (set_A s v) a = peek s a.
Proof. apply peek_frame; reflexivity. Qed.

Lemma peek_set_X (s : machine) (v : Z) (a : Z) :
  peek (set_X s v) a = peek s a.
Proof. apply peek_frame; reflexivity. Qed.

Lemma peek_set_Y (s : machine) (v : Z) (a : Z) :
  peek (set_Y s v) a = peek s a.
Proof. apply peek_frame; reflexivity. Qed.

Lemma peek_set_SR (s : machine) (v : Z) (a : Z) :
  peek (set_SR s v) a = peek s a.
Proof. apply peek_frame; reflexivity. Qed.

Lemma peek_set_SP (s : machine) (v : Z) (a : Z) :
  peek (set_SP s v) a = peek s a.
Proof. apply peek_frame; reflexivity. Qed.

Lemma peek_set_PC (s : machine) (v : Z) (a : Z) :
  peek (set_PC s v) a = peek s a.
Proof. apply peek_frame; reflexivity. Qed.

Lemma peek_set_value (s : machine) (v : Z) (a : Z) :
  peek (set_value s v) a = peek s a.
Proof. apply peek_frame; reflexivity. Qed.

Lemma peek_set_address (s : machine) (v : Z) (a : Z) :
  peek (set_address s v) a = peek s a.
Proof. apply peek_frame; reflexivity. Qed.

Lemma peek_set_setAcc (s : machine) (v : bool) (a : Z) :
  peek (set_setAcc s v) a = peek s a.
Proof. apply peek_frame; reflexivity. Qed.

Lemma peek_set_videoNeedsRefresh (s : machine) (v : bool) (a : Z) :
  peek (set_videoNeedsRefresh s v) a = peek s a.
Proof. apply peek_frame; reflexivity. Qed.

Ltac peek_norm :=
  rewrite ?peek_set_A, ?peek_set_X, ?peek_set_Y, ?peek_set_SR, ?peek_set_SP,
    ?peek_set_PC, ?peek_set_value, ?peek_set_address, ?peek_set_setAcc,
    ?peek_set_videoNeedsRefresh.

Lemma peek_u16 (s : machine) (a : Z) : peek s (u16 a) = peek s a.
Proof.
  unfold peek, readMem.
  replace (u16 (u16 a)) with (u16 a) by wrap_lia. reflexivity.
Qed.

Lemma peek_wrap (s : machine) (a b : Z) : u16 a = u16 b -> peek s a = peek s b.
Proof. intros H. rewrite <- (peek_u16 s a), H. apply peek_u16. Qed.

Lemma reg_strobe (s : machine) (a : Z) : reg (strobe s a) = reg s.
Proof. unfold strobe. destruct (_ =? _); reflexivity. Qed.

Lemma ope_strobe (s : machine) (a : Z) : ope (strobe s a) = ope s.
Proof. unfold strobe. destruct (_ =? _); reflexivity. Qed.

Lemma ram_strobe (s : machine) (a : Z) : ram (strobe s a) = ram s.
Proof. unfold strobe. destruct (_ =? _); reflexivity. Qed.

Lemma rom_strobe (s : machine) (a : Z) : rom (strobe s a) = rom s.
Proof. unfold strobe. destruct (_ =? _); reflexivity. Qed.

Lemma video_strobe (s : machine) (a : Z) :
  videoNeedsRefresh (strobe s a) = videoNeedsRefresh s.
Proof. unfold strobe. destruct (_ =? _); reflexivity. Qed.

Ltac strobe_norm :=
  repeat (progress (project;
                    rewrite ?reg_strobe, ?ope_strobe, ?ram_strobe, ?rom_strobe,
                      ?video_strobe)).

Lemma strobe_id (s : machine) (a : Z) : u16 a <> 0xC010 -> strobe s a = s.
Proof. intros H. unfold strobe. zbool; [contradiction|reflexivity]. Qed.

(** Only a read of [0xC000] can tell whether the strobe was cleared. *)
Lemma peek_strobe (s : machine) (a b : Z) :
  u16 b <> 0xC000 -> peek (strobe s a) b = peek s b.
Proof.
  intros Hb. unfold strobe. destruct (u16 a =? 0xC010); [|reflexivity].
  unfold peek, readMem, RAMSIZE, ROMSTART. project.
  zbool; try reflexivity; try contradiction.
  cbn [fst]. f_equal. rewrite land_u8_low by lia.
  rewrite <- Z.land_assoc. reflexivity.
Qed.

(** A byte of the bus that is neither the latch nor the latch without its
    bit 7 does not come from the keyboard ports. *)
Lemma not_keyboard (s : machine) (a : Z) :
  peek s a <> key s -> peek s a <> u8 (Z.land (key s) 0x7F) ->
  u16 a <> 0xC000 /\ u16 a <> 0xC010.
Proof.
  intros H1 H2. split; intros E.
  - apply H1. rewrite <- peek_u16, E. reflexivity.
  - apply H2. rewrite <- peek_u16, E. reflexivity.
Qed.

(** Off the keyboard ports a read depends on the two arrays only. *)
Lemma peek_storage (s t : machine) (a : Z) :
  ram s = ram t -> rom s = rom t ->
  u16 a <> 0xC000 -> u16 a <> 0xC010 -> peek s a = peek t a.
Proof.
  intros Hram Hrom N1 N2. unfold peek, readMem. rewrite Hram, Hrom.
  zbool; try reflexivity; contradiction.
Qed.

(** Two reads in one C expression may be taken in either order, unless one
    is of [0xC010] and the other of [0xC000]. *)
Lemma readMem_commute (s : machine) (a b : Z) :
  (u16 a = 0xC010 -> u16 b <> 0xC000) ->
  (u16 b = 0xC010 -> u16 a <> 0xC000) ->
  let '(x, s1) := readMem s a in
  let '(y, s2) := readMem s1 b in
  let '(y', t1) := readMem s b in
  let '(x', t2) := readMem t1 a in
  x = x' /\ y = y' /\ s2 = t2.
Proof.
  intros Hab Hba. rewrite !readMem_eq.
  assert (P : forall u c d, (u16 c = 0xC010 -> u16 d <> 0xC000) ->
                            peek (strobe u c) d = peek u d).
  { intros u c d H. destruct (Z.eq_dec (u16 c) 0xC010) as [E|N].
    - apply peek_strobe, H, E.
    - rewrite strobe_id by exact N. reflexivity. }
  rewrite (P s a b Hab), (P s b a Hba).
  split; [reflexivity|]. split; [reflexivity|].
  unfold strobe.
  destruct (u16 a =? 0xC010); destruct (u16 b =? 0xC010); reflexivity.
Qed.

(** ** Writes and the stack *)

Lemma ope_writeMem (s : machine) (a v : Z) : ope (writeMem s a v) = ope s.
Proof.
  unfold writeMem.
  destruct (nonzero _); destruct (_ <? _); try reflexivity;
    destruct (_ =? _); reflexivity.
Qed.

Lemma reg_writeMem (s : machine) (a v : Z) : reg (writeMem s a v) = reg s.
Proof.
  unfold writeMem.
  destruct (nonzero _); destruct (_ <? _); try reflexivity;
    destruct (_ =? _); reflexivity.
Qed.

Lemma stack_bit10 (sp : Z) :
  0 <= sp < 256 -> nonzero (Z.land (0x100 + sp) 0x400) = false.
Proof.
  intros H. apply negb_true_iff. revert sp H.
  apply forall_byte. vm_compute. reflexivity.
Qed.

(** A push stores its byte in page one and touches nothing else but [SP]. *)
Lemma push_eq (s : machine) (v : Z) :
  0 <= SP (reg s) < 256 ->
  push s v =
  set_ram (set_SP s (SP (reg s) - 1))
          (<[Z.to_nat (0x100 + SP (reg s)) := u8 v]> (ram s)).
Proof.
  intros Hsp. unfold push, writeMem.
  rewrite u16_small by lia. rewrite stack_bit10 by exact Hsp.
  unfold RAMSIZE. zbool; try lia. reflexivity.
Qed.

(** A pull reads page one and touches nothing but [SP]. *)
Lemma pull_eq (s : machine) :
  pull s = (ram s !!! Z.to_nat (0x100 + u8 (SP (reg s) + 1)),
            set_SP s (SP (reg s) + 1)).
Proof.
  unfold pull, readMem. project.
  pose proof (u8_range (SP (reg s) + 1)) as H.
  rewrite u16_small by lia.
  unfold RAMSIZE. zbool; try lia. reflexivity.
Qed.

Lemma ope_push (s : machine) (v : Z) : ope (push s v) = ope s.
Proof. unfold push. rewrite ope_writeMem. reflexivity. Qed.

Ltac ram_lookup :=
  repeat first
    [ rewrite list_lookup_total_insert_eq by (rewrite ?length_insert; lia)
    | rewrite list_lookup_total_insert_ne by lia ].

Ltac run :=
  repeat (first [rewrite pull_eq | rewrite readMem_eq]; cbv beta iota zeta).

(** ** Frame of the flag updates *)

Lemma ope_SR_assign (s : machine) (m : Z) (c : bool) : ope (SR_assign s m c) = ope s.
Proof. destruct c; reflexivity. Qed.

Lemma ope_setSZ (s : machine) (v : Z) : ope (setSZ s v) = ope s.
Proof. rewrite setSZ_assign, !ope_SR_assign. reflexivity. Qed.

Lemma A_SR_assign (s : machine) (m : Z) (c : bool) :
  A (reg (SR_assign s m c)) = A (reg s).
Proof. destruct c; reflexivity. Qed.

Lemma A_setSZ (s : machine) (v : Z) : A (reg (setSZ s v)) = A (reg s).
Proof. rewrite setSZ_assign, !A_SR_assign. reflexivity. Qed.

Ltac frame_norm :=
  repeat (progress (project;
                    rewrite ?reg_strobe, ?ope_strobe, ?ope_setSZ, ?ope_SR_assign,
                      ?ope_writeMem, ?ope_push, ?A_setSZ, ?A_SR_assign,
                      ?reg_writeMem)).

(** ** Fetch and decode *)

Lemma step_eq (s : machine) :
  step s =
  let opcode := u8 (peek s (PC (reg s))) in
  execute (nth (Z.to_nat opcode) instruction i_UND)
    (resolve (nth (Z.to_nat opcode) addressing m_IMP)
       (strobe (set_PC s (PC (reg s) + 1)) (PC (reg s)))).
Proof.
  unfold step. rewrite readMem_eq. cbv beta iota zeta.
  rewrite peek_set_PC. reflexivity.
Qed.

(** The operand bytes that follow an opcode other than [0x00]: they are the
    bytes the bus held before the opcode was fetched. *)
Lemma fetch_operands (s : machine) :
  wf s ->
  peek s (PC (reg s)) <> 0 ->
  let pc := PC (reg s) in
  let s1 := strobe (set_PC s (pc + 1)) pc in
  peek s1 (PC (reg s1)) = peek s (pc + 1) /\
  strobe s1 (PC (reg s1)) = s1 /\
  peek s1 (PC (reg s1) + 1) = peek s (pc + 2) /\
  (peek s (pc + 1) <> 0 ->
   s1 = set_PC s (pc + 1) /\ strobe s1 (PC (reg s1) + 1) = s1).
Proof.
  intros Hwf Hop pc s1. apply wf_ranges in Hwf.
  destruct Hwf as (_ & _ & _ & _ & _ & _ & _ & _ & _ & _ & _ & Hpc & _).
  fold pc in Hop, Hpc.
  assert (E1 : PC (reg s1) = u16 (pc + 1)).
  { subst s1. rewrite reg_strobe. reflexivity. }
  rewrite E1.
  destruct (Z.eq_dec pc 0xC010) as [E|N].
  - subst s1. rewrite E.
    split; [reflexivity|]. split; [reflexivity|]. split; [reflexivity|].
    intros H. exfalso. apply H. reflexivity.
  - assert (Es1 : s1 = set_PC s (pc + 1)).
    { subst s1. apply strobe_id. rewrite u16_small by lia. exact N. }
    assert (N1 : u16 (u16 (pc + 1)) <> 0xC010).
    { intros H. apply Hop.
      assert (pc = 0xC00F) as -> by wrap_lia. reflexivity. }
    rewrite Es1, !peek_set_PC, peek_u16.
    split; [reflexivity|]. split; [apply strobe_id; exact N1|].
    split; [apply peek_wrap; wrap_lia|].
    intros Hlo. split; [reflexivity|].
    apply strobe_id. intros H. apply Hlo.
      assert (pc = 0xC00E) as -> by wrap_lia. reflexivity.
Qed.

(** What [ABS] leaves in the register file and the operand record. *)
Lemma ABS_reg (s : machine) :
  reg (ABS s) = reg (set_PC s (PC (reg s) + 2)).
Proof.
  unfold ABS. repeat (rewrite readMem_eq; cbv beta iota). strobe_norm. reflexivity.
Qed.

Lemma ABS_address (s : machine) :
  address (ope (ABS s)) =
  u16 (Z.lor (peek s (PC (reg s)))
             (Z.shiftl (peek (strobe s (PC (reg s))) (PC (reg s) + 1)) 8)).
Proof.
  unfold ABS. repeat (rewrite readMem_eq; cbv beta iota). strobe_norm. reflexivity.
Qed.

Lemma ABS_ram (s : machine) : ram (ABS s) = ram s.
Proof.
  unfold ABS. repeat (rewrite readMem_eq; cbv beta iota). strobe_norm. reflexivity.
Qed.

(** ** ADC *)

(** What [ADC] does to a well-formed machine, field by field. *)
Lemma ADC_effect (s : machine) :
  wf s ->
  let a := A (reg s) in
  let v := value (ope s) in
  let c := Z.land (SR (reg s)) CARRY in
  let r := u16 (a + v + c) in
  let r' := if flag DECIMAL s
            then u16 (r + Z.land (Z.shiftr (Z.lxor (Z.lxor (r + 0x66) a) v) 3) 0x22 * 3)
            else r in
  let s' := ADC s in
  (flag SIGN s' = Z.testbit (Z.land r 0xFF) 7 /\
   flag ZERO s' = (Z.land r 0xFF =? 0) /\
   flag OVERFLOW s' = nonzero (Z.land (Z.land (Z.lxor r a) (Z.lxor r v)) 0x80) /\
   flag CARRY s' = nonzero (Z.land r' 0xFF00) /\
   A (reg s') = Z.land r' 0xFF) /\
  (flag INTERRUPT s' = flag INTERRUPT s /\ flag DECIMAL s' = flag DECIMAL s /\
   flag BREAK s' = flag BREAK s /\ flag UNDEFINED s' = flag UNDEFINED s) /\
  (X (reg s') = X (reg s) /\ Y (reg s') = Y (reg s) /\
   SP (reg s') = SP (reg s) /\ PC (reg s') = PC (reg s) /\
   ope s' = ope s /\ ram s' = ram s /\ rom s' = rom s /\
   key s' = key s /\ videoNeedsRefresh s' = videoNeedsRefresh s).
Proof.
  intros Hwf a v c r r' s'. apply wf_ranges in Hwf.
  destruct Hwf as (_ & _ & _ & _ & _ & _ & _ & _ & _ & Hsr & _).
  subst s'. unfold ADC. fold a v c. fold r.
  rewrite setSZ_assign, !SR_assign_set. project. fold a v.
  match goal with
  | |- context [if nonzero (Z.land ?sr DECIMAL) then _ else _] =>
      assert (HD : nonzero (Z.land sr DECIMAL) = flag DECIMAL s)
        by (rewrite !sr_upd_flag by flag_side; reflexivity);
      rewrite HD
  end.
  fold r'. unfold flag. project.
  rewrite !sr_upd_flag by flag_side.
  cbn [Z.eqb Pos.eqb SIGN CARRY ZERO OVERFLOW INTERRUPT DECIMAL BREAK UNDEFINED].
  repeat split.
  - rewrite nonzero_bit7, u8_land_FF. reflexivity.
  - rewrite u8_land_FF. unfold nonzero. apply negb_involutive.
  - apply u8_small. apply land_byte. lia.
Qed.

(** C1.  [ADC] on any machine: [r = A + value + C] as a 16-bit sum; N and Z
    from the low 8 bits of [r], in decimal mode too; V from
    [(r ^ A) & (r ^ value) & 0x80]; with D set, [r] grows by the BCD
    adjustment; C from [r & 0xFF00]; [A] receives [r & 0xFF].  The two
    scenarios follow: [0x50 + 0x50] gives [A = 0xA0], N, V, not Z, not C, and
    decimal [0x15 + 0x27] gives [A = 0x42], not C. *)
Theorem ADC_correct (s : machine) :
  wf s ->
  (let a := A (reg s) in
   let v := value (ope s) in
   let r := u16 (a + v + Z.land (SR (reg s)) CARRY) in
   let r' := if flag DECIMAL s
             then u16 (r + Z.land (Z.shiftr (Z.lxor (Z.lxor (r + 0x66) a) v) 3) 0x22 * 3)
             else r in
   flag SIGN (ADC s) = Z.testbit (Z.land r 0xFF) 7 /\
   flag ZERO (ADC s) = (Z.land r 0xFF =? 0) /\
   (flag OVERFLOW (ADC s) = true <->
    Z.land (Z.land (Z.lxor r a) (Z.lxor r v)) 0x80 <> 0) /\
   (flag CARRY (ADC s) = true <-> Z.land r' 0xFF00 <> 0) /\
   A (reg (ADC s)) = Z.land r' 0xFF) /\
  (A (reg s) = 0x50 -> value (ope s) = 0x50 ->
   flag CARRY s = false -> flag DECIMAL s = false ->
   A (reg (ADC s)) = 0xA0 /\ flag SIGN (ADC s) = true /\
   flag OVERFLOW (ADC s) = true /\ flag ZERO (ADC s) = false /\
   flag CARRY (ADC s) = false) /\
  (A (reg s) = 0x15 -> value (ope s) = 0x27 ->
   flag CARRY s = false -> flag DECIMAL s = true ->
   A (reg (ADC s)) = 0x42 /\ flag CARRY (ADC s) = false).
Proof.
  intros Hwf.
  destruct (ADC_effect s Hwf) as ((HN & HZ & HV & HC & HA) & _).
  cbv zeta in HN, HZ, HV, HC, HA.
  assert (Hnz : forall x, nonzero x = true <-> x <> 0).
  { intros x. unfold nonzero. rewrite negb_true_iff, Z.eqb_neq. tauto. }
  split; [|split].
  - cbv zeta. rewrite HN, HZ, HV, HC, HA, !Hnz. tauto.
  - intros Ea Ev Ec Ed. apply nonzero_false in Ec.
    rewrite HN, HZ, HV, HC, HA, Ea, Ev, Ec, Ed. vm_compute. tauto.
  - intros Ea Ev Ec Ed. apply nonzero_false in Ec.
    rewrite HC, HA, Ea, Ev, Ec, Ed. vm_compute. tauto.
Qed.

Lemma ADC_correct_witness :
  wf adc_binary /\ wf adc_decimal /\
  (A (reg (ADC adc_binary)) = 0xA0 /\ flag SIGN (ADC adc_binary) = true /\
   flag OVERFLOW (ADC adc_binary) = true /\ flag ZERO (ADC adc_binary) = false /\
   flag CARRY (ADC adc_binary) = false) /\
  (A (reg (ADC adc_decimal)) = 0x42 /\ flag CARRY (ADC adc_decimal) = false).
Proof.
  assert (W1 : wf adc_binary) by (vm_compute; reflexivity).
  assert (W2 : wf adc_decimal) by (vm_compute; reflexivity).
  split; [exact W1|]. split; [exact W2|]. split.
  - apply (ADC_correct adc_binary W1); vm_compute; reflexivity.
  - apply (ADC_correct adc_decimal W2); vm_compute; reflexivity.
Defined.

(** ** PLP and RTI *)

(** [PLP] forces the U flag, whatever byte it pulls. *)
Lemma PLP_sets_U (s : machine) : flag UNDEFINED (PLP s) = true.
Proof.
  unfold PLP. rewrite pull_eq. cbv beta iota. unfold flag. project.
  rewrite land_u8_low by (unfold UNDEFINED; lia).
  replace (Z.land (Z.lor _ UNDEFINED) UNDEFINED) with UNDEFINED; [reflexivity|].
  apply Z.bits_inj'. intros n _. rewrite Z.land_spec, Z.lor_spec.
  destruct (Z.testbit UNDEFINED n);
    [rewrite orb_true_r; reflexivity|symmetry; apply andb_false_r].
Qed.

(** C2.  [RTI] stores the byte it pulls into [SR] as it is.  On a machine just
    reset (U set) whose stack page holds zeroes, the U flag reads 0 after
    the [RTI] step; the [PLP] step on the same stack leaves it at 1, as
    [PLP] does on every machine. *)
Theorem RTI_leaves_U_clear :
  peek at_RTI (PC (reg at_RTI)) = 0x40 /\
  flag UNDEFINED at_RTI = true /\
  flag UNDEFINED (step at_RTI) = false /\
  SR (reg (RTI at_RTI)) = 0x00 /\
  peek at_PLP (PC (reg at_PLP)) = 0x28 /\
  flag UNDEFINED (step at_PLP) = true /\
  (forall s, flag UNDEFINED (PLP s) = true).
Proof.
  do 6 (split; [vm_compute; reflexivity|]).
  exact PLP_sets_U.
Qed.

(** ** The keyboard data port *)

(** C3 (as stated) fails: with [0xC1] in the latch, a read of [0xC000] leaves
    bit 7 of the latch set, and a second read returns [0xC1] again. *)
Lemma C000_read_keeps_bit7 : ~ C000_read_clears_bit7 key_pressed.
Proof.
  unfold C000_read_clears_bit7.
  change (readMem key_pressed 0xC000) with (key key_pressed, key_pressed).
  intros (_ & H & _). vm_compute in H. discriminate H.
Qed.

(** C3 (amended).  A read of [0xC000] returns the current latch byte and
    leaves the machine, the latch included, as it was; a second read
    therefore returns the same byte, bit 7 included. *)
Theorem readMem_C000_pure :
  forall s, readMem s 0xC000 = (key s, s) /\
            fst (readMem (snd (readMem s 0xC000)) 0xC000) = key s.
Proof. intros s. split; reflexivity. Qed.

(** ** The keyboard strobe *)

Lemma step_LDA_ABS (s : machine) :
  peek s (PC (reg s)) = 0xAD ->
  step s = LDA (ABS (strobe (set_PC s (PC (reg s) + 1)) (PC (reg s)))).
Proof. intros H. rewrite step_eq, H. reflexivity. Qed.

(** [LDA] with an absolute operand, the three instruction bytes being off
    the keyboard ports. *)
Lemma LDA_ABS_effect (s : machine) :
  0 <= PC (reg s) < 65536 -> 0 <= SR (reg s) < 256 ->
  let pc := PC (reg s) in
  peek s pc = 0xAD ->
  u16 pc <> 0xC010 -> u16 (pc + 1) <> 0xC010 -> u16 (pc + 2) <> 0xC010 ->
  let a := Z.lor (peek s (pc + 1)) (Z.shiftl (peek s (pc + 2)) 8) in
  A (reg (step s)) = u8 (peek s a) /\
  flag SIGN (step s) = Z.testbit (u8 (peek s a)) 7 /\
  key (step s) = key (strobe s a) /\
  ram (step s) = ram s /\ rom (step s) = rom s /\
  PC (reg (step s)) = u16 (pc + 3) /\
  0 <= SR (reg (step s)) < 256.
Proof.
  intros Hpc Hsr pc Hop N0 N1 N2 a.
  rewrite step_LDA_ABS by exact Hop. fold pc.
  rewrite (strobe_id _ pc) by exact N0.
  unfold ABS. project.
  rewrite readMem_eq; cbv beta iota.
  rewrite strobe_id by (replace (u16 (u16 (pc + 1))) with (u16 (pc + 1)) by wrap_lia; exact N1).
  project.
  rewrite readMem_eq; cbv beta iota.
  rewrite strobe_id by (replace (u16 (u16 (pc + 1) + 1)) with (u16 (pc + 2)) by wrap_lia; exact N2).
  rewrite readMem_eq; cbv beta iota.
  peek_norm. rewrite peek_u16.
  rewrite (peek_wrap s (u16 (pc + 1) + 1) (pc + 2)) by wrap_lia.
  fold a. project. peek_norm. rewrite peek_u16.
  unfold LDA. rewrite setSZ_assign, !SR_assign_set.
  unfold flag. strobe_norm.
  assert (E8 : u8 (u16 (peek s a)) = u8 (peek s a)) by wrap_lia.
  assert (E8' : forall x, u8 (u8 x) = u8 x) by (intros x; wrap_lia).
  rewrite !E8', !E8.
  split; [reflexivity|]. split.
  { rewrite !sr_upd_flag by flag_side. cbn [Z.eqb Pos.eqb SIGN].
    apply nonzero_bit7. }
  split.
  { unfold strobe. replace (u16 (u16 a)) with (u16 a) by wrap_lia.
    destruct (u16 a =? 49168); reflexivity. }
  split; [reflexivity|]. split; [reflexivity|].
  split; [wrap_lia|apply u8_range].
Qed.

(** The same, for the instruction [k] bytes into a program laid out from
    the PC of an earlier machine [s] whose arrays [t] still holds. *)
Lemma LDA_ABS_chain (s t : machine) (k lo hi : Z) :
  ram t = ram s -> rom t = rom s ->
  PC (reg t) = u16 (PC (reg s) + k) -> 0 <= SR (reg t) < 256 ->
  let pc := PC (reg s) in
  peek s (pc + k) = 0xAD -> peek s (pc + (k + 1)) = lo -> peek s (pc + (k + 2)) = hi ->
  (u16 (pc + k) <> 0xC000 /\ u16 (pc + k) <> 0xC010) ->
  (u16 (pc + (k + 1)) <> 0xC000 /\ u16 (pc + (k + 1)) <> 0xC010) ->
  (u16 (pc + (k + 2)) <> 0xC000 /\ u16 (pc + (k + 2)) <> 0xC010) ->
  let a := Z.lor lo (Z.shiftl hi 8) in
  A (reg (step t)) = u8 (peek t a) /\
  flag SIGN (step t) = Z.testbit (u8 (peek t a)) 7 /\
  key (step t) = key (strobe t a) /\
  ram (step t) = ram s /\ rom (step t) = rom s /\
  PC (reg (step t)) = u16 (pc + (k + 3)) /\
  0 <= SR (reg (step t)) < 256.
Proof.
  intros Hram Hrom Hpc Hsr pc B0 B1 B2 (P0 & Q0) (P1 & Q1) (P2 & Q2) a.
  fold pc in Hpc.
  assert (R : 0 <= PC (reg t) < 65536) by (rewrite Hpc; apply u16_range).
  assert (T : forall i, u16 (pc + (k + i)) <> 0xC000 -> u16 (pc + (k + i)) <> 0xC010 ->
                        peek t (PC (reg t) + i) = peek s (pc + (k + i))).
  { intros i Hi1 Hi2. rewrite Hpc.
    rewrite (peek_wrap t (u16 (pc + k) + i) (pc + (k + i)))
      by (clear; unfold u16; Z.div_mod_to_equations; lia).
    apply peek_storage; assumption. }
  assert (W : forall i, u16 (PC (reg t) + i) = u16 (pc + (k + i))).
  { intros i. rewrite Hpc. clear. unfold u16. Z.div_mod_to_equations. lia. }
  replace (pc + k) with (pc + (k + 0)) in B0, P0, Q0 by lia.
  pose proof (T 0 P0 Q0) as T0. pose proof (W 0) as W0.
  replace (PC (reg t) + 0) with (PC (reg t)) in T0, W0 by lia.
  destruct (LDA_ABS_effect t R Hsr) as (HA & HF & HK & HRam & HRom & HPc & HSr).
  - rewrite T0. exact B0.
  - rewrite W0. exact Q0.
  - rewrite W. exact Q1.
  - rewrite W. exact Q2.
  - rewrite !T, B1, B2 in HA, HF, HK by assumption. fold a in HA, HF, HK.
    split; [exact HA|]. split; [exact HF|]. split; [exact HK|].
    split; [congruence|]. split; [congruence|]. split; [|exact HSr].
    rewrite HPc, Hpc. clear. unfold u16. Z.div_mod_to_equations. lia.
Qed.

(** C4.  With [0xC1] in the latch, three successive instructions [LDA $C000],
    [LDA $C010], [LDA $C000]: the first loads [0xC1], sets N and leaves the
    latch as it is; the second clears bit 7 of the latch and loads the
    cleared latch, [0x41], with N clear; the third loads [0x41]. *)
Theorem keyboard_strobe_scenario (s : machine) :
  wf s ->
  key s = 0xC1 ->
  let pc := PC (reg s) in
  peek s pc = 0xAD -> peek s (pc + 1) = 0x00 -> peek s (pc + 2) = 0xC0 ->
  peek s (pc + 3) = 0xAD -> peek s (pc + 4) = 0x10 -> peek s (pc + 5) = 0xC0 ->
  peek s (pc + 6) = 0xAD -> peek s (pc + 7) = 0x00 -> peek s (pc + 8) = 0xC0 ->
  let s1 := step s in
  let s2 := step s1 in
  let s3 := step s2 in
  (A (reg s1) = 0xC1 /\ flag SIGN s1 = true /\ key s1 = 0xC1) /\
  (A (reg s2) = 0x41 /\ flag SIGN s2 = false /\ key s2 = 0x41) /\
  A (reg s3) = 0x41 /\
  (forall u, readMem u 0xC000 = (key u, u)) /\
  (forall u, let k := u8 (Z.land (key u) 0x7F) in
             readMem u 0xC010 = (k, set_key u k) /\ Z.testbit k 7 = false).
Proof.
  intros Hwf Hkey pc B0 B1 B2 B3 B4 B5 B6 B7 B8 s1 s2 s3.
  cut ((A (reg s1) = 0xC1 /\ flag SIGN s1 = true /\ key s1 = 0xC1) /\
       (A (reg s2) = 0x41 /\ flag SIGN s2 = false /\ key s2 = 0x41) /\
       A (reg s3) = 0x41).
  { intros (G1 & G2 & G3).
    split; [exact G1|]. split; [exact G2|]. split; [exact G3|].
    split; [reflexivity|]. intros u k. split; [reflexivity|].
    subst k. rewrite u8_land_FF, <- Z.land_assoc.
    change (Z.land 0x7F 0xFF) with 0x7F.
    rewrite Z.land_spec. apply andb_false_r. }
  apply wf_ranges in Hwf.
  destruct Hwf as (_ & _ & _ & _ & _ & _ & _ & _ & _ & Hsr & _ & Hpc & _).
  fold pc in Hpc.
  assert (K : forall i b, peek s (pc + i) = b -> b <> 0xC1 -> b <> 0x41 ->
                          u16 (pc + i) <> 0xC000 /\ u16 (pc + i) <> 0xC010).
  { intros i b Hb Nb1 Nb2. apply (not_keyboard s); rewrite Hb, Hkey.
    - exact Nb1.
    - exact Nb2. }
  replace pc with (pc + 0) in B0 by lia.
  destruct (K 0 _ B0) as (P0 & Q0); [discriminate..|].
  destruct (K 1 _ B1) as (P1 & Q1); [discriminate..|].
  destruct (K 2 _ B2) as (P2 & Q2); [discriminate..|].
  destruct (K 3 _ B3) as (P3 & Q3); [discriminate..|].
  destruct (K 4 _ B4) as (P4 & Q4); [discriminate..|].
  destruct (K 5 _ B5) as (P5 & Q5); [discriminate..|].
  destruct (K 6 _ B6) as (P6 & Q6); [discriminate..|].
  destruct (K 7 _ B7) as (P7 & Q7); [discriminate..|].
  destruct (K 8 _ B8) as (P8 & Q8); [discriminate..|].
  replace (pc + 0) with pc in * by lia.
  (* first instruction *)
  destruct (LDA_ABS_chain s s 0 0x00 0xC0)
    as (A1 & F1 & K1 & Ram1 & Rom1 & Pc1 & Sr1);
    try reflexivity; try assumption; fold pc;
    rewrite ?Z.add_0_r; try assumption; try (split; assumption).
  { symmetry. apply u16_small. lia. }
  fold s1 pc in A1, F1, K1, Ram1, Rom1, Pc1, Sr1.
  cbn [Z.add Pos.add] in Pc1.
  change (Z.lor 0 (Z.shiftl 192 8)) with 0xC000 in A1, F1, K1.
  change (peek s 0xC000) with (key s) in A1, F1.
  change (strobe s 0xC000) with s in K1.
  rewrite Hkey in A1, F1, K1.
  (* second instruction *)
  destruct (LDA_ABS_chain s s1 3 0x10 0xC0)
    as (A2 & F2 & K2 & Ram2 & Rom2 & Pc2 & Sr2);
    try assumption; fold pc; try (split; assumption).
  fold s2 pc in A2, F2, K2, Ram2, Rom2, Pc2, Sr2.
  cbn [Z.add Pos.add Pos.succ] in Pc2.
  change (Z.lor 16 (Z.shiftl 192 8)) with 0xC010 in A2, F2, K2.
  change (peek s1 0xC010) with (u8 (Z.land (key s1) 0x7F)) in A2, F2.
  change (key (strobe s1 0xC010)) with (u8 (Z.land (key s1) 0x7F)) in K2.
  rewrite K1 in A2, F2, K2.
  (* third instruction *)
  destruct (LDA_ABS_chain s s2 6 0x00 0xC0)
    as (A3 & _ & _);
    try assumption; fold pc; try (split; assumption).
  fold s3 in A3.
  change (Z.lor 0 (Z.shiftl 192 8)) with 0xC000 in A3.
  change (peek s2 0xC000) with (key s2) in A3.
  rewrite K2 in A3.
  repeat split; assumption.
Qed.

Lemma keyboard_strobe_scenario_witness :
  wf kbd_state /\
  (A (reg (step kbd_state)) = 0xC1 /\ flag SIGN (step kbd_state) = true /\
   key (step kbd_state) = 0xC1) /\
  (A (reg (step (step kbd_state))) = 0x41 /\
   flag SIGN (step (step kbd_state)) = false /\
   key (step (step kbd_state)) = 0x41) /\
  A (reg (step (step (step kbd_state)))) = 0x41.
Proof.
  assert (W : wf kbd_state) by (vm_compute; reflexivity).
  split; [exact W|].
  destruct (keyboard_strobe_scenario kbd_state W) as (H1 & H2 & H3 & _);
    try (vm_compute; reflexivity).
  split; [exact H1|]. split; [exact H2|]. exact H3.
Defined.

(** ** The video-dirty flag *)

(** C5.  After [writeMem(addr, b)] the video-dirty flag is true when bit 10 of
    [addr] is set, whatever [addr] selects (RAM, ROM or I/O), and keeps its
    value when bit 10 is clear; so a write to [0x0400] or to [0x0C00] sets it
    and a write to [0x0300] leaves it alone. *)
Theorem writeMem_video_dirty :
  (forall s addr b,
      videoNeedsRefresh (writeMem s addr b) =
      if nonzero (Z.land addr 0x400) then true else videoNeedsRefresh s) /\
  (forall s b, videoNeedsRefresh (writeMem s 0x0400 b) = true) /\
  (forall s b, videoNeedsRefresh (writeMem s 0x0300 b) = videoNeedsRefresh s) /\
  (forall s b, videoNeedsRefresh (writeMem s 0x0C00 b) = true).
Proof.
  assert (H : forall s addr b,
      videoNeedsRefresh (writeMem s addr b) =
      if nonzero (Z.land addr 0x400) then true else videoNeedsRefresh s).
  { intros s addr b. unfold writeMem.
    rewrite land_u16_low by lia.
    destruct (nonzero (Z.land addr 0x400));
      destruct (u16 addr <? RAMSIZE); try reflexivity;
      destruct (u16 addr =? 0xC010); reflexivity. }
  split; [exact H|].
  repeat split; intros s b; rewrite H; reflexivity.
Qed.

(** ** Indirect JMP *)

Lemma IND_vectors (hi : Z) :
  0 <= hi < 256 ->
  let vector1 := u16 (Z.lor 0xFF (Z.shiftl hi 8)) in
  vector1 = hi * 256 + 0xFF /\
  u16 (Z.lor (Z.land vector1 0xFF00) (Z.land (vector1 + 1) 0x00FF)) = hi * 256.
Proof.
  intros H. cbv zeta.
  assert (G : ((u16 (Z.lor 0xFF (Z.shiftl hi 8)) =? hi * 256 + 0xFF) &&
               (u16 (Z.lor (Z.land (u16 (Z.lor 0xFF (Z.shiftl hi 8))) 0xFF00)
                           (Z.land (u16 (Z.lor 0xFF (Z.shiftl hi 8)) + 1) 0x00FF))
                =? hi * 256)) = true).
  { revert hi H. apply forall_byte. vm_compute. reflexivity. }
  apply andb_true_iff in G. destruct G as [G1 G2].
  apply Z.eqb_eq in G1, G2. split; assumption.
Qed.

Lemma step_JMP_IND (s : machine) :
  peek s (PC (reg s)) = 0x6C ->
  step s = JMP (IND (strobe (set_PC s (PC (reg s) + 1)) (PC (reg s)))).
Proof. intros H. rewrite step_eq, H. reflexivity. Qed.

(** C6.  [JMP ($xxFF)] (opcode [0x6C], operand bytes [0xFF] and [xx]) takes the
    low byte of its target from [$xxFF] and the high byte from [$xx00], the
    start of the same page; with [0x80] at [$30FF] and [0x50] at [$3000],
    [JMP ($30FF)] continues at [0x5080]. *)
Theorem JMP_indirect_page_wrap (s : machine) (hi : Z) :
  wf s ->
  peek s (PC (reg s)) = 0x6C ->
  peek s (PC (reg s) + 1) = 0xFF ->
  peek s (PC (reg s) + 2) = hi ->
  PC (reg (step s)) =
    Z.lor (peek s (hi * 256 + 0xFF)) (Z.shiftl (peek s (hi * 256)) 8) /\
  (hi = 0x30 -> peek s 0x30FF = 0x80 -> peek s 0x3000 = 0x50 ->
   PC (reg (step s)) = 0x5080).
Proof.
  intros Hwf Hop Hlo Hhi.
  assert (G : PC (reg (step s)) =
    Z.lor (peek s (hi * 256 + 0xFF)) (Z.shiftl (peek s (hi * 256)) 8)).
  { assert (Hop0 : peek s (PC (reg s)) <> 0) by (rewrite Hop; discriminate).
    assert (Hlo0 : peek s (PC (reg s) + 1) <> 0) by (rewrite Hlo; discriminate).
    destruct (fetch_operands s Hwf Hop0) as (E1 & E2 & E3 & E4).
    destruct (E4 Hlo0) as (E5 & E6).
    assert (Bhi : 0 <= hi < 256) by (rewrite <- Hhi; apply peek_byte; exact Hwf).
    pose proof (peek_byte s (hi * 256 + 0xFF) Hwf) as B1.
    pose proof (peek_byte s (hi * 256) Hwf) as B2.
    destruct (IND_vectors hi Bhi) as (V1 & V2).
    rewrite step_JMP_IND by exact Hop.
    set (s1 := strobe (set_PC s (PC (reg s) + 1)) (PC (reg s))) in *.
    unfold JMP, IND. 
    rewrite readMem_eq; cbv beta iota. rewrite E2.
    rewrite readMem_eq; cbv beta iota. rewrite E6.
    rewrite E1, E3, Hlo, Hhi, V2, V1.
    rewrite readMem_eq; cbv beta iota.
    rewrite (strobe_id s1 (hi * 256 + 255)) by wrap_lia.
    rewrite readMem_eq; cbv beta iota.
    rewrite (strobe_id s1 (hi * 256)) by wrap_lia.
    rewrite readMem_eq; cbv beta iota.
    strobe_norm.
    rewrite E5. peek_norm.
    pose proof (word_of_bytes _ _ B1 B2) as W.
    rewrite (u16_small _ W). apply (u16_small _ W). }
  split; [exact G|].
  intros -> H1 H2. rewrite G. change (48 * 256 + 255) with 0x30FF.
  change (48 * 256) with 0x3000. rewrite H1, H2. reflexivity.
Qed.

Lemma JMP_indirect_page_wrap_witness :
  wf jmp_state /\ PC (reg (step jmp_state)) = 0x5080.
Proof.
  assert (W : wf jmp_state) by (vm_compute; reflexivity).
  split; [exact W|].
  apply (JMP_indirect_page_wrap jmp_state 0x30 W); vm_compute; reflexivity.
Defined.

(** ** BRK *)

(** C7.  [BRK] on any machine: PC first moves one byte further (over the
    padding byte); the high byte of that PC goes to the stack, then its low
    byte, then [SR | BREAK], so that bit 4 is set in the pushed copy; the I
    flag is set; PC is loaded from the little-endian vector at
    [0xFFFE/0xFFFF].  Nothing else changes. *)
Theorem BRK_correct (s : machine) :
  wf s ->
  let pc1 := u16 (PC (reg s) + 1) in
  let sp := SP (reg s) in
  let s' := BRK s in
  (ram s' !!! Z.to_nat (0x100 + sp) = Z.land (Z.shiftr pc1 8) 0xFF /\
   ram s' !!! Z.to_nat (0x100 + u8 (sp - 1)) = Z.land pc1 0xFF /\
   ram s' !!! Z.to_nat (0x100 + u8 (sp - 2)) = Z.lor (SR (reg s)) BREAK /\
   Z.testbit (ram s' !!! Z.to_nat (0x100 + u8 (sp - 2))) 4 = true /\
   SP (reg s') = u8 (sp - 3) /\
   SR (reg s') = Z.lor (SR (reg s)) INTERRUPT /\
   flag INTERRUPT s' = true /\
   PC (reg s') = Z.lor (peek s 0xFFFE) (Z.shiftl (peek s 0xFFFF) 8)) /\
  (A (reg s') = A (reg s) /\ X (reg s') = X (reg s) /\ Y (reg s') = Y (reg s) /\
   ope s' = ope s /\ rom s' = rom s /\ key s' = key s /\
   videoNeedsRefresh s' = videoNeedsRefresh s /\
   forall a, 0 <= a < RAMSIZE ->
             a <> 0x100 + sp -> a <> 0x100 + u8 (sp - 1) ->
             a <> 0x100 + u8 (sp - 2) ->
             ram s' !!! Z.to_nat a = ram s !!! Z.to_nat a).
Proof.
  intros Hwf pc1 sp s'.
  pose proof (peek_byte s 0xFFFE Hwf) as Hlo.
  pose proof (peek_byte s 0xFFFF Hwf) as Hhi.
  apply wf_ranges in Hwf.
  destruct Hwf as (_ & Hram & _ & _ & _ & _ & _ & _ & _ & Hsr & Hsp & _).
  unfold RAMSIZE in *.
  subst s'. unfold BRK.
  rewrite (push_eq (set_PC _ _)) by (project; assumption). project.
  rewrite (push_eq (set_ram _ _)) by (project; apply u8_range). project.
  rewrite (push_eq (set_ram _ _)) by (project; apply u8_range). project.
  unfold SR_or. project.
  rewrite !readMem_eq.
  change (strobe ?x 0xFFFE) with x. change (strobe ?x 0xFFFF) with x.
  project. fold pc1 sp.
  rewrite !peek_rom in * by (unfold ROMSTART; lia). project.
  assert (Hbrk : u8 (Z.lor (SR (reg s)) BREAK) = Z.lor (SR (reg s)) BREAK)
    by (apply SR_or_byte; [assumption|reflexivity]).
  assert (Hsp1 : 0 <= u8 (sp - 1) < 256) by apply u8_range.
  assert (Hsp2 : 0 <= u8 (u8 (sp - 1) - 1) < 256) by apply u8_range.
  assert (Esp2 : u8 (u8 (sp - 1) - 1) = u8 (sp - 2)) by wrap_lia.
  assert (Ne1 : u8 (sp - 1) <> sp) by wrap_lia.
  assert (Ne2 : u8 (sp - 2) <> sp) by wrap_lia.
  assert (Ne3 : u8 (sp - 2) <> u8 (sp - 1)) by wrap_lia.
  rewrite Esp2 in *.
  split; repeat split.
  - ram_lookup. apply u8_small, land_byte. lia.
  - ram_lookup. apply u8_small, land_byte. lia.
  - ram_lookup. exact Hbrk.
  - ram_lookup. rewrite Hbrk, Z.lor_spec. apply orb_true_r.
  - wrap_lia.
  - apply SR_or_byte; [assumption|reflexivity].
  - unfold flag. project.
    change (Z.lor (SR (reg s)) INTERRUPT) with (sr_upd (SR (reg s)) INTERRUPT true).
    rewrite sr_upd_flag by flag_side. reflexivity.
  - apply u16_small, word_of_bytes; assumption.
  - intros a Ha N1 N2 N3. ram_lookup. reflexivity.
Qed.

Lemma BRK_correct_witness :
  wf brk_state /\
  ram (BRK brk_state) !!! Z.to_nat 0x101 = 0x13 /\
  ram (BRK brk_state) !!! Z.to_nat 0x100 = 0x00 /\
  ram (BRK brk_state) !!! Z.to_nat 0x1FF = 0x30 /\
  SP (reg (BRK brk_state)) = 0xFE /\
  SR (reg (BRK brk_state)) = 0x24 /\
  PC (reg (BRK brk_state)) = 0xFA62.
Proof.
  assert (W : wf brk_state) by (vm_compute; reflexivity).
  split; [exact W|].
  destruct (BRK_correct brk_state W)
    as ((H1 & H2 & H3 & _ & H5 & H6 & _ & H8) & _).
  split; [refine (eq_trans H1 _); vm_compute; reflexivity|].
  split; [refine (eq_trans H2 _); vm_compute; reflexivity|].
  split; [refine (eq_trans H3 _); vm_compute; reflexivity|].
  split; [refine (eq_trans H5 _); vm_compute; reflexivity|].
  split; [refine (eq_trans H6 _); vm_compute; reflexivity|].
  refine (eq_trans H8 _); vm_compute; reflexivity.
Defined.

(** ** JSR and RTS *)

Lemma step_JSR (s : machine) :
  peek s (PC (reg s)) = 0x20 ->
  step s = JSR (ABS (strobe (set_PC s (PC (reg s) + 1)) (PC (reg s)))).
Proof. intros H. rewrite step_eq, H. reflexivity. Qed.

Lemma step_RTS (s : machine) :
  peek s (PC (reg s)) = 0x60 ->
  step s = RTS (strobe (set_PC s (PC (reg s) + 1)) (PC (reg s))).
Proof. intros H. rewrite step_eq, H. reflexivity. Qed.

Lemma JSR_effect (s : machine) :
  wf s ->
  peek s (PC (reg s)) = 0x20 ->
  let pc := PC (reg s) in
  let sp := SP (reg s) in
  let ret := u16 (pc + 2) in
  PC (reg (step s)) = Z.lor (peek s (pc + 1)) (Z.shiftl (peek s (pc + 2)) 8) /\
  SP (reg (step s)) = u8 (sp - 2) /\
  ram (step s) =
    <[Z.to_nat (0x100 + u8 (sp - 1)) := Z.land ret 0xFF]>
      (<[Z.to_nat (0x100 + sp) := Z.shiftr ret 8]> (ram s)).
Proof.
  intros Hwf Hop pc sp ret.
  assert (Hop0 : peek s (PC (reg s)) <> 0) by (rewrite Hop; discriminate).
  destruct (fetch_operands s Hwf Hop0) as (Hlo & Hs1 & Hhi & _).
  pose proof (peek_byte s (pc + 1) Hwf) as Blo.
  pose proof (peek_byte s (pc + 2) Hwf) as Bhi.
  apply wf_ranges in Hwf.
  destruct Hwf as (_ & Hram & _ & _ & _ & _ & _ & _ & _ & _ & Hsp & Hpc & _).
  rewrite step_JSR by exact Hop. fold pc in Hlo, Hs1, Hhi |- *.
  set (s1 := strobe (set_PC s (pc + 1)) pc) in *.
  assert (Epc : PC (reg s1) = u16 (pc + 1)) by (subst s1; rewrite reg_strobe; reflexivity).
  assert (Esp : SP (reg s1) = sp) by (subst s1; rewrite reg_strobe; reflexivity).
  assert (Eram : ram s1 = ram s) by (subst s1; rewrite ram_strobe; reflexivity).
  unfold JSR.
  rewrite (push_eq (set_PC _ _)) by (project; rewrite ABS_reg; project; rewrite Esp; assumption).
  project.
  rewrite (push_eq (set_ram _ _)) by (project; apply u8_range). project.
  rewrite ABS_reg, ABS_address, ABS_ram. project.
  rewrite Hs1, Hlo, Hhi, Epc, Esp, Eram.
  assert (Eret : u16 (u16 (u16 (pc + 1) + 2) - 1) = ret) by (subst ret; wrap_lia).
  rewrite Eret.
  pose proof (u16_range (pc + 2)) as Hret. fold ret in Hret.
  split; [|split].
  - pose proof (word_of_bytes _ _ Blo Bhi) as W.
    rewrite (u16_small _ W). apply (u16_small _ W).
  - wrap_lia.
  - rewrite high_byte by exact Hret.
    rewrite (u8_small (Z.land ret 255)) by (apply land_byte; lia).
    rewrite (u8_small (Z.shiftr ret 8)); [reflexivity|].
    rewrite Z.shiftr_div_pow2 by lia. change (2 ^ 8) with 256. wrap_lia.
Qed.

Lemma RTS_effect (t : machine) :
  peek t (PC (reg t)) = 0x60 ->
  let sp := SP (reg t) in
  PC (reg (step t)) =
    u16 (Z.lor (ram t !!! Z.to_nat (0x100 + u8 (sp + 1)))
               (Z.shiftl (ram t !!! Z.to_nat (0x100 + u8 (sp + 2))) 8) + 1) /\
  SP (reg (step t)) = u8 (sp + 2).
Proof.
  intros Hop sp. rewrite step_RTS by exact Hop.
  unfold RTS. rewrite pull_eq. cbv beta iota. rewrite pull_eq. cbv beta iota.
  strobe_norm. fold sp.
  replace (u8 (u8 (sp + 1) + 1)) with (u8 (sp + 2)) by wrap_lia.
  split; reflexivity.
Qed.

(** [JSR] and [RTS] with the left call first.  A [JSR] (opcode [0x20], two
    operand bytes) pushes the address of its own last byte, high byte then
    low byte, and jumps to its operand; an [RTS] (opcode [0x60]) that makes
    the left call of [pull] first pulls low then high and continues one byte
    past the pulled address.  So an [RTS] executed while the two stack bytes and
    [SP] are as the [JSR] left them, and in particular the [RTS] the [JSR]
    jumps to, continues at the byte that follows the three bytes of the
    [JSR], with [SP] back to its value before the [JSR]. *)
Theorem JSR_RTS_returns (s t : machine) :
  wf s ->
  peek s (PC (reg s)) = 0x20 ->
  let pc := PC (reg s) in
  let sp := SP (reg s) in
  let ret := u16 (pc + 2) in
  (PC (reg (step s)) = Z.lor (peek s (pc + 1)) (Z.shiftl (peek s (pc + 2)) 8) /\
   SP (reg (step s)) = u8 (sp - 2) /\
   ram (step s) !!! Z.to_nat (0x100 + sp) = Z.shiftr ret 8 /\
   ram (step s) !!! Z.to_nat (0x100 + u8 (sp - 1)) = Z.land ret 0xFF) /\
  (peek t (PC (reg t)) = 0x60 ->
   PC (reg (step t)) =
     u16 (Z.lor (ram t !!! Z.to_nat (0x100 + u8 (SP (reg t) + 1)))
                (Z.shiftl (ram t !!! Z.to_nat (0x100 + u8 (SP (reg t) + 2))) 8) + 1) /\
   SP (reg (step t)) = u8 (SP (reg t) + 2)) /\
  (peek t (PC (reg t)) = 0x60 ->
   SP (reg t) = SP (reg (step s)) ->
   ram t !!! Z.to_nat (0x100 + sp) = ram (step s) !!! Z.to_nat (0x100 + sp) ->
   ram t !!! Z.to_nat (0x100 + u8 (sp - 1)) =
     ram (step s) !!! Z.to_nat (0x100 + u8 (sp - 1)) ->
   PC (reg (step t)) = u16 (pc + 3) /\ SP (reg (step t)) = sp) /\
  (peek (step s) (PC (reg (step s))) = 0x60 ->
   PC (reg (step (step s))) = u16 (pc + 3) /\ SP (reg (step (step s))) = sp).
Proof.
  intros Hwf Hop pc sp ret.
  destruct (JSR_effect s Hwf Hop) as (Hpc' & Hsp' & Hram'). fold pc sp ret in Hpc', Hsp', Hram'.
  apply wf_ranges in Hwf.
  destruct Hwf as (_ & Hram & _ & _ & _ & _ & _ & _ & _ & _ & Hsp & Hpc & _).
  fold sp in Hsp. fold pc in Hpc. unfold RAMSIZE in Hram.
  assert (Ne : u8 (sp - 1) <> sp) by wrap_lia.
  pose proof (u8_range (sp - 1)) as Hsp1.
  assert (Hhi : ram (step s) !!! Z.to_nat (0x100 + sp) = Z.shiftr ret 8)
    by (rewrite Hram'; ram_lookup; reflexivity).
  assert (Hlo : ram (step s) !!! Z.to_nat (0x100 + u8 (sp - 1)) = Z.land ret 0xFF)
    by (rewrite Hram'; ram_lookup; reflexivity).
  assert (Back : forall u,
    peek u (PC (reg u)) = 0x60 ->
    SP (reg u) = SP (reg (step s)) ->
    ram u !!! Z.to_nat (0x100 + sp) = ram (step s) !!! Z.to_nat (0x100 + sp) ->
    ram u !!! Z.to_nat (0x100 + u8 (sp - 1)) =
      ram (step s) !!! Z.to_nat (0x100 + u8 (sp - 1)) ->
    PC (reg (step u)) = u16 (pc + 3) /\ SP (reg (step u)) = sp).
  { intros u Hu Esp Ehi Elo.
    destruct (RTS_effect u Hu) as (Hpcu & Hspu).
    rewrite Hpcu, Hspu, Esp, Hsp'.
    replace (u8 (u8 (sp - 2) + 1)) with (u8 (sp - 1)) by wrap_lia.
    replace (u8 (u8 (sp - 2) + 2)) with sp by wrap_lia.
    rewrite Elo, Ehi, Hlo, Hhi, bytes_of_word.
    split; [subst ret; wrap_lia|reflexivity]. }
  split; [|split; [|split]].
  - repeat split; assumption.
  - intros Ht. apply RTS_effect. exact Ht.
  - apply Back.
  - intros Hs. apply Back; [exact Hs|reflexivity..].
Qed.

Lemma JSR_RTS_returns_witness :
  wf jsr_state /\
  PC (reg (step jsr_state)) = 0x0310 /\
  SP (reg (step jsr_state)) = 0xFE /\
  ram (step jsr_state) !!! Z.to_nat 0x100 = 0x03 /\
  ram (step jsr_state) !!! Z.to_nat 0x1FF = 0x02 /\
  PC (reg (step (step jsr_state))) = 0x0303 /\
  SP (reg (step (step jsr_state))) = 0x00.
Proof.
  assert (W : wf jsr_state) by (vm_compute; reflexivity).
  assert (Hop : peek jsr_state (PC (reg jsr_state)) = 0x20) by (vm_compute; reflexivity).
  split; [exact W|].
  destruct (JSR_RTS_returns jsr_state (step jsr_state) W Hop)
    as ((H1 & H2 & H3 & H4) & _ & _ & H5).
  split; [refine (eq_trans H1 _); vm_compute; reflexivity|].
  split; [refine (eq_trans H2 _); vm_compute; reflexivity|].
  split; [refine (eq_trans H3 _); vm_compute; reflexivity|].
  split; [refine (eq_trans H4 _); vm_compute; reflexivity|].
  destruct H5 as (H5 & H6); [vm_compute; reflexivity|].
  split; [refine (eq_trans H5 _); vm_compute; reflexivity|].
  refine (eq_trans H6 _); vm_compute; reflexivity.
Defined.

(** *** The other order of the two pulls

    [JSR_RTS_returns] is about [RTS] as [step] has it, with the left call
    of [pull() | (pull() << 8)] made first.  With the right call first the
    two bytes are taken in the order in which they lie on the stack, and
    the return address comes out with its bytes exchanged. *)

Lemma step_right_first_eq (s : machine) :
  step_right_first s =
  let opcode := u8 (peek s (PC (reg s))) in
  execute_right_first (nth (Z.to_nat opcode) instruction i_UND)
    (resolve (nth (Z.to_nat opcode) addressing m_IMP)
       (strobe (set_PC s (PC (reg s) + 1)) (PC (reg s)))).
Proof.
  unfold step_right_first. rewrite readMem_eq. cbv beta iota zeta.
  rewrite peek_set_PC. reflexivity.
Qed.

Lemma step_RTS_right_first (s : machine) :
  peek s (PC (reg s)) = 0x60 ->
  step_right_first s =
  RTS_right_first (strobe (set_PC s (PC (reg s) + 1)) (PC (reg s))).
Proof. intros H. rewrite step_right_first_eq, H. reflexivity. Qed.

Lemma RTS_right_first_effect (t : machine) :
  peek t (PC (reg t)) = 0x60 ->
  let sp := SP (reg t) in
  PC (reg (step_right_first t)) =
    u16 (Z.lor (ram t !!! Z.to_nat (0x100 + u8 (sp + 2)))
               (Z.shiftl (ram t !!! Z.to_nat (0x100 + u8 (sp + 1))) 8) + 1) /\
  SP (reg (step_right_first t)) = u8 (sp + 2).
Proof.
  intros Hop sp. rewrite step_RTS_right_first by exact Hop.
  unfold RTS_right_first. rewrite pull_eq. cbv beta iota. rewrite pull_eq. cbv beta iota.
  strobe_norm. fold sp.
  replace (u8 (u8 (sp + 1) + 1)) with (u8 (sp + 2)) by wrap_lia.
  split; reflexivity.
Qed.

(** After any [JSR], an [RTS] that makes the right call first continues one
    byte past the return address with its two bytes exchanged. *)
Lemma JSR_RTS_right_first (s : machine) :
  wf s ->
  peek s (PC (reg s)) = 0x20 ->
  peek (step s) (PC (reg (step s))) = 0x60 ->
  PC (reg (step_right_first (step s))) =
    u16 (swap_bytes (u16 (PC (reg s) + 2)) + 1) /\
  SP (reg (step_right_first (step s))) = SP (reg s).
Proof.
  intros Hwf Hop Hrts.
  destruct (JSR_effect s Hwf Hop) as (_ & Hsp' & Hram').
  destruct (RTS_right_first_effect (step s) Hrts) as (Hpc & Hsp).
  apply wf_ranges in Hwf.
  destruct Hwf as (_ & Hram & _ & _ & _ & _ & _ & _ & _ & _ & HSP & _).
  unfold RAMSIZE in Hram.
  set (sp := SP (reg s)) in *.
  assert (Ne : u8 (sp - 1) <> sp) by wrap_lia.
  pose proof (u8_range (sp - 1)) as Hsp1.
  rewrite Hsp' in Hpc, Hsp.
  replace (u8 (u8 (sp - 2) + 2)) with sp in Hpc, Hsp by wrap_lia.
  replace (u8 (u8 (sp - 2) + 1)) with (u8 (sp - 1)) in Hpc by wrap_lia.
  rewrite Hram' in Hpc.
  split; [|exact Hsp].
  rewrite Hpc. unfold swap_bytes. ram_lookup. reflexivity.
Qed.

(** C8.  Where an [RTS] returns to depends on which of its two calls of
    [pull] is made first, which C leaves to the compiler.  On [jsr_state],
    [JSR $0310] at [0x0300] with an [RTS] at [0x0310] and [SP = 0x00], the
    [JSR] pushes [0x03] at [0x0100] and [0x02] at [0x01FF] and jumps to
    [0x0310].  With the left call first the [RTS] pulls low then high and
    continues at [0x0303], the byte after the [JSR]; with the right call
    first it pulls high then low and continues at [0x0204].  [SP] is back to
    [0x00] either way. *)
Theorem RTS_return_depends_on_order :
  wf jsr_state /\
  PC (reg (step jsr_state)) = 0x0310 /\
  ram (step jsr_state) !!! Z.to_nat 0x100 = 0x03 /\
  ram (step jsr_state) !!! Z.to_nat 0x1FF = 0x02 /\
  (PC (reg (step (step jsr_state))) = 0x0303 /\
   SP (reg (step (step jsr_state))) = 0x00) /\
  (PC (reg (step_right_first (step jsr_state))) = 0x0204 /\
   SP (reg (step_right_first (step jsr_state))) = 0x00) /\
  0x0204 <> u16 (PC (reg jsr_state) + 3).
Proof.
  assert (W : wf jsr_state) by (vm_compute; reflexivity).
  assert (Hop : peek jsr_state (PC (reg jsr_state)) = 0x20) by (vm_compute; reflexivity).
  assert (Hrts : peek (step jsr_state) (PC (reg (step jsr_state))) = 0x60)
    by (vm_compute; reflexivity).
  destruct (JSR_RTS_right_first jsr_state W Hop Hrts) as (R1 & R2).
  split; [exact W|].
  split; [vm_compute; reflexivity|].
  split; [vm_compute; reflexivity|].
  split; [vm_compute; reflexivity|].
  split; [split; vm_compute; reflexivity|].
  split.
  - split; [refine (eq_trans R1 _) | refine (eq_trans R2 _)]; vm_compute; reflexivity.
  - vm_compute. discriminate.
Qed.

(** ** Undocumented opcodes *)

Lemma documented_count : length documented = 151%nat.
Proof. reflexivity. Qed.

(** The instruction table holds [UND] exactly at the opcodes that are not
    documented, and the addressing table holds [IMP] at each of them. *)
Lemma tables_match_documented (op : Z) :
  0 <= op < 256 ->
  is_UND (nth (Z.to_nat op) instruction i_UND) = negb (is_documented op) /\
  (is_documented op = false ->
   nth (Z.to_nat op) addressing m_IMP = m_IMP /\
   nth (Z.to_nat op) instruction i_UND = i_UND).
Proof.
  intros H.
  assert (G : (eqb (is_UND (nth (Z.to_nat op) instruction i_UND))
                   (negb (is_documented op)) &&
               (is_documented op ||
                (is_IMP (nth (Z.to_nat op) addressing m_IMP) &&
                 is_UND (nth (Z.to_nat op) instruction i_UND)))) = true).
  { revert op H. apply forall_byte. vm_compute. reflexivity. }
  apply andb_true_iff in G. destruct G as [G1 G2].
  split; [apply eqb_prop; exact G1|].
  intros Hd. rewrite Hd in G2. cbn [orb] in G2.
  apply andb_true_iff in G2. destruct G2 as [G2 G3].
  split.
  - destruct (nth (Z.to_nat op) addressing m_IMP); try discriminate G2; reflexivity.
  - destruct (nth (Z.to_nat op) instruction i_UND); try discriminate G3; reflexivity.
Qed.

(** C9 (as stated) fails: with PC at [0xC010] and [0x82] in the latch the
    opcode fetched is [0x02], which is not documented, and the step clears
    bit 7 of the latch. *)
Lemma strobe_fetch_changes_latch :
  is_documented (peek at_strobe (PC (reg at_strobe))) = false /\
  ~ step_only_advances_PC at_strobe.
Proof.
  split; [vm_compute; reflexivity|].
  unfold step_only_advances_PC. intros (_ & _ & _ & _ & _ & _ & _ & _ & H & _).
  vm_compute in H. discriminate H.
Qed.

(** C9 (amended).  When the opcode fetched is not a documented one, the step
    moves PC one byte on (no operand byte is consumed) and leaves [A], [X],
    [Y], [SP], [SR], both arrays, the operand record and the video-dirty flag
    as they were; the latch is unchanged too, unless the opcode was fetched
    from [0xC010], in which case the fetch has cleared its bit 7. *)
Theorem UND_step (s : machine) :
  wf s ->
  is_documented (peek s (PC (reg s))) = false ->
  let pc := PC (reg s) in
  PC (reg (step s)) = u16 (pc + 1) /\
  A (reg (step s)) = A (reg s) /\ X (reg (step s)) = X (reg s) /\
  Y (reg (step s)) = Y (reg s) /\ SP (reg (step s)) = SP (reg s) /\
  SR (reg (step s)) = SR (reg s) /\
  ram (step s) = ram s /\ rom (step s) = rom s /\
  videoNeedsRefresh (step s) = videoNeedsRefresh s /\
  ope (step s) = ope s /\
  (pc <> 0xC010 -> key (step s) = key s) /\
  (pc = 0xC010 -> key (step s) = Z.land (key s) 0x7F).
Proof.
  intros Hwf Hun pc.
  pose proof (peek_byte s pc Hwf) as Hb.
  destruct (tables_match_documented _ Hb) as (_ & T).
  destruct (T Hun) as (Tm & Ti).
  apply wf_ranges in Hwf.
  destruct Hwf as (_ & _ & _ & _ & _ & _ & _ & _ & _ & _ & _ & Hpc & Hk).
  rewrite step_eq. cbv zeta. fold pc.
  rewrite (u8_small _ Hb), Tm, Ti. cbn [resolve execute]. unfold IMP, UND.
  strobe_norm.
  do 10 (split; [reflexivity|]).
  split.
  - intros N. rewrite strobe_id by (rewrite u16_small by exact Hpc; exact N).
    reflexivity.
  - intros E. rewrite E. change (u8 (Z.land (key s) 0x7F) = Z.land (key s) 0x7F).
    apply u8_small, land_byte. lia.
Qed.

Lemma UND_step_witness :
  wf at_undocumented /\ wf at_strobe /\
  step_only_advances_PC at_undocumented /\
  key (step at_strobe) = 0x02.
Proof.
  assert (W1 : wf at_undocumented) by (vm_compute; reflexivity).
  assert (W2 : wf at_strobe) by (vm_compute; reflexivity).
  split; [exact W1|]. split; [exact W2|]. split.
  - destruct (UND_step at_undocumented W1)
      as (H1 & H2 & H3 & H4 & H5 & H6 & H7 & H8 & H9 & _ & H10 & _);
      [vm_compute; reflexivity|].
    unfold step_only_advances_PC.
    do 8 (split; [assumption|]). split; [|assumption].
    apply H10. vm_compute. discriminate.
  - destruct (UND_step at_strobe W2) as (_ & _ & _ & _ & _ & _ & _ & _ & _ & _ & _ & H);
      [vm_compute; reflexivity|].
    refine (eq_trans (H _) _); vm_compute; reflexivity.
Defined.

(** ** The accumulator target flag *)

(** No addressing mode but [ACC] touches [setAcc], and none touches [A]. *)
Lemma resolve_setAcc (m : Mode) (s : machine) :
  is_ACC m = false -> setAcc (ope (resolve m s)) = setAcc (ope s).
Proof.
  intros Hm. destruct m; try discriminate Hm; cbn [resolve];
    unfold IMP, IMM, ZPG, ZPX, ZPY, REL, ABS, ABX, ABY, IND, IDX, IDY;
    cbv zeta; run; split_ifs; frame_norm; reflexivity.
Qed.

Lemma resolve_A (m : Mode) (s : machine) : A (reg (resolve m s)) = A (reg s).
Proof.
  destruct m; cbn [resolve];
    unfold IMP, ACC, IMM, ZPG, ZPX, ZPY, REL, ABS, ABX, ABY, IND, IDX, IDY;
    cbv zeta; run; split_ifs; frame_norm; reflexivity.
Qed.

(** The write-back helper leaves [setAcc] clear, whichever way it goes. *)
Lemma makeUpdates_setAcc (s : machine) (v : Z) :
  setAcc (ope (makeUpdates s v)) = false.
Proof.
  unfold makeUpdates. destruct (setAcc (ope s)) eqn:E; frame_norm.
  - reflexivity.
  - exact E.
Qed.

Lemma shift_setAcc (i : Instr) (s : machine) :
  is_shift i = true -> setAcc (ope (execute i s)) = false.
Proof.
  intros Hi. destruct i; try discriminate Hi; cbn [execute];
    unfold ASL, LSR, ROL, ROR; cbv zeta; apply makeUpdates_setAcc.
Qed.

(** No instruction sets [setAcc]. *)
Lemma execute_setAcc (i : Instr) (s : machine) :
  setAcc (ope s) = false -> setAcc (ope (execute i s)) = false.
Proof.
  intros H.
  destruct (is_shift i) eqn:Hi; [apply shift_setAcc; exact Hi|].
  destruct i; try discriminate Hi; cbn [execute];
    unfold NOP, BRK, CLD, SED, CLC, SEC, CLI, SEI, CLV, LDA, LDX, LDY,
      STA, STX, STY, DEC, DEX, DEY, INC, INX, INY, TAX, TAY, TXA, TYA, TSX,
      TXS, BEQ, BNE, BMI, BPL, BVS, BVC, BCS, BCC, PHA, PLA, PHP, PLP, JMP,
      JSR, RTS, RTI, CMP, CPX, CPY, AND, ORA, EOR, BIT, ADC, SBC, UND,
      SR_or, SR_andnot;
    cbv zeta; run; split_ifs; frame_norm; exact H.
Qed.

Lemma shift_A (i : Instr) (s : machine) :
  is_shift i = true -> setAcc (ope s) = false ->
  A (reg (execute i s)) = A (reg s).
Proof.
  intros Hi H. destruct i; try discriminate Hi; cbn [execute];
    unfold ASL, LSR, ROL, ROR, makeUpdates; cbv zeta;
    rewrite ope_SR_assign, H; frame_norm; reflexivity.
Qed.

Lemma reset_setAcc (s : machine) : setAcc (ope (reset s)) = false.
Proof. unfold reset. run. reflexivity. Qed.

(** The opcodes dispatched to [ACC] are [0x0A], [0x2A], [0x4A] and [0x6A], and
    each of them executes a shift or a rotate. *)
Lemma ACC_opcodes (op : Z) :
  0 <= op < 256 ->
  is_ACC (nth (Z.to_nat op) addressing m_IMP) =
    existsb (Z.eqb op) [0x0A; 0x2A; 0x4A; 0x6A] /\
  (is_ACC (nth (Z.to_nat op) addressing m_IMP) = true ->
   is_shift (nth (Z.to_nat op) instruction i_UND) = true).
Proof.
  intros H.
  assert (G : (eqb (is_ACC (nth (Z.to_nat op) addressing m_IMP))
                   (existsb (Z.eqb op) [0x0A; 0x2A; 0x4A; 0x6A]) &&
               (negb (is_ACC (nth (Z.to_nat op) addressing m_IMP)) ||
                is_shift (nth (Z.to_nat op) instruction i_UND))) = true).
  { revert op H. apply forall_byte. vm_compute. reflexivity. }
  apply andb_true_iff in G. destruct G as [G1 G2].
  split; [apply eqb_prop; exact G1|].
  intros E. rewrite E in G2. exact G2.
Qed.

(** One turn of the interpreter keeps [setAcc] clear. *)
Lemma step_setAcc (s : machine) :
  setAcc (ope s) = false -> setAcc (ope (step s)) = false.
Proof.
  intros H. rewrite step_eq. cbv zeta.
  set (op := u8 (peek s (PC (reg s)))).
  destruct (ACC_opcodes op (u8_range _)) as (_ & Hshift).
  destruct (is_ACC (nth (Z.to_nat op) addressing m_IMP)) eqn:E.
  - apply shift_setAcc, Hshift. reflexivity.
  - apply execute_setAcc. rewrite resolve_setAcc by exact E.
    frame_norm. exact H.
Qed.

Lemma keyboard_ope (s : machine) (ch : Z) : ope (keyboard s ch) = ope s.
Proof. unfold keyboard. cbv zeta. split_ifs; reflexivity. Qed.

Lemma reachable_setAcc (s : machine) : reachable s -> setAcc (ope s) = false.
Proof.
  induction 1 as [s|s _ IH|s ch _ IH|s _ IH].
  - apply reset_setAcc.
  - apply step_setAcc. exact IH.
  - rewrite keyboard_ope. exact IH.
  - exact IH.
Qed.

Lemma memory_shift_tables (op : Z) :
  In op memory_shifts ->
  0 <= op < 256 /\
  is_ACC (nth (Z.to_nat op) addressing m_IMP) = false /\
  is_shift (nth (Z.to_nat op) instruction i_UND) = true.
Proof.
  unfold memory_shifts. cbn [In]. intros H.
  repeat (destruct H as [<-|H]; [repeat split; lia|]).
  contradiction.
Qed.

(** C10.  At every machine reachable from a reset, [setAcc] is false when a
    turn of the interpreter starts, so that a shift or rotate with a memory
    operand leaves the accumulator alone.  The reasons, in order: [reset]
    clears it; no addressing mode but [ACC] changes it; the opcodes
    dispatched to [ACC] are [0x0A], [0x2A], [0x4A], [0x6A]; these execute
    [ASL], [ROL], [LSR], [ROR]; each of those leaves it clear through
    [makeUpdates]. *)
Theorem setAcc_clear_at_fetch (s : machine) :
  reachable s ->
  setAcc (ope s) = false /\
  (In (peek s (PC (reg s))) memory_shifts -> A (reg (step s)) = A (reg s)) /\
  (forall u, setAcc (ope (reset u)) = false) /\
  (forall m u, is_ACC m = false -> setAcc (ope (resolve m u)) = setAcc (ope u)) /\
  (forall op, 0 <= op < 256 ->
     (nth (Z.to_nat op) addressing m_IMP = m_ACC <->
      op = 0x0A \/ op = 0x2A \/ op = 0x4A \/ op = 0x6A)) /\
  (nth (Z.to_nat 0x0A) instruction i_UND = i_ASL /\
   nth (Z.to_nat 0x2A) instruction i_UND = i_ROL /\
   nth (Z.to_nat 0x4A) instruction i_UND = i_LSR /\
   nth (Z.to_nat 0x6A) instruction i_UND = i_ROR) /\
  (forall u, setAcc (ope (ASL u)) = false /\ setAcc (ope (ROL u)) = false /\
             setAcc (ope (LSR u)) = false /\ setAcc (ope (ROR u)) = false).
Proof.
  intros R. pose proof (reachable_setAcc s R) as H.
  split; [exact H|]. split; [|split; [|split; [|split; [|split]]]].
  - intros Hin. destruct (memory_shift_tables _ Hin) as (Hb & Hm & Hi).
    rewrite step_eq. cbv zeta. rewrite (u8_small _ Hb).
    rewrite shift_A; [rewrite resolve_A; frame_norm; reflexivity|exact Hi|].
    rewrite resolve_setAcc by exact Hm. frame_norm. exact H.
  - apply reset_setAcc.
  - apply resolve_setAcc.
  - intros op Hop. destruct (ACC_opcodes op Hop) as (E & _).
    cbn [existsb] in E. rewrite !orb_false_r in E.
    split.
    + intros Hm. rewrite Hm in E. cbn [is_ACC] in E. symmetry in E.
      rewrite !orb_true_iff, !Z.eqb_eq in E. tauto.
    + intros Hop4.
      assert (T : is_ACC (nth (Z.to_nat op) addressing m_IMP) = true).
      { rewrite E, !orb_true_iff, !Z.eqb_eq. tauto. }
      destruct (nth (Z.to_nat op) addressing m_IMP); try discriminate T. reflexivity.
  - repeat split.
  - intros u. repeat split.
    + apply (shift_setAcc i_ASL). reflexivity.
    + apply (shift_setAcc i_ROL). reflexivity.
    + apply (shift_setAcc i_LSR). reflexivity.
    + apply (shift_setAcc i_ROR). reflexivity.
Qed.

Lemma setAcc_clear_at_fetch_witness :
  reachable (step asl_state) /\
  setAcc (ope (step asl_state)) = false /\
  A (reg (step asl_state)) = 0x02 /\
  A (reg (step (step asl_state))) = 0x02.
Proof.
  assert (R : reachable (step asl_state)).
  { apply reach_step. unfold asl_state. cbv zeta. apply reach_reset. }
  split; [exact R|].
  destruct (setAcc_clear_at_fetch (step asl_state) R) as (H1 & H2 & _).
  split; [exact H1|].
  split; [vm_compute; reflexivity|].
  refine (eq_trans (H2 _) _); [|vm_compute; reflexivity].
  vm_compute. tauto.
Defined.

(** * Further properties *)

(** ** Well-formedness is kept *)

Lemma wf_intro (s : machine) :
  Z.of_nat (length (rom s)) = ROMSIZE ->
  Z.of_nat (length (ram s)) = RAMSIZE ->
  forallb byteb (rom s) = true ->
  forallb byteb (ram s) = true ->
  0 <= value (ope s) < 65536 ->
  0 <= address (ope s) < 65536 ->
  0 <= A (reg s) < 256 ->
  0 <= X (reg s) < 256 ->
  0 <= Y (reg s) < 256 ->
  0 <= SR (reg s) < 256 ->
  0 <= SP (reg s) < 256 ->
  0 <= PC (reg s) < 65536 ->
  0 <= key s < 256 ->
  wf s.
Proof.
  intros. unfold wf, wfb, byteb, wordb.
  repeat (apply andb_true_iff; split); try assumption; lia.
Qed.

Ltac wf_open H :=
  apply wf_ranges in H;
  destruct H as (?Hrom & ?Hram & ?Brom & ?Bram & ?Hv & ?Had & ?HA & ?HX & ?HY &
                 ?HSR & ?HSP & ?HPC & ?Hkey).

Ltac wf_close :=
  apply wf_intro; project;
  first [assumption | apply u8_range | apply u16_range].

Lemma wf_set_A (s : machine) (v : Z) : wf s -> wf (set_A s v).
Proof. intros H. wf_open H. wf_close. Qed.
Lemma wf_set_X (s : machine) (v : Z) : wf s -> wf (set_X s v).
Proof. intros H. wf_open H. wf_close. Qed.
Lemma wf_set_Y (s : machine) (v : Z) : wf s -> wf (set_Y s v).
Proof. intros H. wf_open H. wf_close. Qed.
Lemma wf_set_SR (s : machine) (v : Z) : wf s -> wf (set_SR s v).
Proof. intros H. wf_open H. wf_close. Qed.
Lemma wf_set_SP (s : machine) (v : Z) : wf s -> wf (set_SP s v).
Proof. intros H. wf_open H. wf_close. Qed.
Lemma wf_set_PC (s : machine) (v : Z) : wf s -> wf (set_PC s v).
Proof. intros H. wf_open H. wf_close. Qed.
Lemma wf_set_value (s : machine) (v : Z) : wf s -> wf (set_value s v).
Proof. intros H. wf_open H. wf_close. Qed.
Lemma wf_set_address (s : machine) (v : Z) : wf s -> wf (set_address s v).
Proof. intros H. wf_open H. wf_close. Qed.
Lemma wf_set_setAcc (s : machine) (b : bool) : wf s -> wf (set_setAcc s b).
Proof. intros H. wf_open H. wf_close. Qed.
Lemma wf_set_videoNeedsRefresh (s : machine) (b : bool) :
  wf s -> wf (set_videoNeedsRefresh s b).
Proof. intros H. wf_open H. wf_close. Qed.
Lemma wf_set_key (s : machine) (k : Z) : wf s -> wf (set_key s (u8 k)).
Proof. intros H. wf_open H. wf_close. Qed.

Lemma wf_SR_or (s : machine) (m : Z) : wf s -> wf (SR_or s m).
Proof. apply wf_set_SR. Qed.
Lemma wf_SR_andnot (s : machine) (m : Z) : wf s -> wf (SR_andnot s m).
Proof. apply wf_set_SR. Qed.
Lemma wf_SR_assign (s : machine) (m : Z) (c : bool) : wf s -> wf (SR_assign s m c).
Proof. destruct c; [apply wf_SR_or|apply wf_SR_andnot]. Qed.
Lemma wf_setSZ (s : machine) (v : Z) : wf s -> wf (setSZ s v).
Proof. intros H. rewrite setSZ_assign. apply wf_SR_assign, wf_SR_assign, H. Qed.

Lemma wf_strobe (s : machine) (a : Z) : wf s -> wf (strobe s a).
Proof.
  intros H. unfold strobe. destruct (_ =? _); [apply wf_set_key|]; exact H.
Qed.

Lemma forallb_insert (l : list Z) (i : nat) (v : Z) :
  forallb byteb l = true -> byteb v = true ->
  forallb byteb (<[i := v]> l) = true.
Proof.
  revert i. induction l as [|x l IH]; intros i Hl Hv; [reflexivity|].
  cbn [forallb] in Hl. apply andb_true_iff in Hl. destruct Hl as [Hx Hl].
  destruct i as [|i]; cbn [forallb]; apply andb_true_iff; split;
    try assumption.
  apply IH; assumption.
Qed.

Lemma byteb_u8 (v : Z) : byteb (u8 v) = true.
Proof.
  pose proof (u8_range v). unfold byteb. apply andb_true_iff. lia.
Qed.

Lemma wf_writeMem (s : machine) (a v : Z) : wf s -> wf (writeMem s a v).
Proof.
  intros H. unfold writeMem.
  assert (W : forall u, wf u ->
    wf (if u16 a <? RAMSIZE
        then set_ram u (<[Z.to_nat (u16 a) := u8 v]> (ram u))
        else if u16 a =? 0xC010 then set_key u (u8 (Z.land (key u) 0x7F)) else u)).
  { intros u Hu. destruct (_ <? _).
    - wf_open Hu. apply wf_intro; project; try assumption.
      + rewrite length_insert. assumption.
      + apply forallb_insert; [assumption|apply byteb_u8].
    - destruct (_ =? _); [apply wf_set_key|]; exact Hu. }
  destruct (nonzero _); apply W; [apply wf_set_videoNeedsRefresh|]; exact H.
Qed.

Lemma wf_push (s : machine) (v : Z) : wf s -> wf (push s v).
Proof. intros H. unfold push. apply wf_writeMem, wf_set_SP, H. Qed.

Ltac wf_peel :=
  repeat match goal with
         | |- wf (set_A _ _) => apply wf_set_A
         | |- wf (set_X _ _) => apply wf_set_X
         | |- wf (set_Y _ _) => apply wf_set_Y
         | |- wf (set_SR _ _) => apply wf_set_SR
         | |- wf (set_SP _ _) => apply wf_set_SP
         | |- wf (set_PC _ _) => apply wf_set_PC
         | |- wf (set_value _ _) => apply wf_set_value
         | |- wf (set_address _ _) => apply wf_set_address
         | |- wf (set_setAcc _ _) => apply wf_set_setAcc
         | |- wf (SR_or _ _) => apply wf_SR_or
         | |- wf (SR_andnot _ _) => apply wf_SR_andnot
         | |- wf (SR_assign _ _ _) => apply wf_SR_assign
         | |- wf (setSZ _ _) => apply wf_setSZ
         | |- wf (strobe _ _) => apply wf_strobe
         | |- wf (writeMem _ _ _) => apply wf_writeMem
         | |- wf (push _ _) => apply wf_push
         end;
  try assumption.

Lemma wf_resolve (m : Mode) (s : machine) : wf s -> wf (resolve m s).
Proof.
  intros H. destruct m; cbn [resolve];
    unfold IMP, ACC, IMM, ZPG, ZPX, ZPY, REL, ABS, ABX, ABY, IND, IDX, IDY;
    cbv zeta; run; split_ifs; wf_peel.
Qed.

Lemma wf_execute (i : Instr) (s : machine) : wf s -> wf (execute i s).
Proof.
  intros H. destruct i; cbn [execute];
    unfold NOP, BRK, CLD, SED, CLC, SEC, CLI, SEI, CLV, LDA, LDX, LDY,
      STA, STX, STY, DEC, DEX, DEY, INC, INX, INY, TAX, TAY, TXA, TYA, TSX,
      TXS, BEQ, BNE, BMI, BPL, BVS, BVC, BCS, BCC, PHA, PLA, PHP, PLP, JMP,
      JSR, RTS, RTI, CMP, CPX, CPY, AND, ORA, EOR, BIT, ASL, LSR, ROL, ROR,
      ADC, SBC, UND, makeUpdates;
    cbv zeta; run; split_ifs; wf_peel.
Qed.

Lemma wf_step (s : machine) : wf s -> wf (step s).
Proof.
  intros H. rewrite step_eq. cbv zeta.
  apply wf_execute, wf_resolve, wf_strobe, wf_set_PC, H.
Qed.

Lemma wf_reset (s : machine) : wf s -> wf (reset s).
Proof. intros H. unfold reset. run. wf_peel. Qed.

Lemma wf_keyboard (s : machine) (ch : Z) : wf s -> wf (keyboard s ch).
Proof.
  intros H. wf_open H. unfold keyboard. cbv zeta.
  split_ifs; apply wf_intro; project; try assumption; try apply u8_range; lia.
Qed.

Lemma wf_batch (s : machine) : wf s -> wf (batch s).
Proof.
  intros H. unfold batch. generalize 100%nat. intros n.
  induction n as [|n IH]; [exact H|]. cbn [Nat.iter]. apply wf_step, IH.
Qed.

(** ** The video-dirty flag never misses a write *)

Lemma quiet_refl (s : machine) : quiet s s.
Proof. intros H. split; [exact H|reflexivity]. Qed.

Lemma quiet_trans (s t u : machine) : quiet s t -> quiet t u -> quiet s u.
Proof.
  intros Hst Htu Hu. destruct (Htu Hu) as (Ht & Rtu).
  destruct (Hst Ht) as (Hs & Rst). split; [exact Hs|].
  intros a Ha Hd. rewrite Rtu, Rst by assumption. reflexivity.
Qed.

Lemma quiet_same (s t u : machine) :
  ram u = ram t -> videoNeedsRefresh u = videoNeedsRefresh t ->
  quiet s t -> quiet s u.
Proof.
  intros Hram Hvid Hst Hu. rewrite Hvid in Hu. rewrite Hram. exact (Hst Hu).
Qed.

Lemma dirties_u16 (a : Z) : dirties (u16 a) = dirties a.
Proof. unfold dirties. rewrite land_u16_low by lia. reflexivity. Qed.

Lemma quiet_writeMem (s t : machine) (a v : Z) :
  quiet s t -> quiet s (writeMem t a v).
Proof.
  intros Hst. apply (quiet_trans s t); [exact Hst|]. clear Hst.
  intros H. unfold writeMem in *. fold (dirties (u16 a)) in *.
  pose proof (u16_range a) as Ra.
  destruct (dirties (u16 a)) eqn:D.
  - exfalso. destruct (_ <? _); [|destruct (_ =? _)]; discriminate H.
  - assert (Hv : videoNeedsRefresh t = false).
    { destruct (_ <? _); [|destruct (_ =? _)]; exact H. }
    split; [exact Hv|]. intros c Hc Dc.
    destruct (_ <? _); [|destruct (_ =? _); reflexivity].
    project. apply list_lookup_total_insert_ne.
    intros E. assert (u16 a = c) by lia. congruence.
Qed.

Lemma quiet_strobe (s t : machine) (a : Z) : quiet s t -> quiet s (strobe t a).
Proof.
  apply quiet_same; [apply ram_strobe|apply video_strobe].
Qed.

Lemma quiet_push (s t : machine) (v : Z) : quiet s t -> quiet s (push t v).
Proof.
  intros H. unfold push. apply quiet_writeMem.
  revert H. apply quiet_same; reflexivity.
Qed.

Lemma quiet_SR_assign (s t : machine) (m : Z) (c : bool) :
  quiet s t -> quiet s (SR_assign t m c).
Proof. apply quiet_same; destruct c; reflexivity. Qed.

Lemma quiet_setSZ (s t : machine) (v : Z) : quiet s t -> quiet s (setSZ t v).
Proof.
  intros H. rewrite setSZ_assign. apply quiet_SR_assign, quiet_SR_assign, H.
Qed.

Lemma quiet_set_A (s t : machine) (v : Z) : quiet s t -> quiet s (set_A t v).
Proof. apply quiet_same; reflexivity. Qed.
Lemma quiet_set_X (s t : machine) (v : Z) : quiet s t -> quiet s (set_X t v).
Proof. apply quiet_same; reflexivity. Qed.
Lemma quiet_set_Y (s t : machine) (v : Z) : quiet s t -> quiet s (set_Y t v).
Proof. apply quiet_same; reflexivity. Qed.
Lemma quiet_set_SR (s t : machine) (v : Z) : quiet s t -> quiet s (set_SR t v).
Proof. apply quiet_same; reflexivity. Qed.
Lemma quiet_set_SP (s t : machine) (v : Z) : quiet s t -> quiet s (set_SP t v).
Proof. apply quiet_same; reflexivity. Qed.
Lemma quiet_set_PC (s t : machine) (v : Z) : quiet s t -> quiet s (set_PC t v).
Proof. apply quiet_same; reflexivity. Qed.
Lemma quiet_set_value (s t : machine) (v : Z) : quiet s t -> quiet s (set_value t v).
Proof. apply quiet_same; reflexivity. Qed.
Lemma quiet_set_address (s t : machine) (v : Z) : quiet s t -> quiet s (set_address t v).
Proof. apply quiet_same; reflexivity. Qed.
Lemma quiet_set_setAcc (s t : machine) (v : bool) : quiet s t -> quiet s (set_setAcc t v).
Proof. apply quiet_same; reflexivity. Qed.
Lemma quiet_SR_or (s t : machine) (v : Z) : quiet s t -> quiet s (SR_or t v).
Proof. apply quiet_same; reflexivity. Qed.
Lemma quiet_SR_andnot (s t : machine) (v : Z) : quiet s t -> quiet s (SR_andnot t v).
Proof. apply quiet_same; reflexivity. Qed.

Ltac quiet_peel :=
  repeat match goal with
         | |- quiet _ (set_A _ _) => apply quiet_set_A
         | |- quiet _ (set_X _ _) => apply quiet_set_X
         | |- quiet _ (set_Y _ _) => apply quiet_set_Y
         | |- quiet _ (set_SR _ _) => apply quiet_set_SR
         | |- quiet _ (set_SP _ _) => apply quiet_set_SP
         | |- quiet _ (set_PC _ _) => apply quiet_set_PC
         | |- quiet _ (set_value _ _) => apply quiet_set_value
         | |- quiet _ (set_address _ _) => apply quiet_set_address
         | |- quiet _ (set_setAcc _ _) => apply quiet_set_setAcc
         | |- quiet _ (SR_or _ _) => apply quiet_SR_or
         | |- quiet _ (SR_andnot _ _) => apply quiet_SR_andnot
         | |- quiet _ (SR_assign _ _ _) => apply quiet_SR_assign
         | |- quiet _ (setSZ _ _) => apply quiet_setSZ
         | |- quiet _ (strobe _ _) => apply quiet_strobe
         | |- quiet _ (writeMem _ _ _) => apply quiet_writeMem
         | |- quiet _ (push _ _) => apply quiet_push
         end;
  try assumption.

Lemma quiet_resolve (m : Mode) (s t : machine) : quiet s t -> quiet s (resolve m t).
Proof.
  intros H. destruct m; cbn [resolve];
    unfold IMP, ACC, IMM, ZPG, ZPX, ZPY, REL, ABS, ABX, ABY, IND, IDX, IDY;
    cbv zeta; run; split_ifs; quiet_peel.
Qed.

Lemma quiet_execute (i : Instr) (s t : machine) : quiet s t -> quiet s (execute i t).
Proof.
  intros H. destruct i; cbn [execute];
    unfold NOP, BRK, CLD, SED, CLC, SEC, CLI, SEI, CLV, LDA, LDX, LDY,
      STA, STX, STY, DEC, DEX, DEY, INC, INX, INY, TAX, TAY, TXA, TYA, TSX,
      TXS, BEQ, BNE, BMI, BPL, BVS, BVC, BCS, BCC, PHA, PLA, PHP, PLP, JMP,
      JSR, RTS, RTI, CMP, CPX, CPY, AND, ORA, EOR, BIT, ASL, LSR, ROL, ROR,
      ADC, SBC, UND, makeUpdates;
    cbv zeta; run; split_ifs; quiet_peel.
Qed.

Lemma quiet_step (s : machine) : quiet s (step s).
Proof.
  rewrite step_eq. cbv zeta.
  apply quiet_execute, quiet_resolve, quiet_strobe.
  apply (quiet_same _ s); [reflexivity..|apply quiet_refl].
Qed.

Lemma quiet_batch (s : machine) : quiet s (batch s).
Proof.
  unfold batch. generalize 100%nat. intros n.
  induction n as [|n IH]; [apply quiet_refl|].
  cbn [Nat.iter]. eapply quiet_trans; [exact IH|apply quiet_step].
Qed.

(** ** What the interpreter never touches *)

Lemma bus_kept_refl (s : machine) : bus_kept s s.
Proof. repeat split. left. reflexivity. Qed.

Lemma strobe_twice (k : Z) : u8 (Z.land (u8 (Z.land k 0x7F)) 0x7F) = u8 (Z.land k 0x7F).
Proof.
  rewrite land_u8_low by lia. rewrite <- Z.land_assoc. reflexivity.
Qed.

Lemma bus_kept_trans (s t u : machine) : bus_kept s t -> bus_kept t u -> bus_kept s u.
Proof.
  intros (R1 & L1 & K1) (R2 & L2 & K2). split; [congruence|]. split; [congruence|].
  destruct K1 as [K1|K1], K2 as [K2|K2]; rewrite K2, K1;
    [left|right|right|right]; try reflexivity.
  apply strobe_twice.
Qed.

Lemma bus_kept_same (s t u : machine) :
  rom u = rom t -> ram u = ram t -> key u = key t ->
  bus_kept s t -> bus_kept s u.
Proof.
  intros Hrom Hram Hkey (R & L & K). unfold bus_kept.
  rewrite Hrom, Hram, Hkey. repeat split; assumption.
Qed.

Lemma bus_kept_strobe (s t : machine) (a : Z) : bus_kept s t -> bus_kept s (strobe t a).
Proof.
  intros H. apply (bus_kept_trans s t); [exact H|].
  unfold strobe. destruct (_ =? _); [|apply bus_kept_refl].
  repeat split. right. reflexivity.
Qed.

Lemma bus_kept_writeMem (s t : machine) (a v : Z) :
  bus_kept s t -> bus_kept s (writeMem t a v).
Proof.
  intros H. apply (bus_kept_trans s t); [exact H|].
  unfold writeMem, bus_kept.
  destruct (nonzero _); destruct (_ <? _); project;
    rewrite ?length_insert; try (repeat split; left; reflexivity);
    destruct (_ =? _); project; repeat split; try (left; reflexivity);
    right; reflexivity.
Qed.

Lemma bus_kept_push (s t : machine) (v : Z) : bus_kept s t -> bus_kept s (push t v).
Proof.
  intros H. unfold push. apply bus_kept_writeMem.
  revert H. apply bus_kept_same; reflexivity.
Qed.

Lemma bus_kept_SR_assign (s t : machine) (m : Z) (c : bool) :
  bus_kept s t -> bus_kept s (SR_assign t m c).
Proof. apply bus_kept_same; destruct c; reflexivity. Qed.

Lemma bus_kept_setSZ (s t : machine) (v : Z) : bus_kept s t -> bus_kept s (setSZ t v).
Proof.
  intros H. rewrite setSZ_assign. apply bus_kept_SR_assign, bus_kept_SR_assign, H.
Qed.

Lemma bus_kept_set_A (s t : machine) (v : Z) : bus_kept s t -> bus_kept s (set_A t v).
Proof. apply bus_kept_same; reflexivity. Qed.
Lemma bus_kept_set_X (s t : machine) (v : Z) : bus_kept s t -> bus_kept s (set_X t v).
Proof. apply bus_kept_same; reflexivity. Qed.
Lemma bus_kept_set_Y (s t : machine) (v : Z) : bus_kept s t -> bus_kept s (set_Y t v).
Proof. apply bus_kept_same; reflexivity. Qed.
Lemma bus_kept_set_SR (s t : machine) (v : Z) : bus_kept s t -> bus_kept s (set_SR t v).
Proof. apply bus_kept_same; reflexivity. Qed.
Lemma bus_kept_set_SP (s t : machine) (v : Z) : bus_kept s t -> bus_kept s (set_SP t v).
Proof. apply bus_kept_same; reflexivity. Qed.
Lemma bus_kept_set_PC (s t : machine) (v : Z) : bus_kept s t -> bus_kept s (set_PC t v).
Proof. apply bus_kept_same; reflexivity. Qed.
Lemma bus_kept_set_value (s t : machine) (v : Z) : bus_kept s t -> bus_kept s (set_value t v).
Proof. apply bus_kept_same; reflexivity. Qed.
Lemma bus_kept_set_address (s t : machine) (v : Z) :
  bus_kept s t -> bus_kept s (set_address t v).
Proof. apply bus_kept_same; reflexivity. Qed.
Lemma bus_kept_set_setAcc (s t : machine) (v : bool) :
  bus_kept s t -> bus_kept s (set_setAcc t v).
Proof. apply bus_kept_same; reflexivity. Qed.
Lemma bus_kept_SR_or (s t : machine) (v : Z) : bus_kept s t -> bus_kept s (SR_or t v).
Proof. apply bus_kept_same; reflexivity. Qed.
Lemma bus_kept_SR_andnot (s t : machine) (v : Z) : bus_kept s t -> bus_kept s (SR_andnot t v).
Proof. apply bus_kept_same; reflexivity. Qed.

Ltac bus_peel :=
  repeat match goal with
         | |- bus_kept _ (set_A _ _) => apply bus_kept_set_A
         | |- bus_kept _ (set_X _ _) => apply bus_kept_set_X
         | |- bus_kept _ (set_Y _ _) => apply bus_kept_set_Y
         | |- bus_kept _ (set_SR _ _) => apply bus_kept_set_SR
         | |- bus_kept _ (set_SP _ _) => apply bus_kept_set_SP
         | |- bus_kept _ (set_PC _ _) => apply bus_kept_set_PC
         | |- bus_kept _ (set_value _ _) => apply bus_kept_set_value
         | |- bus_kept _ (set_address _ _) => apply bus_kept_set_address
         | |- bus_kept _ (set_setAcc _ _) => apply bus_kept_set_setAcc
         | |- bus_kept _ (SR_or _ _) => apply bus_kept_SR_or
         | |- bus_kept _ (SR_andnot _ _) => apply bus_kept_SR_andnot
         | |- bus_kept _ (SR_assign _ _ _) => apply bus_kept_SR_assign
         | |- bus_kept _ (setSZ _ _) => apply bus_kept_setSZ
         | |- bus_kept _ (strobe _ _) => apply bus_kept_strobe
         | |- bus_kept _ (writeMem _ _ _) => apply bus_kept_writeMem
         | |- bus_kept _ (push _ _) => apply bus_kept_push
         end;
  try assumption.

Lemma bus_kept_resolve (m : Mode) (s t : machine) :
  bus_kept s t -> bus_kept s (resolve m t).
Proof.
  intros H. destruct m; cbn [resolve];
    unfold IMP, ACC, IMM, ZPG, ZPX, ZPY, REL, ABS, ABX, ABY, IND, IDX, IDY;
    cbv zeta; run; split_ifs; bus_peel.
Qed.

Lemma bus_kept_execute (i : Instr) (s t : machine) :
  bus_kept s t -> bus_kept s (execute i t).
Proof.
  intros H. destruct i; cbn [execute];
    unfold NOP, BRK, CLD, SED, CLC, SEC, CLI, SEI, CLV, LDA, LDX, LDY,
      STA, STX, STY, DEC, DEX, DEY, INC, INX, INY, TAX, TAY, TXA, TYA, TSX,
      TXS, BEQ, BNE, BMI, BPL, BVS, BVC, BCS, BCC, PHA, PLA, PHP, PLP, JMP,
      JSR, RTS, RTI, CMP, CPX, CPY, AND, ORA, EOR, BIT, ASL, LSR, ROL, ROR,
      ADC, SBC, UND, makeUpdates;
    cbv zeta; run; split_ifs; bus_peel.
Qed.

Lemma bus_kept_step (s : machine) : bus_kept s (step s).
Proof.
  rewrite step_eq. cbv zeta.
  apply bus_kept_execute, bus_kept_resolve, bus_kept_strobe, bus_kept_set_PC,
    bus_kept_refl.
Qed.

Lemma bus_kept_batch (s : machine) : bus_kept s (batch s).
Proof.
  unfold batch. generalize 100%nat. intros n.
  induction n as [|n IH]; [apply bus_kept_refl|].
  cbn [Nat.iter]. eapply bus_kept_trans; [exact IH|apply bus_kept_step].
Qed.

(** X1.  The interpreter, the reset, the keyboard controller and the video
    controller keep the machine well formed: the two arrays keep their sizes
    and hold bytes, and every register and the latch stay in the range of
    their C type. *)
Theorem wf_kept (s : machine) :
  wf s ->
  wf (step s) /\ wf (batch s) /\ wf (reset s) /\
  (forall ch, wf (keyboard s ch)) /\ wf (snd (video s)).
Proof.
  intros H. split; [apply wf_step, H|]. split; [apply wf_batch, H|].
  split; [apply wf_reset, H|]. split; [intros ch; apply wf_keyboard, H|].
  unfold video. destruct (videoNeedsRefresh s); [apply wf_set_videoNeedsRefresh|];
    exact H.
Qed.

Lemma wf_kept_witness :
  wf running /\ wf (step running) /\ wf (batch running) /\ wf (reset running).
Proof.
  assert (W : wf running) by (vm_compute; reflexivity).
  split; [exact W|].
  destruct (wf_kept running W) as (H1 & H2 & H3 & _).
  split; [exact H1|]. split; [exact H2|exact H3].
Defined.

(** X2.  Whatever it executes, the interpreter never changes the ROM or the
    size of the RAM, and all it can do to the keyboard latch is to clear its
    bit 7; the same holds of a whole batch. *)
Theorem step_keeps_rom_and_key (s : machine) :
  (rom (step s) = rom s /\
   length (ram (step s)) = length (ram s) /\
   (key (step s) = key s \/ key (step s) = u8 (Z.land (key s) 0x7F))) /\
  (rom (batch s) = rom s /\
   length (ram (batch s)) = length (ram s) /\
   (key (batch s) = key s \/ key (batch s) = u8 (Z.land (key s) 0x7F))).
Proof. split; [apply bus_kept_step|apply bus_kept_batch]. Qed.

(** ** The video controller *)

Lemma distinct_NoDup (l : list Z) : distinct l = true -> List.NoDup l.
Proof.
  induction l as [|x l IH]; intros H; [constructor|].
  cbn [distinct] in H. apply andb_true_iff in H. destruct H as [Hx Hl].
  constructor; [|apply IH, Hl].
  intros Hin. apply negb_true_iff in Hx.
  assert (E : existsb (Z.eqb x) l = true).
  { apply existsb_exists. exists x. split; [exact Hin|apply Z.eqb_refl]. }
  congruence.
Qed.

Lemma cells_checked :
  forallb (fun a => (0x400 <=? a) && (a <? 0x800) && dirties a) cells = true.
Proof. vm_compute. reflexivity. Qed.

Lemma cell_dirties (a : Z) : In a cells -> 0x400 <= a < 0x800 /\ dirties a = true.
Proof.
  intros H. pose proof cells_checked as C. rewrite forallb_forall in C.
  apply C in H. apply andb_true_iff in H. destruct H as [H D].
  apply andb_true_iff in H. split; [lia|exact D].
Qed.

(** X3.  The row table of the video controller addresses 24 rows of 40 cells:
    960 different bytes, all within text page 1 ([0x0400] to [0x07FF]), and
    every one of them at an address that sets the video-dirty flag when it
    is written. *)
Theorem text_page_layout :
  length cells = 960%nat /\
  List.NoDup cells /\
  Forall (fun a => 0x400 <= a < 0x800 /\
                   forall s v, videoNeedsRefresh (writeMem s a v) = true) cells.
Proof.
  split; [reflexivity|]. split; [apply distinct_NoDup; vm_compute; reflexivity|].
  apply List.Forall_forall. intros a Ha.
  destruct (cell_dirties a Ha) as (R & D). split; [exact R|].
  intros s v. unfold writeMem. fold (dirties (u16 a)).
  rewrite dirties_u16, D.
  destruct (_ <? _); [reflexivity|]. destruct (_ =? _); reflexivity.
Qed.

Lemma flat_map_agree {E F : Type} (f g : E -> list F) (l : list E) :
  (forall x, In x l -> f x = g x) -> flat_map f l = flat_map g l.
Proof.
  induction l as [|x l IH]; intros H; [reflexivity|].
  cbn [flat_map]. rewrite (H x) by (left; reflexivity).
  rewrite IH; [reflexivity|]. intros y Hy. apply H. right. exact Hy.
Qed.

(** The refresh depends on the cells only. *)
Lemma draw_agree (s t : machine) :
  (forall a, In a cells -> ram t !!! Z.to_nat a = ram s !!! Z.to_nat a) ->
  draw t = draw s.
Proof.
  intros H. unfold draw, draw_row. f_equal.
  apply flat_map_agree. intros row Hrow. f_equal.
  apply flat_map_agree. intros col Hcol. f_equal.
  apply H. unfold cells. apply in_flat_map. exists row. split; [exact Hrow|].
  apply in_map_iff. exists col. split; [reflexivity|exact Hcol].
Qed.

Lemma quiet_draw (s t : machine) :
  quiet s t -> videoNeedsRefresh t = false -> draw t = draw s.
Proof.
  intros Q H. destruct (Q H) as (_ & R). apply draw_agree.
  intros a Ha. destruct (cell_dirties a Ha) as (Ra & D). apply R; [lia|exact D].
Qed.

(** X4.  An instruction never clears the video-dirty flag, and when the flag
    is clear after an instruction, or after a whole batch, no byte of [ram]
    at an address with bit 10 set has changed, so that a refresh would make
    the same calls as before: no write to the text page goes unnoticed. *)
Theorem refresh_never_missed (s t : machine) :
  t = step s \/ t = batch s ->
  (videoNeedsRefresh s = true -> videoNeedsRefresh t = true) /\
  (videoNeedsRefresh t = false ->
   (forall a, 0 <= a < 65536 -> Z.land a 0x400 <> 0 ->
              ram t !!! Z.to_nat a = ram s !!! Z.to_nat a) /\
   draw t = draw s).
Proof.
  intros Ht.
  assert (Q : quiet s t).
  { destruct Ht as [-> | ->]; [apply quiet_step|apply quiet_batch]. }
  split.
  - intros Hs. destruct (videoNeedsRefresh t) eqn:E; [reflexivity|].
    destruct (Q E) as (Hs' & _). congruence.
  - intros H. split; [|apply (quiet_draw s t Q H)].
    destruct (Q H) as (_ & R). intros a Ha Hd. apply R; [exact Ha|].
    unfold dirties, nonzero. apply negb_true_iff, Z.eqb_neq. exact Hd.
Qed.

Lemma refresh_never_missed_witness :
  videoNeedsRefresh (step (refreshed running)) = false /\
  draw (step (refreshed running)) = draw (refreshed running).
Proof.
  assert (H : videoNeedsRefresh (step (refreshed running)) = false)
    by (vm_compute; reflexivity).
  split; [exact H|].
  apply (refresh_never_missed (refreshed running) (step (refreshed running)));
    [left; reflexivity|exact H].
Defined.

Lemma video_fresh (s : machine) (shown : list Curses) :
  (videoNeedsRefresh s = false -> shown = draw s) ->
  videoNeedsRefresh (snd (video s)) = false /\
  show shown (fst (video s)) = draw (snd (video s)).
Proof.
  intros F. unfold video. destruct (videoNeedsRefresh s) eqn:E; cbn [fst snd].
  - split; reflexivity.
  - split; [exact E|]. apply F. reflexivity.
Qed.

(** X5.  The terminal is up to date at the end of every turn of the main
    loop.  If, when the turn starts, the terminal shows what a refresh would
    draw unless the video-dirty flag is set, then when the turn ends the flag
    is clear and the terminal shows what a refresh would draw from the RAM
    as it then is, whether the video controller has redrawn or not. *)
Theorem display_up_to_date (ERR KEY_F7 KEY_F12 : Z) (s s' : machine) (ch : Z)
    (shown out : list Curses) :
  (videoNeedsRefresh s = false -> shown = draw s) ->
  turn ERR KEY_F7 KEY_F12 s ch = Some (out, s') ->
  videoNeedsRefresh s' = false /\ show shown out = draw s'.
Proof.
  intros F T. unfold turn in T. cbv zeta in T.
  assert (F1 : videoNeedsRefresh (batch s) = false -> shown = draw (batch s)).
  { intros H. destruct (quiet_batch s H) as (Hs & _).
    rewrite (quiet_draw s (batch s) (quiet_batch s) H). apply F, Hs. }
  assert (Fin : forall u, (videoNeedsRefresh u = false -> shown = draw u) ->
                          Some (video u) = Some (out, s') ->
                          videoNeedsRefresh s' = false /\ show shown out = draw s').
  { intros u Fu E. injection E as E. destruct (video_fresh u shown Fu) as (H1 & H2).
    rewrite E in H1, H2. exact (conj H1 H2). }
  destruct (ch =? ERR); [apply (Fin _ F1 T)|].
  destruct (ch =? KEY_F12); [discriminate T|].
  apply (Fin (keyboard (if ch =? KEY_F7 then reset (batch s) else batch s) ch));
    [|exact T].
  assert (E : forall u, ram (keyboard u ch) = ram u /\
                        videoNeedsRefresh (keyboard u ch) = videoNeedsRefresh u).
  { intros u. unfold keyboard. cbv zeta. split_ifs; split; reflexivity. }
  assert (R : forall u, ram (reset u) = ram u /\
                        videoNeedsRefresh (reset u) = videoNeedsRefresh u).
  { intros u. unfold reset. run. strobe_norm. split; reflexivity. }
  intros H. destruct (E (if ch =? KEY_F7 then reset (batch s) else batch s)) as (E1 & E2).
  rewrite E2 in H.
  assert (D : forall u v, ram v = ram u -> draw v = draw u).
  { intros u v Huv. apply draw_agree. intros a _. rewrite Huv. reflexivity. }
  rewrite (D _ _ E1).
  destruct (ch =? KEY_F7).
  - destruct (R (batch s)) as (R1 & R2). rewrite R2 in H. rewrite (D _ _ R1).
    apply F1, H.
  - apply F1, H.
Qed.

Lemma display_up_to_date_witness :
  match turn (-1) 271 276 power_on (-1) with
  | Some (out, s') => videoNeedsRefresh s' = false /\ show [] out = draw s'
  | None => False
  end.
Proof.
  destruct (turn (-1) 271 276 power_on (-1)) as [[out s']|] eqn:E.
  - apply (display_up_to_date (-1) 271 276 power_on s' (-1) [] out);
      [intros H; vm_compute in H; discriminate H|exact E].
  - change (turn (-1) 271 276 power_on (-1)) with (Some (video (batch power_on))) in E.
    discriminate E.
Defined.

(** X6.  Whatever byte the text page holds, the video controller sets one
    attribute and prints one character, and the character is a printable
    ASCII one from [0x20] to [0x5F]: bytes below [0x40] are shown in reverse
    video, bytes from [0x80] in normal video, the others flashing; a byte
    from [0xA0] to [0xDF] prints as itself without its bit 7, a byte below
    [0x20] as the letter [0x40] above it, and the backquote as an
    underscore. *)
Theorem draw_glyph_printable (g : Z) :
  0 <= g < 256 ->
  exists a c,
    draw_glyph g = [attrset a; addch c] /\
    0x20 <= c <= 0x5F /\
    (g < 0x40 -> a = A_REVERSE) /\
    (0x40 <= g < 0x80 -> a = A_BLINK) /\
    (0x80 <= g -> a = A_NORMAL) /\
    (0xA0 <= g <= 0xDF -> c = g - 0x80) /\
    (g < 0x20 -> c = g + 0x40) /\
    (g = 0x60 -> c = 0x5F).
Proof.
  intros Hg.
  assert (G : match draw_glyph g with
              | [attrset a; addch c] =>
                  (0x20 <=? c) && (c <=? 0x5F) &&
                  implb (g <? 0x40) (match a with A_REVERSE => true | _ => false end) &&
                  implb ((0x40 <=? g) && (g <? 0x80))
                        (match a with A_BLINK => true | _ => false end) &&
                  implb (0x80 <=? g) (match a with A_NORMAL => true | _ => false end) &&
                  implb ((0xA0 <=? g) && (g <=? 0xDF)) (c =? g - 0x80) &&
                  implb (g <? 0x20) (c =? g + 0x40) &&
                  implb (g =? 0x60) (c =? 0x5F)
              | _ => false
              end = true).
  { revert g Hg. apply forall_byte. vm_compute. reflexivity. }
  destruct (draw_glyph g) as [|[| a |] [|[| | c] [|]]]; try discriminate G.
  exists a, c. split; [reflexivity|].
  assert (I : forall b d : bool, implb b d = true -> b = true -> d = true)
    by (intros [] []; cbn; congruence).
  apply andb_true_iff in G; destruct G as [G H8].
  apply andb_true_iff in G; destruct G as [G H7].
  apply andb_true_iff in G; destruct G as [G H6].
  apply andb_true_iff in G; destruct G as [G H5].
  apply andb_true_iff in G; destruct G as [G H4].
  apply andb_true_iff in G; destruct G as [G H3].
  apply andb_true_iff in G; destruct G as [H1 H2].
  split; [lia|].
  split; [intros L; assert (T := I _ _ H3 ltac:(apply Z.ltb_lt; lia));
          destruct a; try discriminate T; reflexivity|].
  split; [intros L;
          assert (T := I _ _ H4 ltac:(apply andb_true_iff; split;
                                      [apply Z.leb_le|apply Z.ltb_lt]; lia));
          destruct a; try discriminate T; reflexivity|].
  split; [intros L; assert (T := I _ _ H5 ltac:(apply Z.leb_le; lia));
          destruct a; try discriminate T; reflexivity|].
  split; [intros L;
          assert (T := I _ _ H6 ltac:(apply andb_true_iff; split;
                                      apply Z.leb_le; lia));
          apply Z.eqb_eq in T; exact T|].
  split; [intros L; assert (T := I _ _ H7 ltac:(apply Z.ltb_lt; lia));
          apply Z.eqb_eq in T; exact T|].
  intros L. assert (T := I _ _ H8 ltac:(apply Z.eqb_eq; lia)).
  apply Z.eqb_eq in T. exact T.
Qed.

Lemma draw_glyph_printable_witness :
  draw_glyph 0xC1 = [attrset A_NORMAL; addch 0x41] /\
  draw_glyph 0x01 = [attrset A_REVERSE; addch 0x41].
Proof.
  split.
  - destruct (draw_glyph_printable 0xC1) as (a & c & E & _ & _ & _ & Ha & Hc & _);
      [lia|].
    rewrite E, Ha, Hc by lia. reflexivity.
  - destruct (draw_glyph_printable 0x01) as (a & c & E & _ & Ha & _ & _ & _ & Hc & _);
      [lia|].
    rewrite E, Ha, Hc by lia. reflexivity.
Defined.

(** ** The bus, the ROM image and the reset *)

(** X7.  A byte written to RAM is the byte read back; a write to an address
    outside RAM stores nothing; and a write changes what a read of another
    address returns only when it is a write to [0xC010] and the read is of
    [0xC000], the latch having lost its bit 7. *)
Theorem write_then_read (s : machine) (a v b : Z) :
  wf s ->
  0 <= a < 65536 -> 0 <= b < 65536 ->
  (a < RAMSIZE -> peek (writeMem s a v) a = u8 v) /\
  (RAMSIZE <= a -> ram (writeMem s a v) = ram s /\ rom (writeMem s a v) = rom s /\
                   peek (writeMem s a v) a = peek s a) /\
  (b <> a -> ~ (a = 0xC010 /\ b = 0xC000) ->
   peek (writeMem s a v) b = peek s b) /\
  wf (writeMem s a v).
Proof.
  intros Hwf Ha Hb.
  pose proof (wf_writeMem s a v Hwf) as Hwf'.
  apply wf_ranges in Hwf.
  destruct Hwf as (_ & Hram & _ & _ & _ & _ & _ & _ & _ & _ & _ & _ & Hk).
  unfold RAMSIZE in *.
  assert (V : forall u c, peek (set_videoNeedsRefresh u true) c = peek u c)
    by (intros; apply peek_set_videoNeedsRefresh).
  repeat split; try exact Hwf'.
  - intros Lt. rewrite peek_ram by (unfold RAMSIZE; lia).
    unfold writeMem, RAMSIZE. rewrite (u16_small a) by lia.
    destruct (nonzero _); zbool; try lia; project;
      apply list_lookup_total_insert_eq; lia.
  - unfold writeMem, RAMSIZE. rewrite (u16_small a) by lia.
    destruct (nonzero _); zbool; try lia; reflexivity.
  - unfold writeMem, RAMSIZE. rewrite (u16_small a) by lia.
    destruct (nonzero _); zbool; try lia; reflexivity.
  - unfold writeMem, RAMSIZE. rewrite (u16_small a) by lia.
    unfold peek, readMem, RAMSIZE, ROMSTART. rewrite (u16_small a) by lia.
    destruct (nonzero _); zbool; try lia; project; try reflexivity;
      cbn [fst]; apply strobe_twice.
  - intros Nab Nio. unfold writeMem, RAMSIZE. rewrite (u16_small a) by lia.
    unfold peek, readMem, RAMSIZE, ROMSTART. rewrite (u16_small b) by lia.
    destruct (nonzero _); zbool; try lia; project; try reflexivity;
      try (apply list_lookup_total_insert_ne; lia);
      try (exfalso; apply Nio; split; assumption).
Qed.

Lemma write_then_read_witness :
  wf running /\
  peek (writeMem running 0x0400 0x1C1) 0x0400 = 0xC1 /\
  peek (writeMem running 0xD000 0xFF) 0xD000 = 0x00 /\
  peek (writeMem running 0x0400 0xC1) 0x0300 = 0xAD.
Proof.
  assert (W : wf running) by (vm_compute; reflexivity).
  split; [exact W|].
  split; [|split].
  - destruct (write_then_read running 0x0400 0x1C1 0 W) as (H & _); [lia|lia|].
    rewrite H by (vm_compute; reflexivity). reflexivity.
  - destruct (write_then_read running 0xD000 0xFF 0 W) as (_ & H & _); [lia|lia|].
    destruct H as (_ & _ & H); [vm_compute; discriminate|].
    rewrite H. vm_compute. reflexivity.
  - destruct (write_then_read running 0x0400 0xC1 0x0300 W) as (_ & _ & H & _);
      [lia|lia|].
    rewrite H; [vm_compute; reflexivity|lia|lia].
Defined.

Lemma forallb_app_byte (l1 l2 : list Z) :
  forallb byteb l1 = true -> forallb byteb l2 = true ->
  forallb byteb (l1 ++ l2) = true.
Proof. intros H1 H2. rewrite forallb_app, H1, H2. reflexivity. Qed.

Lemma forallb_take_byte (l : list Z) (n : nat) :
  forallb byteb l = true -> forallb byteb (take n l) = true.
Proof.
  revert n. induction l as [|x l IH]; intros [|n] H; try reflexivity.
  cbn [forallb] in *. apply andb_true_iff in H. destruct H as [Hx Hl].
  cbn [take forallb]. rewrite Hx. apply IH, Hl.
Qed.

Lemma forallb_drop_byte (l : list Z) (n : nat) :
  forallb byteb l = true -> forallb byteb (drop n l) = true.
Proof.
  revert n. induction l as [|x l IH]; intros [|n] H; try reflexivity; [exact H|].
  cbn [forallb] in H. apply andb_true_iff in H. destruct H as [Hx Hl].
  cbn [drop]. apply IH, Hl.
Qed.

(** X8.  Loading a ROM image of any length: the first [ROMSIZE] bytes of the
    file, and no more, appear from [0xD000] on; a short file leaves the rest
    of the ROM as it was; the RAM is not touched and the machine stays well
    formed. *)
Theorem load_rom_image (s : machine) (file : list Z) (i : Z) :
  wf s -> forallb byteb file = true ->
  0 <= i < ROMSIZE ->
  peek (load_rom s file) (ROMSTART + i) =
    (if i <? Z.of_nat (length file) then file !!! Z.to_nat i
     else rom s !!! Z.to_nat i) /\
  ram (load_rom s file) = ram s /\
  wf (load_rom s file).
Proof.
  intros Hwf Hfile Hi.
  apply wf_ranges in Hwf.
  destruct Hwf as (Hrom & Hram & Brom & Bram & ? & ? & ? & ? & ? & ? & ? & ? & ?).
  unfold ROMSIZE, ROMSTART in *.
  assert (Lt : length (take (Z.to_nat 0x3000) file)
               = Nat.min (Z.to_nat 0x3000) (length file)) by apply length_take.
  split; [|split; [reflexivity|]].
  - rewrite peek_rom by (unfold ROMSTART; lia).
    unfold load_rom, ROMSIZE, ROMSTART. project.
    replace (53248 + i - 53248) with i by lia.
    destruct (Z.ltb_spec i (Z.of_nat (length file))).
    + rewrite lookup_total_app_l by lia.
      apply lookup_total_take_lt. lia.
    + rewrite lookup_total_app_r by lia.
      rewrite lookup_total_drop. f_equal. lia.
  - apply wf_intro; unfold load_rom, ROMSIZE, RAMSIZE; project; try assumption.
    + rewrite length_app, length_drop. lia.
    + apply forallb_app_byte; [apply forallb_take_byte|apply forallb_drop_byte];
        assumption.
Qed.

Lemma load_rom_image_witness :
  peek (load_rom power_on [0x4C; 0x00; 0xD0]) 0xD002 = 0xD0 /\
  peek (load_rom power_on [0x4C; 0x00; 0xD0]) 0xD003 = 0x00.
Proof.
  assert (W : wf power_on) by (vm_compute; reflexivity).
  split.
  - destruct (load_rom_image power_on [0x4C; 0x00; 0xD0] 2 W) as (H & _);
      [reflexivity|vm_compute; split; [discriminate|reflexivity]|].
    exact H.
  - destruct (load_rom_image power_on [0x4C; 0x00; 0xD0] 3 W) as (H & _);
      [reflexivity|vm_compute; split; [discriminate|reflexivity]|].
    refine (eq_trans H _). vm_compute. reflexivity.
Defined.

(** X9.  A reset loads PC from the little-endian vector at [0xFFFC/0xFFFD],
    sets SP to [0xFF], sets the U flag and no other, and clears the operand
    record; [A], [X], [Y], both arrays, the latch and the video-dirty flag
    are what they were. *)
Theorem reset_effect (s : machine) :
  wf s ->
  PC (reg (reset s)) = Z.lor (peek s 0xFFFC) (Z.shiftl (peek s 0xFFFD) 8) /\
  SP (reg (reset s)) = 0xFF /\
  SR (reg (reset s)) = Z.lor (SR (reg s)) UNDEFINED /\
  (forall m, is_mask m = true ->
             flag m (reset s) = if m =? UNDEFINED then true else flag m s) /\
  ope (reset s) = mkOperand false 0 0 /\
  A (reg (reset s)) = A (reg s) /\ X (reg (reset s)) = X (reg s) /\
  Y (reg (reset s)) = Y (reg s) /\
  ram (reset s) = ram s /\ rom (reset s) = rom s /\ key (reset s) = key s /\
  videoNeedsRefresh (reset s) = videoNeedsRefresh s.
Proof.
  intros Hwf.
  pose proof (peek_byte s 0xFFFC Hwf) as Hlo.
  pose proof (peek_byte s 0xFFFD Hwf) as Hhi.
  apply wf_ranges in Hwf.
  destruct Hwf as (_ & _ & _ & _ & _ & _ & _ & _ & _ & Hsr & _).
  unfold reset. run.
  change (strobe ?x 0xFFFC) with x. change (strobe ?x 0xFFFD) with x.
  unfold SR_or, flag. project.
  split; [apply u16_small, word_of_bytes; assumption|].
  split; [reflexivity|].
  split; [apply SR_or_byte; [assumption|reflexivity]|].
  split.
  { intros m Hm.
    change (Z.lor (SR (reg s)) UNDEFINED) with (sr_upd (SR (reg s)) UNDEFINED true).
    apply sr_upd_flag; [assumption|exact Hm|reflexivity]. }
  repeat split.
Qed.

Lemma reset_effect_witness :
  PC (reg (reset (with_vector power_on 0xFFFC 0x34 0x12))) = 0x1234 /\
  SP (reg (reset (with_vector power_on 0xFFFC 0x34 0x12))) = 0xFF /\
  SR (reg (reset (with_vector power_on 0xFFFC 0x34 0x12))) = 0x20.
Proof.
  assert (W : wf (with_vector power_on 0xFFFC 0x34 0x12)) by (vm_compute; reflexivity).
  destruct (reset_effect _ W) as (H1 & H2 & H3 & _).
  split; [refine (eq_trans H1 _); vm_compute; reflexivity|].
  split; [exact H2|].
  refine (eq_trans H3 _); vm_compute; reflexivity.
Defined.

(** ** The stack *)

(** X10.  The stack is last in, first out, and lives in page one.  Two bytes
    pushed are pulled in the reverse order, whatever SP is (it wraps around
    within the page), SP is then back to its value, and the RAM has changed
    at the two stack addresses only; nothing else of the machine changes. *)
Theorem push_pull_lifo (s : machine) (v w : Z) :
  wf s ->
  let sp := SP (reg s) in
  let t := push (push s v) w in
  let '(x, t1) := pull t in
  let '(y, t2) := pull t1 in
  x = u8 w /\ y = u8 v /\
  SP (reg t) = u8 (sp - 2) /\ SP (reg t2) = sp /\
  (forall a, 0 <= a < RAMSIZE ->
             a <> 0x100 + sp -> a <> 0x100 + u8 (sp - 1) ->
             ram t2 !!! Z.to_nat a = ram s !!! Z.to_nat a) /\
  rom t2 = rom s /\ key t2 = key s /\ ope t2 = ope s /\
  videoNeedsRefresh t2 = videoNeedsRefresh s /\
  A (reg t2) = A (reg s) /\ X (reg t2) = X (reg s) /\ Y (reg t2) = Y (reg s) /\
  SR (reg t2) = SR (reg s) /\ PC (reg t2) = PC (reg s).
Proof.
  intros Hwf sp t. subst t.
  apply wf_ranges in Hwf.
  destruct Hwf as (_ & Hram & _ & _ & _ & _ & _ & _ & _ & _ & Hsp & _).
  fold sp in Hsp. unfold RAMSIZE in *.
  rewrite (push_eq s) by assumption.
  rewrite push_eq by (project; apply u8_range). project. fold sp.
  rewrite pull_eq. rewrite pull_eq. project.
  pose proof (u8_range (sp - 1)) as R1.
  replace (u8 (u8 (u8 (sp - 1) - 1) + 1)) with (u8 (sp - 1)) by wrap_lia.
  replace (u8 (u8 (u8 (u8 (sp - 1) - 1) + 1) + 1)) with sp by wrap_lia.
  replace (u8 (u8 (sp - 1) + 1)) with sp by wrap_lia.
  assert (N : u8 (sp - 1) <> sp) by wrap_lia.
  split; [ram_lookup; reflexivity|].
  split; [ram_lookup; reflexivity|].
  split; [wrap_lia|].
  split; [reflexivity|].
  split; [intros a Ha N1 N2; ram_lookup; reflexivity|].
  repeat split.
Qed.

Lemma push_pull_lifo_witness :
  fst (pull (push (push brk_state 0x11) 0x22)) = 0x22 /\
  fst (pull (snd (pull (push (push brk_state 0x11) 0x22)))) = 0x11 /\
  SP (reg (push (push brk_state 0x11) 0x22)) = 0xFF.
Proof.
  assert (W : wf brk_state) by (vm_compute; reflexivity).
  pose proof (push_pull_lifo brk_state 0x11 0x22 W) as H. cbv zeta in H.
  destruct (pull (push (push brk_state 0x11) 0x22)) as [x t1]. cbn [fst snd].
  destruct (pull t1) as [y t2]. cbn [fst snd].
  destruct H as (H1 & H2 & H3 & _).
  split; [exact H1|]. split; [exact H2|].
  refine (eq_trans H3 _). vm_compute. reflexivity.
Defined.

(** X11.  [PHA] followed by [PLA] restores [A] and SP and sets Z and N from
    [A]; [PHP] followed by [PLP] restores SP and gives back SR with the B and
    U bits set, the other six flags being what they were. *)
Theorem push_pull_register (s : machine) :
  wf s ->
  (A (reg (PLA (PHA s))) = A (reg s) /\
   SP (reg (PLA (PHA s))) = SP (reg s) /\
   flag ZERO (PLA (PHA s)) = (A (reg s) =? 0) /\
   flag SIGN (PLA (PHA s)) = Z.testbit (A (reg s)) 7) /\
  (SR (reg (PLP (PHP s))) = Z.lor (SR (reg s)) (Z.lor BREAK UNDEFINED) /\
   SP (reg (PLP (PHP s))) = SP (reg s) /\
   (forall m, is_mask m = true -> m <> BREAK -> m <> UNDEFINED ->
              flag m (PLP (PHP s)) = flag m s)).
Proof.
  intros Hwf. apply wf_ranges in Hwf.
  destruct Hwf as (_ & Hram & _ & _ & _ & _ & HA & _ & _ & Hsr & Hsp & _).
  unfold RAMSIZE in *.
  assert (Esp : u8 (u8 (SP (reg s) - 1) + 1) = SP (reg s)) by wrap_lia.
  split.
  - unfold PLA, PHA. rewrite push_eq by assumption. rewrite pull_eq.
    cbv beta iota. project. rewrite Esp. ram_lookup.
    rewrite setSZ_assign, !SR_assign_set. unfold flag. project.
    rewrite !sr_upd_flag by flag_side.
    rewrite !u8_small by (try apply u8_range; assumption).
    cbn [Z.eqb Pos.eqb ZERO SIGN].
    rewrite ?(u8_small (A (reg s))) by assumption.
    split; [reflexivity|]. split; [exact Esp|].
    split; [unfold nonzero; apply negb_involutive|apply nonzero_bit7].
  - unfold PLP, PHP. rewrite push_eq by assumption. rewrite pull_eq.
    cbv beta iota. project. rewrite Esp. ram_lookup.
    assert (E : u8 (Z.lor (u8 (Z.lor (SR (reg s)) BREAK)) UNDEFINED)
                = Z.lor (SR (reg s)) (Z.lor BREAK UNDEFINED)).
    { apply Z.eqb_eq. revert Hsr. generalize (SR (reg s)).
      apply forall_byte. vm_compute. reflexivity. }
    split; [exact E|]. split; [first [exact Esp|reflexivity]|].
    intros m Hm N1 N2. unfold flag. project.
    change (Z.lor (SR (reg s)) BREAK) with (sr_upd (SR (reg s)) BREAK true).
    change (Z.lor ?x UNDEFINED) with (sr_upd x UNDEFINED true).
    rewrite !sr_upd_flag by flag_side.
    destruct (Z.eqb_spec m UNDEFINED); [contradiction|].
    destruct (Z.eqb_spec m BREAK); [contradiction|]. reflexivity.
Qed.

Lemma push_pull_register_witness :
  A (reg (PLA (PHA adc_binary))) = 0x50 /\
  SR (reg (PLP (PHP adc_decimal))) = 0x38.
Proof.
  assert (W1 : wf adc_binary) by (vm_compute; reflexivity).
  assert (W2 : wf adc_decimal) by (vm_compute; reflexivity).
  destruct (push_pull_register adc_binary W1) as ((H1 & _) & _).
  destruct (push_pull_register adc_decimal W2) as (_ & (H2 & _)).
  split; [refine (eq_trans H1 _); vm_compute; reflexivity|].
  refine (eq_trans H2 _); vm_compute; reflexivity.
Defined.

(** ** Operand resolution *)

Lemma peek_strobe_same (s : machine) (a : Z) : peek (strobe s a) a = peek s a.
Proof.
  destruct (Z.eq_dec (u16 a) 0xC010) as [E|N].
  - unfold strobe. rewrite E. cbn [Z.eqb Pos.eqb].
    rewrite <- (peek_u16 _ a), <- (peek_u16 s a), E.
    change (u8 (Z.land (u8 (Z.land (key s) 0x7F)) 0x7F) = u8 (Z.land (key s) 0x7F)).
    apply strobe_twice.
  - rewrite strobe_id by exact N. reflexivity.
Qed.

Lemma strobe_u16 (s : machine) (a : Z) : strobe s (u16 a) = strobe s a.
Proof. unfold strobe. replace (u16 (u16 a)) with (u16 a) by wrap_lia. reflexivity. Qed.

Lemma PC_SR_assign (s : machine) (m : Z) (c : bool) :
  PC (reg (SR_assign s m c)) = PC (reg s).
Proof. destruct c; reflexivity. Qed.

Lemma PC_setSZ (s : machine) (v : Z) : PC (reg (setSZ s v)) = PC (reg s).
Proof. rewrite setSZ_assign, !PC_SR_assign. reflexivity. Qed.

Lemma PC_push (s : machine) (v : Z) : PC (reg (push s v)) = PC (reg s).
Proof. unfold push. rewrite reg_writeMem. reflexivity. Qed.

Ltac pc_norm :=
  repeat (progress (project;
                    rewrite ?reg_strobe, ?reg_writeMem, ?PC_setSZ, ?PC_SR_assign,
                      ?PC_push)).

Lemma resolve_PC (m : Mode) (s : machine) :
  0 <= PC (reg s) < 65536 ->
  PC (reg (resolve m s)) = u16 (PC (reg s) + operand_bytes m).
Proof.
  intros H. destruct m; cbn [resolve operand_bytes];
    unfold IMP, ACC, IMM, ZPG, ZPX, ZPY, REL, ABS, ABX, ABY, IND, IDX, IDY;
    cbv zeta; run; split_ifs; pc_norm;
    rewrite ?Z.add_0_r, ?(u16_small (PC (reg s))) by exact H; reflexivity.
Qed.

Lemma execute_PC (i : Instr) (s : machine) :
  is_jump i = false -> PC (reg (execute i s)) = PC (reg s).
Proof.
  intros H. destruct i; try discriminate H; cbn [execute];
    unfold NOP, CLD, SED, CLC, SEC, CLI, SEI, CLV, LDA, LDX, LDY,
      STA, STX, STY, DEC, DEX, DEY, INC, INX, INY, TAX, TAY, TXA, TYA, TSX,
      TXS, PHA, PLA, PHP, PLP, CMP, CPX, CPY, AND, ORA, EOR, BIT, ASL, LSR,
      ROL, ROR, ADC, SBC, UND, makeUpdates, SR_or, SR_andnot;
    cbv zeta; run; split_ifs; pc_norm; reflexivity.
Qed.

(** X12.  An instruction that is not a jump, a branch, a call or a return
    moves PC past itself: by one byte for the opcode and by the number of
    operand bytes of its addressing mode, modulo 2^16. *)
Theorem step_length (s : machine) :
  wf s ->
  let op := peek s (PC (reg s)) in
  is_jump (nth (Z.to_nat op) instruction i_UND) = false ->
  PC (reg (step s)) =
    u16 (PC (reg s) + 1 + operand_bytes (nth (Z.to_nat op) addressing m_IMP)).
Proof.
  intros Hwf op Hj. subst op. pose proof (peek_byte s (PC (reg s)) Hwf) as Hb.
  rewrite step_eq. cbv zeta. rewrite (u8_small _ Hb).
  rewrite execute_PC by exact Hj.
  rewrite resolve_PC by (rewrite reg_strobe; project; apply u16_range).
  rewrite reg_strobe. project. wrap_lia.
Qed.

Lemma step_length_witness :
  PC (reg (step kbd_state)) = 0x0303 /\
  PC (reg (step at_undocumented)) = 0x0301.
Proof.
  assert (W1 : wf kbd_state) by (vm_compute; reflexivity).
  assert (W2 : wf at_undocumented) by (vm_compute; reflexivity).
  split.
  - refine (eq_trans (step_length kbd_state W1 _) _); vm_compute; reflexivity.
  - refine (eq_trans (step_length at_undocumented W2 _) _); vm_compute; reflexivity.
Defined.

(** X13.  Every addressing mode that has an operand in memory leaves in
    [ope.value] the byte found at [ope.address]; it changes no register but
    PC, no flag, no byte of either array, and not the video-dirty flag. *)
Theorem resolve_reads_operand (m : Mode) (s : machine) :
  wf s ->
  let t := resolve m s in
  (reads_operand m = true -> value (ope t) = peek t (address (ope t))) /\
  A (reg t) = A (reg s) /\ X (reg t) = X (reg s) /\ Y (reg t) = Y (reg s) /\
  SP (reg t) = SP (reg s) /\ SR (reg t) = SR (reg s) /\
  ram t = ram s /\ rom t = rom s /\
  videoNeedsRefresh t = videoNeedsRefresh s.
Proof.
  intros Hwf t.
  assert (Wt : wf t) by (apply wf_resolve, Hwf).
  split.
  - intros Hm.
    assert (E : value (ope t) = u16 (peek t (address (ope t)))).
    { subst t. destruct m; try discriminate Hm; cbn [resolve];
        unfold IMM, ZPG, ZPX, ZPY, ABS, ABX, ABY, IND, IDX, IDY;
        cbv zeta; run; strobe_norm;
        repeat (progress (peek_norm;
                          rewrite ?strobe_u16, ?peek_u16, ?peek_strobe_same));
        reflexivity. }
    rewrite E. apply u16_small.
    pose proof (peek_byte t (address (ope t)) Wt). lia.
  - subst t. destruct m; cbn [resolve];
      unfold IMP, ACC, IMM, ZPG, ZPX, ZPY, REL, ABS, ABX, ABY, IND, IDX, IDY;
      cbv zeta; run; split_ifs; strobe_norm; repeat split.
Qed.

Lemma resolve_reads_operand_witness :
  value (ope (resolve m_ABS (set_PC kbd_state 0x0301))) = 0xC1.
Proof.
  assert (W : wf (set_PC kbd_state 0x0301)) by (vm_compute; reflexivity).
  destruct (resolve_reads_operand m_ABS (set_PC kbd_state 0x0301) W) as (H & _).
  refine (eq_trans (H _) _); vm_compute; reflexivity.
Defined.

Lemma peek_zero_page (s t : machine) (i : Z) :
  ram t = ram s -> peek t (i mod 256) = zero_page s i.
Proof.
  intros H. pose proof (Z.mod_pos_bound i 256 ltac:(lia)).
  rewrite peek_ram by (unfold RAMSIZE; lia). rewrite H. reflexivity.
Qed.

Lemma IDY_vector2 (b : Z) :
  0 <= b < 256 ->
  u16 (Z.lor (Z.land (u16 b) 0xFF00) (Z.land (u16 b + 1) 0x00FF)) = (b + 1) mod 256.
Proof.
  intros H. apply Z.eqb_eq. revert b H. apply forall_byte. vm_compute. reflexivity.
Qed.

(** X14.  Zero-page addressing never leaves page zero.  With [b] the operand
    byte: [ZPX] and [ZPY] address byte [(b + X) mod 256] and
    [(b + Y) mod 256]; [IDX] takes its pointer from the bytes
    [(b + X) mod 256] and [(b + X + 1) mod 256]; [IDY] takes it from the
    bytes [b] and [(b + 1) mod 256], so that a pointer at [0xFF] has its
    high byte at [0x00], and adds [Y] to it modulo 2^16. *)
Theorem zero_page_wraps (s : machine) :
  wf s ->
  let b := peek s (PC (reg s)) in
  let x := X (reg s) in
  let y := Y (reg s) in
  (address (ope (ZPX s)) = (b + x) mod 256 /\
   value (ope (ZPX s)) = zero_page s (b + x)) /\
  (address (ope (ZPY s)) = (b + y) mod 256 /\
   value (ope (ZPY s)) = zero_page s (b + y)) /\
  address (ope (IDX s)) =
    Z.lor (zero_page s (b + x)) (Z.shiftl (zero_page s (b + x + 1)) 8) /\
  address (ope (IDY s)) =
    u16 (Z.lor (zero_page s b) (Z.shiftl (zero_page s (b + 1)) 8) + y).
Proof.
  intros Hwf b x y.
  pose proof (peek_byte s (PC (reg s)) Hwf) as Hb. fold b in Hb.
  assert (Z8 : forall i, 0 <= zero_page s i < 256).
  { intros i. rewrite <- (peek_zero_page s s i eq_refl). apply peek_byte, Hwf. }
  assert (M : forall i, 0 <= i mod 256 < 65536).
  { intros i. pose proof (Z.mod_pos_bound i 256 ltac:(lia)). lia. }
  assert (L : forall i, Z.land i 255 = i mod 256).
  { intros i. rewrite <- u8_land_FF. reflexivity. }
  split; [|split; [|split]].
  - unfold ZPX. cbv zeta. run. strobe_norm. peek_norm. fold b x.
    rewrite L, (u16_small _ (M _)).
    rewrite (peek_zero_page s) by (strobe_norm; reflexivity).
    split; [reflexivity|]. apply u16_small. pose proof (Z8 (b + x)). lia.
  - unfold ZPY. cbv zeta. run. strobe_norm. peek_norm. fold b y.
    rewrite L, (u16_small _ (M _)).
    rewrite (peek_zero_page s) by (strobe_norm; reflexivity).
    split; [reflexivity|]. apply u16_small. pose proof (Z8 (b + y)). lia.
  - unfold IDX. cbv zeta. run. strobe_norm. peek_norm. fold b x.
    rewrite !L, (u16_small _ (M _)).
    replace ((b + x) mod 256 mod 256) with ((b + x) mod 256)
      by (clear; Z.div_mod_to_equations; lia).
    replace (((b + x) mod 256 + 1) mod 256) with ((b + x + 1) mod 256)
      by (clear; Z.div_mod_to_equations; lia).
    rewrite !(peek_zero_page s) by (strobe_norm; reflexivity).
    apply u16_small, word_of_bytes; apply Z8.
  - unfold IDY. cbv zeta. run. strobe_norm. peek_norm. fold b y.
    rewrite (IDY_vector2 b Hb), (u16_small b) by lia.
    replace b with (b mod 256) at 1 2 by (apply Z.mod_small; exact Hb).
    rewrite !(peek_zero_page s) by (strobe_norm; reflexivity).
    reflexivity.
Qed.

Lemma zero_page_wraps_witness :
  address (ope (ZPX zp_state)) = 0x0000 /\
  value (ope (ZPX zp_state)) = 0x34 /\
  address (ope (IDY zp_state)) = 0x3414.
Proof.
  assert (W : wf zp_state) by (vm_compute; reflexivity).
  destruct (zero_page_wraps zp_state W) as ((H1 & H2) & _ & _ & H3).
  split; [refine (eq_trans H1 _); vm_compute; reflexivity|].
  split; [refine (eq_trans H2 _); vm_compute; reflexivity|].
  refine (eq_trans H3 _); vm_compute; reflexivity.
Defined.

(** ** Branches *)

Lemma REL_offset (b : Z) :
  0 <= b < 256 ->
  (if nonzero (Z.land (u16 b) 0x80) then u16 (Z.lor (u16 b) 0xFF00) else u16 b)
  = u16 (signed8 b).
Proof.
  intros H. apply Z.eqb_eq. revert b H. apply forall_byte. vm_compute. reflexivity.
Qed.

Lemma REL_effect (s : machine) :
  wf s ->
  peek s (PC (reg s)) <> 0 ->
  let pc := PC (reg s) in
  let t := REL (strobe (set_PC s (pc + 1)) pc) in
  PC (reg t) = u16 (pc + 2) /\
  address (ope t) = u16 (signed8 (peek s (pc + 1))) /\
  A (reg t) = A (reg s) /\ X (reg t) = X (reg s) /\ Y (reg t) = Y (reg s) /\
  SP (reg t) = SP (reg s) /\ SR (reg t) = SR (reg s) /\
  ram t = ram s /\ rom t = rom s /\ videoNeedsRefresh t = videoNeedsRefresh s.
Proof.
  intros Hwf Hop pc t.
  destruct (fetch_operands s Hwf Hop) as (E1 & _).
  pose proof (peek_byte s (pc + 1) Hwf) as Hb.
  fold pc in E1. subst t.
  set (s1 := strobe (set_PC s (pc + 1)) pc) in *.
  assert (Epc : PC (reg s1) = u16 (pc + 1)) by (subst s1; rewrite reg_strobe; reflexivity).
  unfold REL. cbv zeta. rewrite readMem_eq. cbv beta iota.
  rewrite peek_set_PC, E1.
  assert (Ha : address (ope
     (if nonzero (Z.land (address (ope (set_address
            (strobe (set_PC s1 (PC (reg s1) + 1)) (PC (reg s1))) (peek s (pc + 1))))) 0x80)
      then set_address (set_address
            (strobe (set_PC s1 (PC (reg s1) + 1)) (PC (reg s1))) (peek s (pc + 1)))
            (Z.lor (address (ope (set_address
               (strobe (set_PC s1 (PC (reg s1) + 1)) (PC (reg s1))) (peek s (pc + 1))))) 0xFF00)
      else set_address
            (strobe (set_PC s1 (PC (reg s1) + 1)) (PC (reg s1))) (peek s (pc + 1))))
     = u16 (signed8 (peek s (pc + 1)))).
  { rewrite <- (REL_offset _ Hb). project. destruct (nonzero _); reflexivity. }
  split; [|split; [exact Ha|]];
    destruct (nonzero _); subst s1; strobe_norm; repeat split; wrap_lia.
Qed.

(** X15.  The eight conditional branches, as one step of the interpreter.  The
    opcode selects a flag and the value on which the branch is taken; a
    branch taken continues at the address of the next instruction plus the
    operand byte read as a signed number, modulo 2^16, and a branch not taken
    at the next instruction.  No other register, no flag, no byte of
    either array and not the video-dirty flag changes. *)
Theorem branch_step (s : machine) :
  wf s ->
  let pc := PC (reg s) in
  let op := peek s pc in
  In op branches ->
  PC (reg (step s)) =
    (if branch_taken op s then u16 (pc + 2 + signed8 (peek s (pc + 1)))
     else u16 (pc + 2)) /\
  A (reg (step s)) = A (reg s) /\ X (reg (step s)) = X (reg s) /\
  Y (reg (step s)) = Y (reg s) /\ SP (reg (step s)) = SP (reg s) /\
  SR (reg (step s)) = SR (reg s) /\
  ram (step s) = ram s /\ rom (step s) = rom s /\
  videoNeedsRefresh (step s) = videoNeedsRefresh s.
Proof.
  intros Hwf pc op Hin.
  assert (Hop : peek s (PC (reg s)) <> 0).
  { fold pc op. cbn [In branches] in Hin.
    repeat (destruct Hin as [<-|Hin]; [discriminate|]). contradiction. }
  destruct (REL_effect s Hwf Hop) as (Hpc & Had & HA & HX & HY & HSP & HSR & Hram & Hrom & Hv).
  fold pc in Hpc, Had, HA, HX, HY, HSP, HSR, Hram, Hrom, Hv.
  set (t := REL (strobe (set_PC s (pc + 1)) pc)) in *.
  assert (Ht : forall c : bool,
    let u := if c then set_PC t (PC (reg t) + address (ope t)) else t in
    PC (reg u) = (if c then u16 (pc + 2 + signed8 (peek s (pc + 1))) else u16 (pc + 2)) /\
    A (reg u) = A (reg s) /\ X (reg u) = X (reg s) /\
    Y (reg u) = Y (reg s) /\ SP (reg u) = SP (reg s) /\
    SR (reg u) = SR (reg s) /\
    ram u = ram s /\ rom u = rom s /\
    videoNeedsRefresh u = videoNeedsRefresh s).
  { intros [|]; cbv zeta; project; rewrite ?Hpc, ?Had;
      (split; [first [reflexivity | wrap_lia]|]); repeat split; assumption. }
  rewrite step_eq. cbv zeta. fold pc op.
  unfold branch_taken, flag.
  cbn [In branches] in Hin.
  repeat (destruct Hin as [E|Hin];
    [rewrite <- E;
     match goal with
     | |- context [nth ?k addressing m_IMP] =>
         let v := eval vm_compute in (nth k addressing m_IMP) in
         change (nth k addressing m_IMP) with v
     end;
     match goal with
     | |- context [nth ?k instruction i_UND] =>
         let v := eval vm_compute in (nth k instruction i_UND) in
         change (nth k instruction i_UND) with v
     end;
     match goal with
     | |- context [branch_flag ?k] =>
         let v := eval vm_compute in (branch_flag k) in
         change (branch_flag k) with v
     end;
     match goal with
     | |- context [Z.testbit ?k 5] =>
         let v := eval vm_compute in (Z.testbit k 5) in
         change (Z.testbit k 5) with v
     end;
     cbn [resolve execute]; fold t;
     unfold BPL, BMI, BVC, BVS, BCC, BCS, BNE, BEQ, SIGN, OVERFLOW, CARRY, ZERO;
     rewrite HSR;
     match goal with
     | |- context [nonzero (Z.land (SR (reg s)) ?m)] =>
         destruct (nonzero (Z.land (SR (reg s)) m))
     end;
     cbn [negb eqb]; first [apply (Ht true) | apply (Ht false)]|]).
  contradiction.
Qed.

Lemma branch_step_witness :
  PC (reg (step bne_state)) = 0x0282.
Proof.
  assert (W : wf bne_state) by (vm_compute; reflexivity).
  destruct (branch_step bne_state W) as (H & _);
    [vm_compute; tauto|].
  refine (eq_trans H _). vm_compute. reflexivity.
Defined.

(** ** Arithmetic *)

Lemma forall_byte2 (P : Z -> Z -> bool) :
  forallb (fun a => forallb (P a) all_bytes) all_bytes = true ->
  forall a v, 0 <= a < 256 -> 0 <= v < 256 -> P a v = true.
Proof.
  intros H a v Ha Hv.
  apply (forall_byte (P a)); [|exact Hv].
  apply (forall_byte (fun a => forallb (P a) all_bytes) H a Ha).
Qed.

Lemma land_carry (s : machine) : wf s -> Z.land (SR (reg s)) CARRY = carry s.
Proof.
  intros Hwf. apply wf_ranges in Hwf.
  destruct Hwf as (_ & _ & _ & _ & _ & _ & _ & _ & _ & Hsr & _).
  unfold carry, flag. apply Z.eqb_eq.
  apply (forall_byte
           (fun sr => Z.land sr CARRY =? (if nonzero (Z.land sr CARRY) then 1 else 0)));
    [vm_compute; reflexivity | exact Hsr].
Qed.

Lemma carry_cases (s : machine) : carry s = 0 \/ carry s = 1.
Proof. unfold carry. destruct (flag CARRY s); auto. Qed.

Lemma adc_binary_bits (a v c : Z) :
  0 <= a < 256 -> 0 <= v < 256 -> c = 0 \/ c = 1 ->
  let r := u16 (a + v + c) in
  Z.land r 0xFF = (a + v + c) mod 256 /\
  nonzero (Z.land r 0xFF00) = (256 <=? a + v + c) /\
  nonzero (Z.land (Z.land (Z.lxor r a) (Z.lxor r v)) 0x80) =
    negb (signed_fits (signed8 a + signed8 v + c)) /\
  Z.testbit (Z.land r 0xFF) 7 = (128 <=? (a + v + c) mod 256).
Proof.
  intros Ha Hv Hc.
  pose (P := fun c a v =>
    let r := u16 (a + v + c) in
    (Z.land r 0xFF =? (a + v + c) mod 256)
    && eqb (nonzero (Z.land r 0xFF00)) (256 <=? a + v + c)
    && eqb (nonzero (Z.land (Z.land (Z.lxor r a) (Z.lxor r v)) 0x80))
           (negb (signed_fits (signed8 a + signed8 v + c)))
    && eqb (Z.testbit (Z.land r 0xFF) 7) (128 <=? (a + v + c) mod 256)).
  assert (H : P c a v = true).
  { destruct Hc as [-> | ->];
      [apply (forall_byte2 (P 0)) | apply (forall_byte2 (P 1))];
      first [exact Ha | exact Hv | vm_compute; reflexivity]. }
  unfold P in H. cbv zeta in H.
  rewrite !andb_true_iff in H. destruct H as (((H1 & H2) & H3) & H4).
  apply Z.eqb_eq in H1. apply eqb_prop in H2, H3, H4.
  cbv zeta. auto.
Qed.

Lemma adc_decimal_digits (a v c : Z) :
  0 <= a < 256 -> 0 <= v < 256 -> c = 0 \/ c = 1 ->
  bcd_valid a = true -> bcd_valid v = true ->
  let r := u16 (a + v + c) in
  let r' := u16 (r + Z.land (Z.shiftr (Z.lxor (Z.lxor (r + 0x66) a) v) 3) 0x22 * 3) in
  let n := bcd_value a + bcd_value v + c in
  Z.land r' 0xFF = bcd_encode (n mod 100) /\
  nonzero (Z.land r' 0xFF00) = (100 <=? n).
Proof.
  intros Ha Hv Hc Va Vv.
  pose (P := fun c a v =>
    implb (bcd_valid a && bcd_valid v)
      (let r := u16 (a + v + c) in
       let r' := u16 (r + Z.land (Z.shiftr (Z.lxor (Z.lxor (r + 0x66) a) v) 3) 0x22 * 3) in
       let n := bcd_value a + bcd_value v + c in
       (Z.land r' 0xFF =? bcd_encode (n mod 100))
       && eqb (nonzero (Z.land r' 0xFF00)) (100 <=? n))).
  assert (H : P c a v = true).
  { destruct Hc as [-> | ->];
      [apply (forall_byte2 (P 0)) | apply (forall_byte2 (P 1))];
      first [exact Ha | exact Hv | vm_compute; reflexivity]. }
  unfold P in H. rewrite Va, Vv in H. cbn [andb implb] in H. cbv zeta in H.
  rewrite andb_true_iff in H. destruct H as (H1 & H2).
  apply Z.eqb_eq in H1. apply eqb_prop in H2.
  cbv zeta. auto.
Qed.

Lemma ADC_sum (s : machine) :
  wf s -> value (ope s) < 256 -> flag DECIMAL s = false ->
  let n := A (reg s) + value (ope s) + carry s in
  let m := signed8 (A (reg s)) + signed8 (value (ope s)) + carry s in
  A (reg (ADC s)) = n mod 256 /\
  flag CARRY (ADC s) = (256 <=? n) /\
  flag OVERFLOW (ADC s) = negb (signed_fits m) /\
  flag ZERO (ADC s) = (n mod 256 =? 0) /\
  flag SIGN (ADC s) = (128 <=? n mod 256).
Proof.
  intros Hwf Hv HD n m.
  pose proof (ADC_effect s Hwf) as E. cbv zeta in E.
  rewrite HD, (land_carry s Hwf) in E.
  destruct E as ((EN & EZ & EV & EC & EA) & _).
  apply wf_ranges in Hwf.
  destruct Hwf as (_ & _ & _ & _ & Hval & _ & HA & _).
  destruct (adc_binary_bits (A (reg s)) (value (ope s)) (carry s))
    as (B1 & B2 & B3 & B4); [lia | lia | apply carry_cases |].
  cbv zeta in B1, B2, B3, B4. subst n m.
  rewrite EA, EC, EV, EZ, EN, B4, B3, B2, B1. auto.
Qed.

Lemma bcd_byte (x : Z) : 0 <= x < 65536 -> bcd_valid x = true -> 0 <= x < 256.
Proof.
  intros Hx V. unfold bcd_valid in V. apply andb_true_iff in V. destruct V as (_ & V).
  apply Z.ltb_lt in V. rewrite Z.shiftr_div_pow2 in V by lia.
  change (2 ^ 4) with 16 in V. Z.div_mod_to_equations. lia.
Qed.

Lemma ADC_digits (s : machine) :
  wf s -> flag DECIMAL s = true ->
  bcd_valid (A (reg s)) = true -> bcd_valid (value (ope s)) = true ->
  let n := bcd_value (A (reg s)) + bcd_value (value (ope s)) + carry s in
  A (reg (ADC s)) = bcd_encode (n mod 100) /\
  flag CARRY (ADC s) = (100 <=? n).
Proof.
  intros Hwf HD Va Vv n.
  pose proof (ADC_effect s Hwf) as E. cbv zeta in E.
  rewrite HD, (land_carry s Hwf) in E.
  destruct E as ((_ & _ & _ & EC & EA) & _).
  apply wf_ranges in Hwf.
  destruct Hwf as (_ & _ & _ & _ & Hval & _ & HA & _).
  pose proof (bcd_byte _ Hval Vv) as Hv.
  destruct (adc_decimal_digits (A (reg s)) (value (ope s)) (carry s))
    as (B1 & B2); [lia | lia | apply carry_cases | assumption | assumption |].
  cbv zeta in B1, B2. subst n.
  rewrite EA, EC, B1, B2. auto.
Qed.

Lemma ADC_ope (s : machine) : wf s -> ope (ADC s) = ope s.
Proof.
  intros W. destruct (ADC_effect s W) as (_ & _ & (_ & _ & _ & _ & H & _)). exact H.
Qed.

Lemma SBC_as_ADC (s : machine) :
  SBC s = ADC (let s := set_value s (Z.lxor (value (ope s)) 0xFF) in
               if flag DECIMAL s then set_value s (value (ope s) - 0x66) else s).
Proof. reflexivity. Qed.

Lemma complement_byte (v : Z) :
  0 <= v < 256 ->
  u16 (Z.lxor v 0xFF) = 255 - v /\ signed8 (255 - v) = - signed8 v - 1.
Proof.
  intros Hv.
  pose (P := fun v => (u16 (Z.lxor v 0xFF) =? 255 - v)
                      && (signed8 (255 - v) =? - signed8 v - 1)).
  assert (H : P v = true)
    by (apply (forall_byte P); [vm_compute; reflexivity | exact Hv]).
  unfold P in H. apply andb_true_iff in H. destruct H as (H1 & H2).
  apply Z.eqb_eq in H1, H2. auto.
Qed.

Lemma complement_digits (v : Z) :
  0 <= v < 256 -> bcd_valid v = true ->
  u16 (u16 (Z.lxor v 0xFF) - 0x66) = 0x99 - v /\
  bcd_valid (0x99 - v) = true /\
  bcd_value (0x99 - v) = 99 - bcd_value v.
Proof.
  intros Hv V.
  pose (P := fun v => implb (bcd_valid v)
                        ((u16 (u16 (Z.lxor v 0xFF) - 0x66) =? 0x99 - v)
                         && bcd_valid (0x99 - v)
                         && (bcd_value (0x99 - v) =? 99 - bcd_value v))).
  assert (H : P v = true)
    by (apply (forall_byte P); [vm_compute; reflexivity | exact Hv]).
  unfold P in H. rewrite V in H. cbn [implb] in H.
  rewrite !andb_true_iff in H. destruct H as ((H1 & H2) & H3).
  apply Z.eqb_eq in H1, H3. auto.
Qed.

(** X16. Binary addition.  With the D flag clear and a byte operand, [ADC]
    leaves in A the sum of A, the operand and the carry modulo 256; C is set
    exactly when that sum does not fit in a byte, V exactly when the sum of
    the two bytes read as signed numbers (plus the carry) does not fit in a
    signed byte, Z and N describe the byte left in A. *)
Theorem ADC_binary (s : machine) :
  wf s -> value (ope s) < 256 -> flag DECIMAL s = false ->
  let n := A (reg s) + value (ope s) + carry s in
  let m := signed8 (A (reg s)) + signed8 (value (ope s)) + carry s in
  A (reg (ADC s)) = n mod 256 /\
  flag CARRY (ADC s) = (256 <=? n) /\
  flag OVERFLOW (ADC s) = negb (signed_fits m) /\
  flag ZERO (ADC s) = (n mod 256 =? 0) /\
  flag SIGN (ADC s) = (128 <=? n mod 256).
Proof. exact (ADC_sum s). Qed.

Lemma ADC_binary_witness :
  A (reg (ADC (set_value (set_A power_on 0x50) 0x50))) = 0xA0 /\
  flag OVERFLOW (ADC (set_value (set_A power_on 0x50) 0x50)) = true /\
  flag CARRY (ADC (set_value (set_A power_on 0x50) 0x50)) = false.
Proof.
  assert (W : wf (set_value (set_A power_on 0x50) 0x50)) by (vm_compute; reflexivity).
  destruct (ADC_binary _ W) as (HA & HC & HV & _);
    [vm_compute; reflexivity | vm_compute; reflexivity |].
  split; [refine (eq_trans HA _); vm_compute; reflexivity|].
  split; [refine (eq_trans HV _); vm_compute; reflexivity|].
  refine (eq_trans HC _); vm_compute; reflexivity.
Defined.

(** X17. Decimal addition.  With the D flag set and A and the operand both
    holding two decimal digits, [ADC] leaves in A the two low decimal digits
    of the sum of the two numbers and the carry, and sets C exactly when
    that sum is 100 or more. *)
Theorem ADC_decimal (s : machine) :
  wf s -> flag DECIMAL s = true ->
  bcd_valid (A (reg s)) = true -> bcd_valid (value (ope s)) = true ->
  let n := bcd_value (A (reg s)) + bcd_value (value (ope s)) + carry s in
  A (reg (ADC s)) = bcd_encode (n mod 100) /\
  flag CARRY (ADC s) = (100 <=? n).
Proof. exact (ADC_digits s). Qed.

Lemma ADC_decimal_witness :
  A (reg (ADC (set_value (set_A (set_SR power_on 0x29) 0x58) 0x46))) = 0x05 /\
  flag CARRY (ADC (set_value (set_A (set_SR power_on 0x29) 0x58) 0x46)) = true.
Proof.
  assert (W : wf (set_value (set_A (set_SR power_on 0x29) 0x58) 0x46))
    by (vm_compute; reflexivity).
  destruct (ADC_decimal _ W) as (HA & HC);
    [vm_compute; reflexivity | vm_compute; reflexivity | vm_compute; reflexivity |].
  split; [refine (eq_trans HA _); vm_compute; reflexivity|].
  refine (eq_trans HC _); vm_compute; reflexivity.
Defined.

(** X18. Binary subtraction.  With the D flag clear and a byte operand,
    [SBC] leaves in A the difference of A, the operand and the borrow (the
    complement of the carry) modulo 256; C is set exactly when no borrow is
    needed, V exactly when the difference of the two bytes read as signed
    numbers does not fit in a signed byte, Z and N describe the byte left in
    A.  The operand record is left holding the complement of the operand. *)
Theorem SBC_binary (s : machine) :
  wf s -> value (ope s) < 256 -> flag DECIMAL s = false ->
  let n := A (reg s) - value (ope s) - borrow s in
  let m := signed8 (A (reg s)) - signed8 (value (ope s)) - borrow s in
  A (reg (SBC s)) = n mod 256 /\
  flag CARRY (SBC s) = (0 <=? n) /\
  flag OVERFLOW (SBC s) = negb (signed_fits m) /\
  flag ZERO (SBC s) = (n mod 256 =? 0) /\
  flag SIGN (SBC s) = (128 <=? n mod 256) /\
  value (ope (SBC s)) = 255 - value (ope s).
Proof.
  intros Hwf Hv HD n m.
  pose proof (wf_ranges s Hwf) as R.
  destruct R as (_ & _ & _ & _ & Hval & _ & HA & _).
  destruct (complement_byte (value (ope s))) as (C1 & C2); [lia|].
  rewrite SBC_as_ADC. cbv zeta.
  change (flag DECIMAL (set_value s (Z.lxor (value (ope s)) 255)))
    with (flag DECIMAL s).
  rewrite HD.
  set (s1 := set_value s (Z.lxor (value (ope s)) 255)).
  assert (W1 : wf s1) by (apply wf_set_value; exact Hwf).
  assert (V1 : value (ope s1) = 255 - value (ope s)) by exact C1.
  destruct (ADC_sum s1 W1) as (EA & EC & EV & EZ & EN);
    [rewrite V1; lia | exact HD |].
  cbv zeta in EA, EC, EV, EZ, EN.
  rewrite V1 in EA, EC, EV, EZ, EN. rewrite C2 in EV.
  change (A (reg s1)) with (A (reg s)) in EA, EC, EV, EZ, EN.
  change (carry s1) with (carry s) in EA, EC, EV, EZ, EN.
  assert (Hn : A (reg s) + (255 - value (ope s)) + carry s = n + 1 * 256)
    by (subst n; unfold borrow; lia).
  assert (Hm : signed8 (A (reg s)) + (- signed8 (value (ope s)) - 1) + carry s = m)
    by (subst m; unfold borrow; lia).
  rewrite Hn in EA, EC, EZ, EN. rewrite Hm in EV.
  rewrite Z_mod_plus_full in EA, EZ, EN.
  assert (HC : (256 <=? n + 1 * 256) = (0 <=? n)).
  { destruct (Z.leb_spec 256 (n + 1 * 256)), (Z.leb_spec 0 n); try reflexivity; lia. }
  rewrite HC in EC.
  rewrite (ADC_ope s1 W1). auto 10.
Qed.

Lemma SBC_binary_witness :
  A (reg (SBC (set_value (set_A power_on 0x50) 0xF0))) = 0x5F /\
  flag CARRY (SBC (set_value (set_A power_on 0x50) 0xF0)) = false.
Proof.
  assert (W : wf (set_value (set_A power_on 0x50) 0xF0)) by (vm_compute; reflexivity).
  destruct (SBC_binary _ W) as (HA & HC & _);
    [vm_compute; reflexivity | vm_compute; reflexivity |].
  split; [refine (eq_trans HA _); vm_compute; reflexivity|].
  refine (eq_trans HC _); vm_compute; reflexivity.
Defined.

(** X19. Decimal subtraction.  With the D flag set and A and the operand
    both holding two decimal digits, [SBC] leaves in A the two low decimal
    digits of the difference of the two numbers and the borrow, and sets C
    exactly when no borrow is needed. *)
Theorem SBC_decimal (s : machine) :
  wf s -> flag DECIMAL s = true ->
  bcd_valid (A (reg s)) = true -> bcd_valid (value (ope s)) = true ->
  let n := bcd_value (A (reg s)) - bcd_value (value (ope s)) - borrow s in
  A (reg (SBC s)) = bcd_encode (n mod 100) /\
  flag CARRY (SBC s) = (0 <=? n).
Proof.
  intros Hwf HD Va Vv n.
  pose proof (wf_ranges s Hwf) as R.
  destruct R as (_ & _ & _ & _ & Hval & _ & HA & _).
  pose proof (bcd_byte _ Hval Vv) as Hv.
  destruct (complement_digits (value (ope s)) Hv Vv) as (C1 & C2 & C3).
  rewrite SBC_as_ADC. cbv zeta.
  change (flag DECIMAL (set_value s (Z.lxor (value (ope s)) 255)))
    with (flag DECIMAL s).
  rewrite HD.
  set (s1 := set_value _ _).
  assert (W1 : wf s1) by (apply wf_set_value, wf_set_value; exact Hwf).
  assert (V1 : value (ope s1) = 0x99 - value (ope s)) by exact C1.
  destruct (ADC_digits s1 W1) as (EA & EC);
    [exact HD | exact Va | rewrite V1; exact C2 |].
  cbv zeta in EA, EC.
  rewrite V1, C3 in EA, EC.
  change (A (reg s1)) with (A (reg s)) in EA, EC.
  change (carry s1) with (carry s) in EA, EC.
  assert (Hn : bcd_value (A (reg s)) + (99 - bcd_value (value (ope s))) + carry s
               = n + 1 * 100)
    by (subst n; unfold borrow; lia).
  rewrite Hn in EA, EC.
  rewrite Z_mod_plus_full in EA.
  assert (HC : (100 <=? n + 1 * 100) = (0 <=? n)).
  { destruct (Z.leb_spec 100 (n + 1 * 100)), (Z.leb_spec 0 n); try reflexivity; lia. }
  rewrite HC in EC. auto.
Qed.

Lemma SBC_decimal_witness :
  A (reg (SBC (set_value (set_A (set_SR power_on 0x29) 0x46) 0x58))) = 0x88 /\
  flag CARRY (SBC (set_value (set_A (set_SR power_on 0x29) 0x46) 0x58)) = false.
Proof.
  assert (W : wf (set_value (set_A (set_SR power_on 0x29) 0x46) 0x58))
    by (vm_compute; reflexivity).
  destruct (SBC_decimal _ W) as (HA & HC);
    [vm_compute; reflexivity | vm_compute; reflexivity | vm_compute; reflexivity |].
  split; [refine (eq_trans HA _); vm_compute; reflexivity|].
  refine (eq_trans HC _); vm_compute; reflexivity.
Defined.


(** ** Flags *)

Lemma same_but_SR_refl (s : machine) : same_but_SR s s.
Proof. unfold same_but_SR. auto 12. Qed.

Lemma same_but_SR_trans (s t u : machine) :
  same_but_SR s t -> same_but_SR t u -> same_but_SR s u.
Proof.
  unfold same_but_SR.
  intros (A1 & X1 & Y1 & S1 & P1 & O1 & R1 & M1 & K1 & V1)
         (A2 & X2 & Y2 & S2 & P2 & O2 & R2 & M2 & K2 & V2).
  rewrite A2, X2, Y2, S2, P2, O2, R2, M2, K2, V2. auto 12.
Qed.

Lemma same_but_SR_set (s : machine) (v : Z) : same_but_SR s (set_SR s v).
Proof. unfold same_but_SR. project. auto 12. Qed.

Lemma same_but_SR_assign (s : machine) (m : Z) (c : bool) :
  same_but_SR s (SR_assign s m c).
Proof. rewrite SR_assign_set. apply same_but_SR_set. Qed.

Lemma same_but_SR_setSZ (s : machine) (v : Z) : same_but_SR s (setSZ s v).
Proof.
  rewrite setSZ_assign.
  eapply same_but_SR_trans; apply same_but_SR_assign.
Qed.

Lemma SR_assign_flag (s : machine) (m m' : Z) (c : bool) :
  wf s -> is_mask m = true -> is_mask m' = true ->
  flag m (SR_assign s m' c) = if m =? m' then c else flag m s.
Proof.
  intros Hwf Hm Hm'. apply wf_ranges in Hwf.
  destruct Hwf as (_ & _ & _ & _ & _ & _ & _ & _ & _ & Hsr & _).
  rewrite SR_assign_set. unfold flag. project.
  apply sr_upd_flag; assumption.
Qed.

Lemma byte_tests (x : Z) :
  0 <= x < 256 ->
  nonzero (Z.land x 0x80) = (128 <=? x) /\ negb (nonzero x) = (x =? 0).
Proof.
  intros Hx.
  pose (P := fun x => eqb (nonzero (Z.land x 0x80)) (128 <=? x)
                      && eqb (negb (nonzero x)) (x =? 0)).
  assert (H : P x = true)
    by (apply (forall_byte P); [vm_compute; reflexivity | exact Hx]).
  unfold P in H. apply andb_true_iff in H. destruct H as (H1 & H2).
  apply eqb_prop in H1, H2. auto.
Qed.

Lemma setSZ_flag (s : machine) (v m : Z) :
  wf s -> is_mask m = true ->
  flag m (setSZ s v) =
  if m =? SIGN then 128 <=? u8 v
  else if m =? ZERO then u8 v =? 0
  else flag m s.
Proof.
  intros Hwf Hm. rewrite setSZ_assign.
  rewrite SR_assign_flag by (first [apply wf_SR_assign; exact Hwf | assumption | reflexivity]).
  rewrite SR_assign_flag by (first [exact Hwf | assumption | reflexivity]).
  destruct (byte_tests (u8 v) (u8_range v)) as (-> & ->). reflexivity.
Qed.

Lemma setSZ_result (s s' : machine) (r : Register -> Z) :
  wf s' -> SR (reg s') = SR (reg s) ->
  (r = A \/ r = X \/ r = Y) ->
  let t := setSZ s' (r (reg s')) in
  flag ZERO t = (r (reg t) =? 0) /\
  flag SIGN t = (128 <=? r (reg t)) /\
  flag CARRY t = flag CARRY s /\
  flag INTERRUPT t = flag INTERRUPT s /\
  flag DECIMAL t = flag DECIMAL s /\
  flag BREAK t = flag BREAK s /\
  flag UNDEFINED t = flag UNDEFINED s /\
  flag OVERFLOW t = flag OVERFLOW s.
Proof.
  intros W' HSR Hcase t. subst t.
  assert (Hreg : r (reg (setSZ s' (r (reg s')))) = r (reg s')).
  { destruct (same_but_SR_setSZ s' (r (reg s'))) as (EA & EX & EY & _).
    destruct Hcase as [-> | [-> | ->]]; assumption. }
  assert (Hbyte : 0 <= r (reg s') < 256).
  { apply wf_ranges in W'.
    destruct W' as (_ & _ & _ & _ & _ & _ & HA & HX & HY & _).
    destruct Hcase as [-> | [-> | ->]]; assumption. }
  rewrite Hreg.
  rewrite !setSZ_flag by (first [exact W' | reflexivity]).
  rewrite (u8_small _ Hbyte).
  unfold flag. rewrite HSR. cbn. auto 10.
Qed.

(** X20. The flags after an instruction that leaves its result in a
    register.  After each of LDA, LDX, LDY, TAX, TAY, TXA, TYA, TSX, INX, INY,
    DEX, DEY, PLA, AND, ORA and EOR, Z is set exactly when the register that
    received the result holds zero, N is bit 7 of that register, and the
    other six flags are as they were. *)
Theorem result_flags (s : machine) (i : Instr) (r : Register -> Z) :
  wf s -> result_reg i = Some r ->
  let t := execute i s in
  flag ZERO t = (r (reg t) =? 0) /\
  flag SIGN t = (128 <=? r (reg t)) /\
  flag CARRY t = flag CARRY s /\
  flag INTERRUPT t = flag INTERRUPT s /\
  flag DECIMAL t = flag DECIMAL s /\
  flag BREAK t = flag BREAK s /\
  flag UNDEFINED t = flag UNDEFINED s /\
  flag OVERFLOW t = flag OVERFLOW s.
Proof.
  intros Hwf Hr t.
  destruct i; try discriminate Hr; cbn in Hr; injection Hr as <-;
    subst t; cbn [execute];
    unfold LDA, LDX, LDY, TAX, TAY, TXA, TYA, TSX, INX, INY, DEX, DEY, PLA,
      AND, ORA, EOR;
    rewrite ?pull_eq; cbv beta iota zeta;
    match goal with
    | |- context [setSZ ?s' (?r (reg ?s'))] => apply (setSZ_result s s' r)
    end;
    first [reflexivity | wf_peel; exact Hwf | auto].
Qed.

Lemma result_flags_witness :
  flag ZERO (execute i_DEX (set_X power_on 1)) = true /\
  flag SIGN (execute i_DEX (set_X power_on 1)) = false.
Proof.
  assert (W : wf (set_X power_on 1)) by (vm_compute; reflexivity).
  destruct (result_flags (set_X power_on 1) i_DEX X W eq_refl) as (HZ & HN & _).
  split; [refine (eq_trans HZ _) | refine (eq_trans HN _)]; vm_compute; reflexivity.
Defined.

Lemma compare_effect (s : machine) (r : Register -> Z) :
  wf s -> (r = A \/ r = X \/ r = Y) -> value (ope s) < 256 ->
  let v := value (ope s) in
  let t := SR_assign (setSZ s (r (reg s) - v)) CARRY (r (reg s) >=? v) in
  (flag CARRY t = (v <=? r (reg s)) /\
   flag ZERO t = (r (reg s) =? v) /\
   flag SIGN t = (128 <=? (r (reg s) - v) mod 256)) /\
  (flag INTERRUPT t = flag INTERRUPT s /\ flag DECIMAL t = flag DECIMAL s /\
   flag BREAK t = flag BREAK s /\ flag UNDEFINED t = flag UNDEFINED s /\
   flag OVERFLOW t = flag OVERFLOW s) /\
  same_but_SR s t.
Proof.
  intros Hwf Hcase Hv v t.
  assert (Hbyte : 0 <= r (reg s) < 256).
  { pose proof (wf_ranges s Hwf) as R.
    destruct R as (_ & _ & _ & _ & _ & _ & HA & HX & HY & _).
    destruct Hcase as [-> | [-> | ->]]; assumption. }
  assert (Hval : 0 <= v < 256).
  { pose proof (wf_ranges s Hwf) as R.
    destruct R as (_ & _ & _ & _ & Hval & _). subst v. lia. }
  subst t.
  rewrite !SR_assign_flag by (first [apply wf_setSZ; exact Hwf | reflexivity]).
  rewrite !setSZ_flag by (first [exact Hwf | reflexivity]).
  cbn [Z.eqb CARRY ZERO SIGN INTERRUPT DECIMAL BREAK UNDEFINED OVERFLOW Pos.eqb].
  split; [|split; [auto 10|]].
  - split; [apply Z.geb_leb|]. split; [|reflexivity].
    unfold u8.
    destruct (Z.eqb_spec ((r (reg s) - v) mod 256) 0) as [E|E],
             (Z.eqb_spec (r (reg s)) v) as [E'|E']; try reflexivity; exfalso.
    + clear - E E' Hbyte Hval. Z.div_mod_to_equations. lia.
    + apply E. rewrite E', Z.sub_diag. reflexivity.
  - eapply same_but_SR_trans; [apply same_but_SR_setSZ | apply same_but_SR_assign].
Qed.

(** X21. Comparison.  CMP, CPX and CPY compare A, X and Y with a byte
    operand: C is set exactly when the register is at least the operand, Z
    exactly when the two are equal, N is bit 7 of their difference modulo
    256; the other flags, the registers, the operand and the memory are left
    as they were. *)
Theorem compare_flags (s : machine) (i : Instr) (r : Register -> Z) :
  wf s -> compared i = Some r -> value (ope s) < 256 ->
  let v := value (ope s) in
  let t := execute i s in
  (flag CARRY t = (v <=? r (reg s)) /\
   flag ZERO t = (r (reg s) =? v) /\
   flag SIGN t = (128 <=? (r (reg s) - v) mod 256)) /\
  (flag INTERRUPT t = flag INTERRUPT s /\ flag DECIMAL t = flag DECIMAL s /\
   flag BREAK t = flag BREAK s /\ flag UNDEFINED t = flag UNDEFINED s /\
   flag OVERFLOW t = flag OVERFLOW s) /\
  same_but_SR s t.
Proof.
  intros Hwf Hr Hv v t.
  destruct i; try discriminate Hr; cbn in Hr; injection Hr as <-;
    subst t v; cbn [execute]; unfold CMP, CPX, CPY; cbv zeta;
    destruct (same_but_SR_setSZ s (A (reg s) - value (ope s)))
      as (EA & _ & _ & _ & _ & EO & _);
    destruct (same_but_SR_setSZ s (X (reg s) - value (ope s)))
      as (_ & EX & _ & _ & _ & EO' & _);
    destruct (same_but_SR_setSZ s (Y (reg s) - value (ope s)))
      as (_ & _ & EY & _ & _ & EO'' & _);
    rewrite ?EA, ?EX, ?EY, ?EO, ?EO', ?EO'';
    [apply (compare_effect s A) | apply (compare_effect s X)
     | apply (compare_effect s Y)]; auto.
Qed.

Lemma compare_flags_witness :
  flag CARRY (execute i_CPX (set_value (set_X power_on 0x10) 0x20)) = false /\
  flag ZERO (execute i_CPX (set_value (set_X power_on 0x10) 0x20)) = false /\
  flag SIGN (execute i_CPX (set_value (set_X power_on 0x10) 0x20)) = true.
Proof.
  assert (W : wf (set_value (set_X power_on 0x10) 0x20)) by (vm_compute; reflexivity).
  destruct (compare_flags _ i_CPX X W eq_refl) as ((HC & HZ & HN) & _);
    [vm_compute; reflexivity|].
  split; [refine (eq_trans HC _); vm_compute; reflexivity|].
  split; [refine (eq_trans HZ _) | refine (eq_trans HN _)]; vm_compute; reflexivity.
Defined.

(** X22. The flag instructions.  Each of CLC, SEC, CLI, SEI, CLD, SED and
    CLV gives its flag its value, keeps the other seven flags, and changes
    nothing else of the machine. *)
Theorem flag_instructions (s : machine) (i : Instr) (m : Z) (b : bool) :
  wf s -> flag_set i = Some (m, b) ->
  let t := execute i s in
  flag m t = b /\
  (forall m', is_mask m' = true -> m' <> m -> flag m' t = flag m' s) /\
  same_but_SR s t.
Proof.
  intros Hwf Hi t.
  assert (G : t = SR_assign s m b /\ is_mask m = true).
  { destruct i; try discriminate Hi; cbn in Hi; injection Hi as <- <-;
      split; reflexivity. }
  destruct G as (-> & Hm).
  split; [|split].
  - rewrite SR_assign_flag by assumption. rewrite Z.eqb_refl. reflexivity.
  - intros m' Hm' Hne. rewrite SR_assign_flag by assumption.
    destruct (Z.eqb_spec m' m); [contradiction | reflexivity].
  - apply same_but_SR_assign.
Qed.

Lemma flag_instructions_witness :
  flag CARRY (execute i_SEC power_on) = true /\
  flag UNDEFINED (execute i_SEC power_on) = flag UNDEFINED power_on.
Proof.
  assert (W : wf power_on) by (vm_compute; reflexivity).
  destruct (flag_instructions power_on i_SEC CARRY true W eq_refl) as (H1 & H2 & _).
  split; [exact H1|].
  apply H2; [reflexivity | discriminate].
Defined.

(** ** Shifts and rotates *)

Lemma shift_bits (v c : Z) :
  0 <= v < 256 -> c = 0 \/ c = 1 ->
  (Z.land (u16 (Z.shiftl v 1)) 0xFF = (2 * v) mod 256 /\
   nonzero (Z.land (u16 (Z.shiftl v 1)) 0xFF00) = (128 <=? v)) /\
  (Z.land (Z.shiftr v 1) 0xFF = v / 2 /\
   nonzero (Z.land v 1) = Z.odd v) /\
  (Z.land (u16 (Z.lor (Z.shiftl v 1) c)) 0xFF = (2 * v + c) mod 256 /\
   nonzero (Z.land (u16 (Z.lor (Z.shiftl v 1) c)) 0x100) = (128 <=? v)) /\
  Z.land (u16 (Z.lor (Z.shiftr v 1) (Z.shiftl c 7))) 0xFF = v / 2 + 128 * c.
Proof.
  intros Hv Hc.
  pose (P := fun c v =>
    (Z.land (u16 (Z.shiftl v 1)) 0xFF =? (2 * v) mod 256)
    && eqb (nonzero (Z.land (u16 (Z.shiftl v 1)) 0xFF00)) (128 <=? v)
    && (Z.land (Z.shiftr v 1) 0xFF =? v / 2)
    && eqb (nonzero (Z.land v 1)) (Z.odd v)
    && (Z.land (u16 (Z.lor (Z.shiftl v 1) c)) 0xFF =? (2 * v + c) mod 256)
    && eqb (nonzero (Z.land (u16 (Z.lor (Z.shiftl v 1) c)) 0x100)) (128 <=? v)
    && (Z.land (u16 (Z.lor (Z.shiftr v 1) (Z.shiftl c 7))) 0xFF =? v / 2 + 128 * c)).
  assert (H : P c v = true).
  { destruct Hc as [-> | ->];
      [apply (forall_byte (P 0)) | apply (forall_byte (P 1))];
      first [exact Hv | vm_compute; reflexivity]. }
  unfold P in H. rewrite !andb_true_iff in H.
  destruct H as ((((((H1 & H2) & H3) & H4) & H5) & H6) & H7).
  apply Z.eqb_eq in H1, H3, H5, H7. apply eqb_prop in H2, H4, H6.
  auto 10.
Qed.

Lemma shifted_byte (i : Instr) (v c : Z) :
  0 <= v < 256 -> c = 0 \/ c = 1 -> 0 <= fst (shifted i v c) < 256.
Proof.
  intros Hv Hc.
  destruct i; cbn [shifted fst]; try exact Hv;
    destruct Hc as [-> | ->]; Z.div_mod_to_equations; lia.
Qed.

Lemma shift_as_update (s : machine) (i : Instr) :
  wf s -> is_shift i = true -> value (ope s) < 256 ->
  let r := shifted i (value (ope s)) (carry s) in
  execute i s = makeUpdates (SR_assign s CARRY (snd r)) (fst r).
Proof.
  intros Hwf Hi Hv r.
  pose proof (wf_ranges s Hwf) as R.
  destruct R as (_ & _ & _ & _ & Hval & _).
  destruct (shift_bits (value (ope s)) (carry s))
    as ((A1 & A2) & (L1 & L2) & (R1 & R2) & O1); [lia | apply carry_cases |].
  subst r.
  destruct i; try discriminate Hi; cbn [execute shifted fst snd];
    unfold ASL, LSR, ROL, ROR; cbv zeta;
    rewrite ?ope_SR_assign, ?(land_carry s Hwf), ?A1, ?A2, ?L1, ?L2, ?R1, ?R2, ?O1;
    rewrite ?ope_SR_assign, ?L1; reflexivity.
Qed.

Lemma shift_accumulator_effect (s : machine) (i : Instr) :
  wf s -> is_shift i = true ->
  let r := shifted i (A (reg s)) (carry s) in
  let t := execute i (ACC s) in
  (A (reg t) = fst r /\ flag CARRY t = snd r /\
   flag ZERO t = (fst r =? 0) /\ flag SIGN t = (128 <=? fst r)) /\
  (flag INTERRUPT t = flag INTERRUPT s /\ flag DECIMAL t = flag DECIMAL s /\
   flag BREAK t = flag BREAK s /\ flag UNDEFINED t = flag UNDEFINED s /\
   flag OVERFLOW t = flag OVERFLOW s) /\
  (X (reg t) = X (reg s) /\ Y (reg t) = Y (reg s) /\
   SP (reg t) = SP (reg s) /\ PC (reg t) = PC (reg s) /\
   ram t = ram s /\ rom t = rom s /\ key t = key s /\
   videoNeedsRefresh t = videoNeedsRefresh s /\ setAcc (ope t) = false).
Proof.
  intros Hwf Hi r t.
  pose proof (wf_ranges s Hwf) as R.
  destruct R as (_ & _ & _ & _ & _ & _ & HA & _).
  assert (Wa : wf (ACC s)) by (unfold ACC; wf_peel; exact Hwf).
  assert (Va : value (ope (ACC s)) = A (reg s))
    by (unfold ACC; project; apply u16_small; lia).
  assert (Hr : 0 <= fst r < 256)
    by (apply shifted_byte; [exact HA | apply carry_cases]).
  subst t. rewrite (shift_as_update (ACC s) i Wa Hi) by (rewrite Va; lia).
  cbv zeta. rewrite Va. change (carry (ACC s)) with (carry s). fold r.
  unfold makeUpdates. cbv zeta. rewrite ope_SR_assign.
  change (setAcc (ope (ACC s))) with true. cbv iota.
  rewrite (u8_small _ Hr).
  set (s1 := SR_assign (ACC s) CARRY (snd r)).
  set (s2 := set_setAcc (set_A s1 (fst r)) false).
  assert (W1 : wf s1) by (apply wf_SR_assign; exact Wa).
  assert (W2 : wf s2) by (subst s2; wf_peel; exact W1).
  assert (F : forall m, is_mask m = true ->
                flag m s2 = if m =? CARRY then snd r else flag m s).
  { intros m Hm. change (flag m s2) with (flag m s1). subst s1.
    rewrite SR_assign_flag by (first [exact Wa | assumption | reflexivity]).
    reflexivity. }
  destruct (same_but_SR_setSZ s2 (fst r))
    as (EA & EX & EY & ES & EP & EO & ER & EM & EK & EV).
  destruct (same_but_SR_assign (ACC s) CARRY (snd r))
    as (EA1 & EX1 & EY1 & ES1 & EP1 & EO1 & ER1 & EM1 & EK1 & EV1).
  fold s1 in EA1, EX1, EY1, ES1, EP1, EO1, ER1, EM1, EK1, EV1.
  rewrite !setSZ_flag by (first [exact W2 | reflexivity]).
  rewrite !F by reflexivity.
  rewrite (u8_small _ Hr).
  cbn [Z.eqb CARRY ZERO SIGN INTERRUPT DECIMAL BREAK UNDEFINED OVERFLOW Pos.eqb].
  rewrite EA, EX, EY, ES, EP, EO, ER, EM, EK, EV.
  subst s2. project.
  rewrite EX1, EY1, ES1, EP1, ER1, EM1, EK1, EV1.
  rewrite (u8_small _ Hr).
  unfold ACC. project. auto 20.
Qed.

(** X23. Shifts and rotates of the accumulator.  ASL doubles A modulo 256
    and LSR halves it; ROL and ROR do the same with the old carry coming in
    at the free end; C receives the bit shifted out, Z and N describe the
    new A, and nothing else changes ([setAcc] is clear again afterwards). *)
Theorem shift_accumulator (s : machine) (i : Instr) :
  wf s -> is_shift i = true ->
  let r := shifted i (A (reg s)) (carry s) in
  let t := execute i (ACC s) in
  (A (reg t) = fst r /\ flag CARRY t = snd r /\
   flag ZERO t = (fst r =? 0) /\ flag SIGN t = (128 <=? fst r)) /\
  (flag INTERRUPT t = flag INTERRUPT s /\ flag DECIMAL t = flag DECIMAL s /\
   flag BREAK t = flag BREAK s /\ flag UNDEFINED t = flag UNDEFINED s /\
   flag OVERFLOW t = flag OVERFLOW s) /\
  (X (reg t) = X (reg s) /\ Y (reg t) = Y (reg s) /\
   SP (reg t) = SP (reg s) /\ PC (reg t) = PC (reg s) /\
   ram t = ram s /\ rom t = rom s /\ key t = key s /\
   videoNeedsRefresh t = videoNeedsRefresh s /\ setAcc (ope t) = false).
Proof. exact (shift_accumulator_effect s i). Qed.

Lemma shift_accumulator_witness :
  A (reg (execute i_ROL (ACC (set_A (set_SR power_on 0x21) 0x81)))) = 0x03 /\
  flag CARRY (execute i_ROL (ACC (set_A (set_SR power_on 0x21) 0x81))) = true.
Proof.
  assert (W : wf (set_A (set_SR power_on 0x21) 0x81)) by (vm_compute; reflexivity).
  destruct (shift_accumulator _ i_ROL W eq_refl) as ((HA & HC & _) & _).
  split; [refine (eq_trans HA _) | refine (eq_trans HC _)]; vm_compute; reflexivity.
Defined.

Lemma rotate_bits (a c : Z) :
  0 <= a < 256 -> c = 0 \/ c = 1 ->
  ((2 * a + c) mod 256 / 2 + 128 * (if 128 <=? a then 1 else 0) = a /\
   Z.odd ((2 * a + c) mod 256) = (c =? 1)) /\
  ((2 * (a / 2 + 128 * c) + (if Z.odd a then 1 else 0)) mod 256 = a /\
   (128 <=? a / 2 + 128 * c) = (c =? 1)).
Proof.
  intros Ha Hc.
  pose (P := fun c a =>
    ((2 * a + c) mod 256 / 2 + 128 * (if 128 <=? a then 1 else 0) =? a)
    && eqb (Z.odd ((2 * a + c) mod 256)) (c =? 1)
    && ((2 * (a / 2 + 128 * c) + (if Z.odd a then 1 else 0)) mod 256 =? a)
    && eqb (128 <=? a / 2 + 128 * c) (c =? 1)).
  assert (H : P c a = true).
  { destruct Hc as [-> | ->];
      [apply (forall_byte (P 0)) | apply (forall_byte (P 1))];
      first [exact Ha | vm_compute; reflexivity]. }
  unfold P in H. rewrite !andb_true_iff in H.
  destruct H as (((H1 & H2) & H3) & H4).
  apply Z.eqb_eq in H1, H3. apply eqb_prop in H2, H4. auto.
Qed.

Lemma carry_flag (s : machine) : (carry s =? 1) = flag CARRY s.
Proof. unfold carry. destruct (flag CARRY s); reflexivity. Qed.

(** X24. Rotating the accumulator left and then right, or right and then
    left, restores both A and the carry: the nine bits of A and C go round
    and come back. *)
Theorem rotate_round_trip (s : machine) :
  wf s ->
  let t := execute i_ROR (ACC (execute i_ROL (ACC s))) in
  let u := execute i_ROL (ACC (execute i_ROR (ACC s))) in
  (A (reg t) = A (reg s) /\ flag CARRY t = flag CARRY s) /\
  (A (reg u) = A (reg s) /\ flag CARRY u = flag CARRY s).
Proof.
  intros Hwf t u.
  pose proof (wf_ranges s Hwf) as R.
  destruct R as (_ & _ & _ & _ & _ & _ & HA & _).
  destruct (rotate_bits (A (reg s)) (carry s) HA (carry_cases s))
    as ((B1 & B2) & (B3 & B4)).
  assert (Wa : wf (ACC s)) by (unfold ACC; wf_peel; exact Hwf).
  split.
  - destruct (shift_accumulator_effect s i_ROL Hwf eq_refl) as ((EA & EC & _) & _).
    destruct (shift_accumulator_effect (execute i_ROL (ACC s)) i_ROR) as ((FA & FC & _) & _);
      [apply wf_execute; exact Wa | reflexivity |].
    cbv zeta in EA, EC, FA, FC. cbn [shifted fst snd] in EA, EC, FA, FC.
    subst t. rewrite FA, FC. unfold carry at 1. rewrite EC, EA.
    rewrite B1, B2. split; [reflexivity | apply carry_flag].
  - destruct (shift_accumulator_effect s i_ROR Hwf eq_refl) as ((EA & EC & _) & _).
    destruct (shift_accumulator_effect (execute i_ROR (ACC s)) i_ROL) as ((FA & FC & _) & _);
      [apply wf_execute; exact Wa | reflexivity |].
    cbv zeta in EA, EC, FA, FC. cbn [shifted fst snd] in EA, EC, FA, FC.
    subst u. rewrite FA, FC. unfold carry at 1. rewrite EC, EA.
    rewrite B3, B4. split; [reflexivity | apply carry_flag].
Qed.

Lemma rotate_round_trip_witness :
  A (reg (execute i_ROR (ACC (execute i_ROL (ACC (set_A (set_SR power_on 0x21) 0x81))))))
  = 0x81.
Proof.
  assert (W : wf (set_A (set_SR power_on 0x21) 0x81)) by (vm_compute; reflexivity).
  destruct (rotate_round_trip _ W) as ((HA & _) & _).
  refine (eq_trans HA _). vm_compute. reflexivity.
Defined.

Lemma writeMem_SR (s : machine) (v a x : Z) :
  ram (writeMem (set_SR s v) a x) = ram (writeMem s a x) /\
  key (writeMem (set_SR s v) a x) = key (writeMem s a x) /\
  videoNeedsRefresh (writeMem (set_SR s v) a x) = videoNeedsRefresh (writeMem s a x) /\
  rom (writeMem (set_SR s v) a x) = rom (writeMem s a x).
Proof. unfold writeMem. cbv zeta. split_ifs; project; auto. Qed.

(** X25. Shifts and rotates of a memory operand.  With [setAcc] clear and a
    byte operand, the instruction stores the shifted byte at the operand's
    address exactly as [writeMem] would (so nothing is stored in ROM, and the
    text page raises the video-dirty flag), sets C, Z and N as for the
    accumulator, and leaves the registers alone. *)
Theorem shift_memory (s : machine) (i : Instr) :
  wf s -> is_shift i = true -> setAcc (ope s) = false -> value (ope s) < 256 ->
  let r := shifted i (value (ope s)) (carry s) in
  let t := execute i s in
  let w := writeMem s (address (ope s)) (fst r) in
  (ram t = ram w /\ key t = key w /\ rom t = rom w /\
   videoNeedsRefresh t = videoNeedsRefresh w) /\
  (flag CARRY t = snd r /\ flag ZERO t = (fst r =? 0) /\
   flag SIGN t = (128 <=? fst r)) /\
  (A (reg t) = A (reg s) /\ X (reg t) = X (reg s) /\ Y (reg t) = Y (reg s) /\
   SP (reg t) = SP (reg s) /\ PC (reg t) = PC (reg s)).
Proof.
  intros Hwf Hi Hacc Hv r t w.
  pose proof (wf_ranges s Hwf) as R.
  destruct R as (_ & _ & _ & _ & Hval & _).
  assert (Hr : 0 <= fst r < 256)
    by (apply shifted_byte; [lia | apply carry_cases]).
  subst t. rewrite (shift_as_update s i Hwf Hi Hv). cbv zeta. fold r.
  unfold makeUpdates. cbv zeta. rewrite ope_SR_assign, Hacc.
  rewrite (u8_small _ Hr).
  set (s1 := SR_assign s CARRY (snd r)).
  set (s2 := writeMem s1 (address (ope s)) (fst r)).
  assert (W1 : wf s1) by (apply wf_SR_assign; exact Hwf).
  assert (W2 : wf s2) by (apply wf_writeMem; exact W1).
  assert (F : forall m, is_mask m = true ->
                flag m s2 = if m =? CARRY then snd r else flag m s).
  { intros m Hm. unfold flag, s2. rewrite reg_writeMem. fold (flag m s1). subst s1.
    rewrite SR_assign_flag by (first [exact Hwf | assumption | reflexivity]).
    reflexivity. }
  destruct (same_but_SR_setSZ s2 (fst r))
    as (EA & EX & EY & ES & EP & EO & ER & EM & EK & EV).
  destruct (same_but_SR_assign s CARRY (snd r))
    as (EA1 & EX1 & EY1 & ES1 & EP1 & _).
  fold s1 in EA1, EX1, EY1, ES1, EP1.
  rewrite !setSZ_flag by (first [exact W2 | reflexivity]).
  rewrite !F by reflexivity.
  rewrite (u8_small _ Hr).
  cbn [Z.eqb CARRY ZERO SIGN INTERRUPT DECIMAL BREAK UNDEFINED OVERFLOW Pos.eqb].
  rewrite EA, EX, EY, ES, EP, ER, EM, EK, EV.
  unfold s2. rewrite reg_writeMem, EA1, EX1, EY1, ES1, EP1.
  unfold s1. rewrite SR_assign_set.
  destruct (writeMem_SR s (sr_upd (SR (reg s)) CARRY (snd r)) (address (ope s)) (fst r))
    as (-> & -> & -> & ->).
  subst w. auto 20.
Qed.

Lemma shift_memory_witness :
  ram (execute i_ASL (set_address (set_value power_on 0x81) 0x0400))
    !!! Z.to_nat 0x0400 = 0x02 /\
  videoNeedsRefresh (execute i_ASL (set_address (set_value power_on 0x81) 0x0400)) = true.
Proof.
  assert (W : wf (set_address (set_value power_on 0x81) 0x0400))
    by (vm_compute; reflexivity).
  destruct (shift_memory _ i_ASL W eq_refl) as ((HR & _ & _ & HV) & _);
    [vm_compute; reflexivity | vm_compute; reflexivity |].
  split; [rewrite HR | refine (eq_trans HV _)]; vm_compute; reflexivity.
Defined.

(** ** The keyboard controller *)




(** The keyboard controller is the part of a turn of the main loop between
    the batch and the video controller. *)
Lemma turn_controller (ERR KEY_F7 KEY_F12 : Z) (s : machine) (ch : Z) :
  turn ERR KEY_F7 KEY_F12 s ch =
  option_map video (controller ERR KEY_F7 KEY_F12 (batch s) ch).
Proof.
  unfold turn, controller. cbv zeta.
  destruct (ch =? ERR); [reflexivity|].
  destruct (ch =? KEY_F12); reflexivity.
Qed.



(** ** Memory operands and interrupts *)

Lemma writeMem_frame (s s' : machine) (a x : Z) :
  ram s' = ram s -> key s' = key s -> rom s' = rom s ->
  videoNeedsRefresh s' = videoNeedsRefresh s ->
  ram (writeMem s' a x) = ram (writeMem s a x) /\
  key (writeMem s' a x) = key (writeMem s a x) /\
  rom (writeMem s' a x) = rom (writeMem s a x) /\
  videoNeedsRefresh (writeMem s' a x) = videoNeedsRefresh (writeMem s a x).
Proof.
  intros Hr Hk Hm Hv. unfold writeMem. cbv zeta.
  split_ifs; project; rewrite ?Hr, ?Hk, ?Hm, ?Hv; auto.
Qed.

Lemma u8_u16 (x : Z) : u8 (u16 x) = x mod 256.
Proof. unfold u8, u16. Z.div_mod_to_equations. lia. Qed.

(** X27. INC and DEC.  The operand plus or minus one, modulo 256, is stored
    at the operand's address exactly as [writeMem] would store it; Z and N
    describe the byte stored; the other flags and the registers are left
    alone. *)
Theorem inc_dec_memory (s : machine) (i : Instr) (d : Z) :
  wf s -> delta i = Some d ->
  let v' := (value (ope s) + d) mod 256 in
  let t := execute i s in
  let w := writeMem s (address (ope s)) v' in
  (ram t = ram w /\ key t = key w /\ rom t = rom w /\
   videoNeedsRefresh t = videoNeedsRefresh w) /\
  (flag ZERO t = (v' =? 0) /\ flag SIGN t = (128 <=? v')) /\
  (flag CARRY t = flag CARRY s /\ flag INTERRUPT t = flag INTERRUPT s /\
   flag DECIMAL t = flag DECIMAL s /\ flag BREAK t = flag BREAK s /\
   flag UNDEFINED t = flag UNDEFINED s /\ flag OVERFLOW t = flag OVERFLOW s) /\
  (A (reg t) = A (reg s) /\ X (reg t) = X (reg s) /\ Y (reg t) = Y (reg s) /\
   SP (reg t) = SP (reg s) /\ PC (reg t) = PC (reg s)).
Proof.
  intros Hwf Hd v' t w.
  assert (E : t = let s1 := set_value s (value (ope s) + d) in
                  setSZ (writeMem s1 (address (ope s)) (u16 (value (ope s) + d)))
                        (u16 (value (ope s) + d))).
  { subst t. destruct i; try discriminate Hd; cbn in Hd; injection Hd as <-;
      cbn [execute]; unfold INC, DEC; cbv zeta; rewrite ope_writeMem; reflexivity. }
  cbv zeta in E. rewrite E. clear E. clearbody t.
  set (s1 := set_value s (value (ope s) + d)).
  set (x := u16 (value (ope s) + d)).
  set (s2 := writeMem s1 (address (ope s)) x).
  assert (W1 : wf s1) by (apply wf_set_value; exact Hwf).
  assert (W2 : wf s2) by (apply wf_writeMem; exact W1).
  assert (Hx : u8 x = v') by apply u8_u16.
  assert (Hw : writeMem s (address (ope s)) x = w).
  { subst w. unfold writeMem. cbv zeta. rewrite Hx.
    rewrite (u8_small v') by (subst v'; apply u8_range). reflexivity. }
  destruct (writeMem_frame s s1 (address (ope s)) x eq_refl eq_refl eq_refl eq_refl)
    as (F1 & F2 & F3 & F4).
  fold s2 in F1, F2, F3, F4. rewrite Hw in F1, F2, F3, F4.
  destruct (same_but_SR_setSZ s2 x)
    as (EA & EX & EY & ES & EP & EO & ER & EM & EK & EV).
  rewrite !setSZ_flag by (first [exact W2 | reflexivity]).
  rewrite Hx.
  cbn [Z.eqb CARRY ZERO SIGN INTERRUPT DECIMAL BREAK UNDEFINED OVERFLOW Pos.eqb].
  rewrite EA, EX, EY, ES, EP, ER, EM, EK, EV, F1, F2, F3, F4.
  unfold flag, s2. rewrite reg_writeMem.
  subst s1. project. auto 20.
Qed.

Lemma inc_dec_memory_witness :
  ram (execute i_DEC (set_address (set_value power_on 0) 0x0010)) !!! Z.to_nat 0x0010
    = 0xFF /\
  flag SIGN (execute i_DEC (set_address (set_value power_on 0) 0x0010)) = true.
Proof.
  assert (W : wf (set_address (set_value power_on 0) 0x0010))
    by (vm_compute; reflexivity).
  destruct (inc_dec_memory _ i_DEC (-1) W eq_refl) as ((HR & _) & (_ & HN) & _).
  split; [rewrite HR | refine (eq_trans HN _)]; vm_compute; reflexivity.
Defined.

Lemma bit_merge (sr v m : Z) :
  0 <= sr < 256 -> 0 <= v < 256 -> is_mask m = true ->
  nonzero (Z.land (u8 (Z.lor (Z.land sr 0x3F) (Z.land v 0xC0))) m) =
  if m =? SIGN then Z.testbit v 7
  else if m =? OVERFLOW then Z.testbit v 6
  else nonzero (Z.land sr m).
Proof.
  intros Hsr Hv Hm.
  pose (P := fun m sr v =>
    eqb (nonzero (Z.land (u8 (Z.lor (Z.land sr 0x3F) (Z.land v 0xC0))) m))
        (if m =? SIGN then Z.testbit v 7
         else if m =? OVERFLOW then Z.testbit v 6
         else nonzero (Z.land sr m))).
  apply eqb_prop. change (P m sr v = true).
  apply is_mask_cases in Hm.
  destruct Hm as [->|[->|[->|[->|[->|[->|[->| ->]]]]]]];
    match goal with
    | |- P ?m _ _ = true => apply (forall_byte2 (P m))
    end;
    first [exact Hsr | exact Hv | vm_compute; reflexivity].
Qed.

(** X28. BIT.  Z is set exactly when A and the operand have no bit in
    common, N and V are bits 7 and 6 of the operand, and the other flags,
    the registers, the operand and the memory are left alone. *)
Theorem BIT_flags (s : machine) :
  wf s -> value (ope s) < 256 ->
  let v := value (ope s) in
  let t := execute i_BIT s in
  (flag ZERO t = (Z.land (A (reg s)) v =? 0) /\
   flag SIGN t = Z.testbit v 7 /\
   flag OVERFLOW t = Z.testbit v 6) /\
  (flag CARRY t = flag CARRY s /\ flag INTERRUPT t = flag INTERRUPT s /\
   flag DECIMAL t = flag DECIMAL s /\ flag BREAK t = flag BREAK s /\
   flag UNDEFINED t = flag UNDEFINED s) /\
  same_but_SR s t.
Proof.
  intros Hwf Hv v t.
  pose proof (wf_ranges s Hwf) as R.
  destruct R as (_ & _ & _ & _ & Hval & _).
  assert (E : t = let s1 := SR_assign s ZERO (negb (nonzero (Z.land (A (reg s)) v))) in
                  set_SR s1 (Z.lor (Z.land (SR (reg s1)) 0x3F) (Z.land v 0xC0))).
  { subst t v. cbn [execute]. unfold BIT. cbv zeta.
    destruct (nonzero (Z.land (A (reg s)) (value (ope s)))); reflexivity. }
  cbv zeta in E. rewrite E. clear E. clearbody t.
  set (s1 := SR_assign s ZERO (negb (nonzero (Z.land (A (reg s)) v)))).
  assert (W1 : wf s1) by (apply wf_SR_assign; exact Hwf).
  pose proof (wf_ranges s1 W1) as R1.
  destruct R1 as (_ & _ & _ & _ & _ & _ & _ & _ & _ & Hsr1 & _).
  assert (F : forall m, is_mask m = true ->
                flag m (set_SR s1 (Z.lor (Z.land (SR (reg s1)) 0x3F) (Z.land v 0xC0))) =
                if m =? SIGN then Z.testbit v 7
                else if m =? OVERFLOW then Z.testbit v 6
                else if m =? ZERO then negb (nonzero (Z.land (A (reg s)) v))
                else flag m s).
  { intros m Hm. unfold flag at 1. project.
    rewrite bit_merge by (first [exact Hsr1 | assumption | subst v; lia]).
    fold (flag m s1). unfold s1.
    rewrite SR_assign_flag by (first [exact Hwf | assumption | reflexivity]).
    reflexivity. }
  rewrite !F by reflexivity.
  cbn [Z.eqb CARRY ZERO SIGN INTERRUPT DECIMAL BREAK UNDEFINED OVERFLOW Pos.eqb].
  split; [|split; [auto 10|]].
  - split; [|auto]. unfold nonzero. rewrite negb_involutive. reflexivity.
  - eapply same_but_SR_trans; [apply same_but_SR_assign | apply same_but_SR_set].
Qed.

Lemma BIT_flags_witness :
  flag ZERO (execute i_BIT (set_value (set_A power_on 0x0F) 0xC0)) = true /\
  flag SIGN (execute i_BIT (set_value (set_A power_on 0x0F) 0xC0)) = true /\
  flag OVERFLOW (execute i_BIT (set_value (set_A power_on 0x0F) 0xC0)) = true.
Proof.
  assert (W : wf (set_value (set_A power_on 0x0F) 0xC0)) by (vm_compute; reflexivity).
  destruct (BIT_flags _ W) as ((HZ & HN & HV) & _); [vm_compute; reflexivity|].
  split; [refine (eq_trans HZ _); vm_compute; reflexivity|].
  split; [refine (eq_trans HN _) | refine (eq_trans HV _)]; vm_compute; reflexivity.
Defined.

Ltac brk_rti_run :=
  rewrite (push_eq (set_PC _ _)) by (project; assumption); project;
  rewrite (push_eq (set_ram _ _)) by (project; apply u8_range); project;
  rewrite (push_eq (set_ram _ _)) by (project; apply u8_range); project;
  unfold SR_or; project;
  rewrite !readMem_eq;
  change (strobe ?x 0xFFFE) with x; change (strobe ?x 0xFFFF) with x;
  cbv beta iota zeta;
  rewrite pull_eq; cbv beta iota zeta; project;
  rewrite pull_eq; cbv beta iota zeta; project;
  rewrite pull_eq; cbv beta iota zeta; project.

(** X29. BRK followed by RTI.  The three bytes that BRK pushes are the ones
    RTI pulls.  Whichever of its two calls of [pull] for PC the RTI makes
    first, SP is back to its value and SR is the one BRK found with the B
    bit set, so the I flag that BRK set is undone; the registers, the
    operand record, the ROM, the latch and the video-dirty flag are
    untouched, and so is the RAM outside the three stack bytes.  With the
    left call first RTI continues at the address BRK saved (one past the PC
    it found); with the right call first, at that address with its two bytes
    exchanged. *)
Theorem BRK_RTI_returns (s : machine) :
  wf s ->
  let sp := SP (reg s) in
  let ret := u16 (PC (reg s) + 1) in
  (PC (reg (RTI (BRK s))) = ret /\
   PC (reg (RTI_right_first (BRK s))) = swap_bytes ret) /\
  forall t, t = RTI (BRK s) \/ t = RTI_right_first (BRK s) ->
    SP (reg t) = sp /\
    SR (reg t) = Z.lor (SR (reg s)) BREAK /\
    A (reg t) = A (reg s) /\ X (reg t) = X (reg s) /\ Y (reg t) = Y (reg s) /\
    ope t = ope s /\ rom t = rom s /\ key t = key s /\
    videoNeedsRefresh t = videoNeedsRefresh s /\
    forall a, 0 <= a < RAMSIZE ->
              a <> 0x100 + sp -> a <> 0x100 + u8 (sp - 1) ->
              a <> 0x100 + u8 (sp - 2) ->
              ram t !!! Z.to_nat a = ram s !!! Z.to_nat a.
Proof.
  intros Hwf sp ret.
  apply wf_ranges in Hwf.
  destruct Hwf as (_ & Hram & _ & _ & _ & _ & _ & _ & _ & Hsr & Hsp & _).
  unfold RAMSIZE in *.
  assert (Hret : 0 <= ret < 65536) by apply u16_range.
  assert (Hbrk : u8 (Z.lor (SR (reg s)) BREAK) = Z.lor (SR (reg s)) BREAK)
    by (apply SR_or_byte; [assumption|reflexivity]).
  assert (Hsp1 : 0 <= u8 (sp - 1) < 256) by apply u8_range.
  assert (Hsp2 : 0 <= u8 (sp - 2) < 256) by apply u8_range.
  assert (Esp2 : u8 (u8 (sp - 1) - 1) = u8 (sp - 2)) by wrap_lia.
  assert (E3 : u8 (u8 (u8 (sp - 2) - 1) + 1) = u8 (sp - 2)) by wrap_lia.
  assert (E2 : u8 (u8 (u8 (u8 (sp - 2) - 1) + 1) + 1) = u8 (sp - 1)) by wrap_lia.
  assert (E1 : u8 (u8 (u8 (u8 (u8 (sp - 2) - 1) + 1) + 1) + 1) = sp) by wrap_lia.
  assert (Ne1 : u8 (sp - 1) <> sp) by wrap_lia.
  assert (Ne2 : u8 (sp - 2) <> sp) by wrap_lia.
  assert (Ne3 : u8 (sp - 2) <> u8 (sp - 1)) by wrap_lia.
  assert (Hlo : u8 (Z.land ret 0xFF) = Z.land ret 0xFF)
    by (apply u8_small, land_byte; lia).
  assert (Hhi : u8 (Z.land (Z.shiftr ret 8) 0xFF) = Z.shiftr ret 8)
    by (rewrite (high_byte ret Hret); apply u8_small;
        rewrite <- (high_byte ret Hret); apply land_byte; lia).
  split; [split|].
  - unfold RTI, BRK. brk_rti_run. fold sp ret.
    rewrite Esp2, ?E1, ?E2, ?E3. ram_lookup.
    rewrite Hlo, Hhi, bytes_of_word. apply u16_small, Hret.
  - unfold RTI_right_first, BRK. brk_rti_run. fold sp ret.
    rewrite Esp2, ?E1, ?E2, ?E3. ram_lookup.
    rewrite Hlo, Hhi. unfold swap_bytes. apply u16_small.
    apply word_of_bytes; [|apply land_byte; lia].
    rewrite <- (high_byte ret Hret). apply land_byte. lia.
  - intros t [-> | ->].
    + unfold RTI, BRK. brk_rti_run. fold sp ret.
      rewrite Esp2, ?E1, ?E2, ?E3.
      split; [reflexivity|].
      split; [ram_lookup; rewrite Hbrk; apply u8_small; rewrite <- Hbrk; apply u8_range|].
      repeat split. intros a Ha N1 N2 N3. ram_lookup. reflexivity.
    + unfold RTI_right_first, BRK. brk_rti_run. fold sp ret.
      rewrite Esp2, ?E1, ?E2, ?E3.
      split; [reflexivity|].
      split; [ram_lookup; rewrite Hbrk; apply u8_small; rewrite <- Hbrk; apply u8_range|].
      repeat split. intros a Ha N1 N2 N3. ram_lookup. reflexivity.
Qed.

Lemma BRK_RTI_returns_witness :
  PC (reg (RTI (BRK brk_state))) = 0x1300 /\
  PC (reg (RTI_right_first (BRK brk_state))) = 0x0013 /\
  SP (reg (RTI_right_first (BRK brk_state))) = SP (reg brk_state).
Proof.
  assert (W : wf brk_state) by (vm_compute; reflexivity).
  destruct (BRK_RTI_returns brk_state W) as ((H1 & H2) & H3).
  split; [refine (eq_trans H1 _); vm_compute; reflexivity|].
  split; [refine (eq_trans H2 _); vm_compute; reflexivity|].
  destruct (H3 _ (or_intror eq_refl)) as (H4 & _). exact H4.
Defined.

(** ** The order of the two pulls *)

(** X30. Which call of [pull() | (pull() << 8)] is made first matters to
    [RTS] and [RTI] only, opcodes [0x60] and [0x40], and there to PC only:
    on every other opcode the two interpreters take the same step, and on
    these two they leave the same registers but PC, the same flags, the
    same operand record, arrays, latch and video-dirty flag. *)
Theorem pull_order_only_PC (s : machine) :
  let op := u8 (peek s (PC (reg s))) in
  let i := nth (Z.to_nat op) instruction i_UND in
  (pulls_twice i = true <-> op = 0x60 \/ op = 0x40) /\
  (pulls_twice i = false -> step_right_first s = step s) /\
  A (reg (step_right_first s)) = A (reg (step s)) /\
  X (reg (step_right_first s)) = X (reg (step s)) /\
  Y (reg (step_right_first s)) = Y (reg (step s)) /\
  SP (reg (step_right_first s)) = SP (reg (step s)) /\
  SR (reg (step_right_first s)) = SR (reg (step s)) /\
  ope (step_right_first s) = ope (step s) /\
  ram (step_right_first s) = ram (step s) /\
  rom (step_right_first s) = rom (step s) /\
  key (step_right_first s) = key (step s) /\
  videoNeedsRefresh (step_right_first s) = videoNeedsRefresh (step s).
Proof.
  intros op i.
  split.
  { pose (P := fun op => eqb (pulls_twice (nth (Z.to_nat op) instruction i_UND))
                             ((op =? 0x60) || (op =? 0x40))).
    assert (H : P op = true)
      by (apply (forall_byte P); [vm_compute; reflexivity | apply u8_range]).
    unfold P in H. apply eqb_prop in H. fold i in H. rewrite H.
    rewrite orb_true_iff, !Z.eqb_eq. reflexivity. }
  rewrite step_eq, step_right_first_eq. cbv zeta. fold op. fold i.
  set (s1 := resolve _ _). clearbody s1. clearbody i.
  split.
  { intros H. destruct i; try discriminate H; reflexivity. }
  destruct i; cbn [execute_right_first]; try (repeat split; reflexivity);
    cbn [execute]; unfold RTS, RTS_right_first, RTI, RTI_right_first;
    run; project; repeat split; reflexivity.
Qed.
